(** * Chromatic tuner: the frequency-estimation pipeline of [freq_analysis.c]

    A shallow embedding of [min_in_range], [calculate_peaks],
    [calculate_avg_wavelength], [calculate_sma], [calculate_interference_pwr]
    and [calculate_freq] (src/freq_analysis.c), and of the smoothing loop of
    [core0_thread] (src/tuner.c), followed by the properties proved about them.
    The code of core 1 that turns a frequency into a note ([update_display],
    [update_leds] and the body of [core1_interrupt_handler], src/tuner.c) is
    embedded as well: its [double] constants are IEEE 754 binary64 and the
    calls of [gpio_put] are listed in the order of execution.

    Conventions of the embedding:
    - C integers are [Z]; every store into a [uint8_t], [uint16_t] or
      [int32_t] object goes through [u8], [u16] or [i32], which write the
      wrap-around out;
    - C arrays are lists; an access outside the list is undefined behaviour
      in C and the result [OutOfBounds] here;
    - [float] is IEEE 754 binary32, through the parameterised operations of
      [SpecFloat] at precision 24 and maximal exponent 128;
    - every array access is recorded in a trace, most recent first, so that
      statements about what the code reads and writes can be made;
    - loops test their guard as the code does and take a [fuel] bound; the
      theorems show how much fuel is enough. *)

From Stdlib Require Import ZArith Lia List Floats.SpecFloat.
From stdpp Require Import base tactics option list relations sorting.

Local Open Scope Z_scope.

(** ** Configuration constants ([macros.h]) *)

Definition NUM_SAMPLES : Z := 1500.
Definition SHIFT_LIMIT : Z := 1250.
Definition SMA_WIDTH : Z := 20.
Definition PEAK_SEARCH_RANGE : Z := 15.
Definition PEAK_TRACKING_LIMIT : Z := 10.
Definition INTERFERENCE_THRESHOLD : Z := 3000.
Definition DEFAULT_VAL : Z := 100.
Definition FS : Z := 44000.

(** [INT_MAX] of [<limits.h>] for a 32-bit [int]. *)
Definition INT_MAX : Z := 2147483647.

(** ** Machine integers *)

Definition u8 (x : Z) : Z := x mod 256.
Definition u16 (x : Z) : Z := x mod 65536.
Definition i32 (x : Z) : Z := (x + 2147483648) mod 4294967296 - 2147483648.

Definition is_u8 (x : Z) : Prop := 0 <= x < 256.
Definition is_u16 (x : Z) : Prop := 0 <= x < 65536.

(** ** Memory accesses, results and the monad *)

(** The arrays of the program. *)
Variant buffer : Set :=
  | SamplesBuff    (* [samples_buff], the raw window of tuner.c *)
  | Signal         (* the smoothed signal, [samples] / [array] of calculate_freq *)
  | Interference   (* [interference], the profile scanned by calculate_peaks *)
  | Peaks.         (* [peaks] *)

Variant access : Set :=
  | Rd (b : buffer) (i : Z)
  | Wr (b : buffer) (i : Z) (v : Z).

(** Accesses in reverse order of execution: the head is the latest one. *)
Definition trace : Set := list access.

Variant result (A : Type) : Type :=
  | Ok (a : A)
  | OutOfBounds
  | OutOfFuel.
Arguments Ok {A} a.
Arguments OutOfBounds {A}.
Arguments OutOfFuel {A}.

Definition M (A : Type) : Type := trace -> result A * trace.

Definition ret {A} (a : A) : M A := fun t => (Ok a, t).

Definition bind {A B} (m : M A) (k : A -> M B) : M B :=
  fun t =>
    match m t with
    | (Ok a, t') => k a t'
    | (OutOfBounds, t') => (OutOfBounds, t')
    | (OutOfFuel, t') => (OutOfFuel, t')
    end.

Definition out_of_fuel {A} : M A := fun t => (OutOfFuel, t).

Notation "x <- m ;; k" := (bind m (fun x => k))
  (at level 100, m at next level, right associativity).

(** [a[i]]: the element, or [None] outside the array. *)
Definition get (a : list Z) (i : Z) : option Z :=
  if i <? 0 then None else a !! Z.to_nat i.

(** An array read [a[i]] of buffer [b]. *)
Definition read (b : buffer) (a : list Z) (i : Z) : M Z :=
  fun t =>
    match get a i with
    | Some v => (Ok v, Rd b i :: t)
    | None => (OutOfBounds, Rd b i :: t)
    end.

(** An array store [a[i] = v] into buffer [b]; the updated array. *)
Definition write (b : buffer) (a : list Z) (i : Z) (v : Z) : M (list Z) :=
  fun t =>
    if (0 <=? i) && (i <? Z.of_nat (length a))
    then (Ok (<[Z.to_nat i := v]> a), Wr b i v :: t)
    else (OutOfBounds, Wr b i v :: t).

(** ** Binary32 arithmetic *)

Module F32.
Definition prec : Z := 24.
Definition emax : Z := 128.
Definition t : Set := spec_float.

(** Conversion of an integer to [float], rounding to nearest even. *)
Definition of_Z (z : Z) : t := binary_normalize prec emax z 0 false.
Definition add (x y : t) : t := SFadd prec emax x y.
Definition div (x y : t) : t := SFdiv prec emax x y.

(** [0 < x], as the comparison of C does it. *)
Definition is_pos (x : t) : bool := SFltb (S754_zero false) x.
Definition is_zero (x : t) : bool := SFeqb x (S754_zero false).
Definition is_finite (x : t) : bool :=
  match x with S754_zero _ | S754_finite _ _ _ => true | _ => false end.
End F32.

(** ** [min_in_range] (freq_analysis.c, lines 3-12) *)

Fixpoint min_in_range_loop (fuel : nat) (array : list Z)
    (begin_index range i min_index : Z) : M Z :=
  if i <? range then
    match fuel with
    | O => out_of_fuel
    | S fuel' =>
        a <- read Interference array (begin_index + i) ;;
        m <- read Interference array min_index ;;
        let min_index' := if a <? m then u16 (begin_index + i) else min_index in
        min_in_range_loop fuel' array begin_index range (u16 (i + 1)) min_index'
    end
  else ret min_index.

Definition min_in_range (fuel : nat) (array : list Z) (begin_index range : Z) : M Z :=
  let min_index := begin_index in
  min_in_range_loop fuel array begin_index range 0 min_index.

(** ** [calculate_peaks] (freq_analysis.c, lines 14-42) *)

(** The variables of the scan: the loop counter, the three window minima
    (the next one is local to an iteration) and the peak list. *)
Record scan : Type := Scan {
  scan_i : Z;
  prev_min_index : Z;
  current_min_index : Z;
  peaks : list Z;
  peak_count : Z
}.

(** How an iteration of a loop ends. *)
Variant flow (S : Type) : Type :=
  | Continue (s : S)
  | Break (s : S)
  | Return (s : S).
Arguments Continue {S} s.
Arguments Break {S} s.
Arguments Return {S} s.

(** The loop guard of line 20. *)
Definition scan_guard (s : scan) : bool :=
  scan_i s <? SHIFT_LIMIT - PEAK_SEARCH_RANGE - PEAK_SEARCH_RANGE.

(** The condition of line 24, with the short circuit of [&&]. *)
Definition is_local_dip (array : list Z) (prev cur next : Z) : M bool :=
  p <- read Interference array prev ;;
  c <- read Interference array cur ;;
  if p >? c then
    n <- read Interference array next ;;
    c' <- read Interference array cur ;;
    ret (n >? c')
  else ret false.

(** The condition of line 28, with the short circuit of [&&]. *)
Definition predecessor_is_lower (array : list Z) (cur : Z) : M bool :=
  if cur >? 0 then
    p <- read Interference array (cur - 1) ;;
    c <- read Interference array cur ;;
    ret (p <? c)
  else ret false.

(** Lines 39-40. *)
Definition slide (s : scan) (next_min_index : Z) : scan :=
  {| scan_i := scan_i s;
     prev_min_index := current_min_index s;
     current_min_index := next_min_index;
     peaks := peaks s;
     peak_count := peak_count s |}.

(** The loop increment of line 20. *)
Definition scan_incr (s : scan) : scan :=
  {| scan_i := u16 (scan_i s + PEAK_SEARCH_RANGE);
     prev_min_index := prev_min_index s;
     current_min_index := current_min_index s;
     peaks := peaks s;
     peak_count := peak_count s |}.

(** Lines 31-37: the candidate is accepted and appended; the scan ends when
    the list is full, and otherwise slides on (lines 39-40). The [printf]
    of line 32 is kept for its read of [array[current_min_index]]. *)
Definition append_peak (array : list Z) (s : scan) (next_min_index : Z) : M (flow scan) :=
  let peak_count' := u8 (peak_count s + 1) in
  _ <- read Interference array (current_min_index s) ;;
  peaks' <- write Peaks (peaks s) (peak_count' - 1) (current_min_index s) ;;
  let s' := {| scan_i := scan_i s;
               prev_min_index := prev_min_index s;
               current_min_index := current_min_index s;
               peaks := peaks';
               peak_count := peak_count' |} in
  if peak_count' >=? PEAK_TRACKING_LIMIT then ret (Return s')
  else ret (Continue (slide s' next_min_index)).

(** Lines 26-37: what is done with a candidate peak, the local minimum at
    [current_min_index]. *)
Definition handle_candidate (array : list Z) (s : scan) (next_min_index : Z) : M (flow scan) :=
  lower <- predecessor_is_lower array (current_min_index s) ;;
  if lower then ret (Break s)
  else append_peak array s next_min_index.

(** One iteration, lines 22-40. *)
Definition calculate_peaks_body (fuel : nat) (array : list Z) (s : scan) : M (flow scan) :=
  next_min_index <-
    min_in_range fuel array (u16 (scan_i s + PEAK_SEARCH_RANGE)) PEAK_SEARCH_RANGE ;;
  dip <- is_local_dip array (prev_min_index s) (current_min_index s) next_min_index ;;
  if dip then handle_candidate array s next_min_index
  else ret (Continue (slide s next_min_index)).

Fixpoint calculate_peaks_loop (fuel0 fuel : nat) (array : list Z) (s : scan) : M scan :=
  if scan_guard s then
    match fuel with
    | O => out_of_fuel
    | S fuel' =>
        f <- calculate_peaks_body fuel0 array s ;;
        match f with
        | Continue s' => calculate_peaks_loop fuel0 fuel' array (scan_incr s')
        | Break s' => ret s'
        | Return s' => ret s'
        end
    end
  else ret s.

(** The initial state of the scan, lines 16-17 and the initialisation of
    line 20. *)
Definition scan_init (fuel : nat) (peaks0 : list Z) (peak_count0 : Z) (array : list Z)
    : M scan :=
  prev <- min_in_range fuel array 0 PEAK_SEARCH_RANGE ;;
  current <- min_in_range fuel array PEAK_SEARCH_RANGE PEAK_SEARCH_RANGE ;;
  ret {| scan_i := PEAK_SEARCH_RANGE;
         prev_min_index := prev;
         current_min_index := current;
         peaks := peaks0;
         peak_count := peak_count0 |}.

(** [peaks] and [*peak_count] are updated in place: the function returns
    their final values. *)
Definition calculate_peaks (fuel : nat) (peaks0 : list Z) (peak_count0 : Z) (array : list Z)
    : M (list Z * Z) :=
  s0 <- scan_init fuel peaks0 peak_count0 array ;;
  s <- calculate_peaks_loop fuel fuel array s0 ;;
  ret (peaks s, peak_count s).

(** ** [calculate_avg_wavelength] (freq_analysis.c, lines 44-55) *)

Fixpoint avg_wavelength_loop (fuel : nat) (peaks : list Z) (peak_count i : Z) (sum : F32.t)
    : M F32.t :=
  if i <? peak_count then
    match fuel with
    | O => out_of_fuel
    | S fuel' =>
        p <- read Peaks peaks i ;;
        let sum' := F32.add sum (F32.div (F32.of_Z p) (F32.of_Z (i + 1))) in
        avg_wavelength_loop fuel' peaks peak_count (u8 (i + 1)) sum'
    end
  else ret sum.

Definition calculate_avg_wavelength (fuel : nat) (peaks : list Z) (peak_count : Z) : M F32.t :=
  if peak_count =? 0 then ret (F32.of_Z DEFAULT_VAL)
  else
    sum <- avg_wavelength_loop fuel peaks peak_count 0 (F32.of_Z 0) ;;
    ret (F32.div sum (F32.of_Z peak_count)).

(** ** [calculate_sma] (freq_analysis.c, lines 57-65) *)

(** One iteration of the loop of line 60 and its increment, on the pair
    of [i] and [sum]. *)
Definition calculate_sma_body (index : Z) (array : list Z) (st : Z * Z) : M (Z * Z) :=
  let (i, sum) := st in
  a <- read SamplesBuff array (index + i) ;;
  ret (u8 (i + 1), u16 (sum + a)).

Fixpoint calculate_sma_loop (fuel : nat) (index : Z) (array : list Z) (st : Z * Z) : M Z :=
  if fst st <=? SMA_WIDTH then
    match fuel with
    | O => out_of_fuel
    | S fuel' =>
        st' <- calculate_sma_body index array st ;;
        calculate_sma_loop fuel' index array st'
    end
  else ret (snd st).

(** The division of two non-negative [int]s truncates: [Z.quot]. *)
Definition calculate_sma (fuel : nat) (index : Z) (array : list Z) : M Z :=
  sum <- calculate_sma_loop fuel index array (0, 0) ;;
  ret (u16 (Z.quot sum (SMA_WIDTH + 1))).

(** ** [calculate_interference_pwr] (freq_analysis.c, lines 67-78) *)

Fixpoint interference_pwr_loop (fuel : nat) (shift : Z) (array : list Z) (i power_diff : Z)
    : M Z :=
  if i <? NUM_SAMPLES - shift then
    match fuel with
    | O => out_of_fuel
    | S fuel' =>
        a <- read Signal array i ;;
        b <- read Signal array (i + shift) ;;
        let power_diff' := i32 (power_diff + Z.abs (a - b)) in
        if power_diff' >? INTERFERENCE_THRESHOLD then ret INT_MAX
        else interference_pwr_loop fuel' shift array (u16 (i + 1)) power_diff'
    end
  else ret power_diff.

Definition calculate_interference_pwr (fuel : nat) (shift : Z) (array : list Z) : M Z :=
  interference_pwr_loop fuel shift array 0 0.

(** ** [calculate_freq] (freq_analysis.c, lines 80-95) *)

(** The loop of lines 83-86. *)
Fixpoint interference_fill (fuel0 fuel : nat) (array interference : list Z) (shift : Z)
    : M (list Z) :=
  if shift <? NUM_SAMPLES then
    match fuel with
    | O => out_of_fuel
    | S fuel' =>
        v <- calculate_interference_pwr fuel0 shift array ;;
        interference' <- write Interference interference shift v ;;
        interference_fill fuel0 fuel' array interference' (u16 (shift + 1))
    end
  else ret interference.

(** [interference0] and [peaks0] are the indeterminate initial contents of
    the two local arrays, of [NUM_SAMPLES] and [PEAK_TRACKING_LIMIT]
    elements. *)
Definition calculate_freq (fuel : nat) (interference0 peaks0 : list Z) (array : list Z)
    : M F32.t :=
  interference <- interference_fill fuel fuel array interference0 0 ;;
  let peak_count := 0 in
  pc <- calculate_peaks fuel peaks0 peak_count interference ;;
  avg_wavelength <- calculate_avg_wavelength fuel (fst pc) (snd pc) ;;
  let frequency := F32.div (F32.of_Z FS) avg_wavelength in
  ret frequency.

(** ** The smoothing loop of [core0_thread] (tuner.c, lines 95-98) *)

(** [samples0] is the indeterminate initial content of [samples]; the
    [uint16_t] result of [calculate_sma] is stored into a [uint8_t]. *)
Fixpoint smooth_loop (fuel0 fuel : nat) (samples_buff samples : list Z) (i : Z) : M (list Z) :=
  if i <? NUM_SAMPLES then
    match fuel with
    | O => out_of_fuel
    | S fuel' =>
        v <- calculate_sma fuel0 i samples_buff ;;
        samples' <- write Signal samples i (u8 v) ;;
        smooth_loop fuel0 fuel' samples_buff samples' (u16 (i + 1))
    end
  else ret samples.

Definition smooth (fuel : nat) (samples_buff samples0 : list Z) : M (list Z) :=
  smooth_loop fuel fuel samples_buff samples0 0.

(** ** One iteration of [core0_thread] (tuner.c, lines 91-109) *)

(** The smoothing loop and the call of [calculate_freq]: the frequency that
    the iteration pushes into the FIFO. The DMA calls of lines 92 and 101
    touch no variable of the program. *)
Definition core0_iteration (fuel : nat) (samples_buff samples0 interference0 peaks0 : list Z)
    : M F32.t :=
  samples <- smooth fuel samples_buff samples0 ;;
  frequency <- calculate_freq fuel interference0 peaks0 samples ;;
  ret frequency.

(** ** Binary64 numbers, and more of binary32 *)

(** [double] is IEEE 754 binary64. A decimal constant of the source is the
    [double] nearest to it: the quotient, rounded to nearest even, of an
    integer by a power of ten, which are both exact in binary64. *)
Module F64.
Definition prec : Z := 53.
Definition emax : Z := 1024.
Definition t : Set := spec_float.

Definition of_Z (z : Z) : t := binary_normalize prec emax z 0 false.
Definition div (x y : t) : t := SFdiv prec emax x y.
Definition decimal (digits scale : Z) : t := div (of_Z digits) (of_Z scale).
Definition opp (x : t) : t := SFopp x.

(** [x < y] and [x > y], false when an operand is not a number. *)
Definition ltb (x y : t) : bool := SFltb x y.
Definition gtb (x y : t) : bool := SFltb y x.

(** The conversion of a [float] to [double], which is exact. *)
Definition of_float (x : F32.t) : t :=
  match x with
  | S754_finite s m e => binary_round prec emax s m e
  | _ => x
  end.
End F64.

(** The conversion of a [double] to [float], rounding to nearest even. *)
Definition float_of_double (x : F64.t) : F32.t :=
  match x with
  | S754_finite s m e => binary_round F32.prec F32.emax s m e
  | _ => x
  end.

Definition fmul (x y : F32.t) : F32.t := SFmul F32.prec F32.emax x y.
Definition fsub (x y : F32.t) : F32.t := SFsub F32.prec F32.emax x y.

(** ** Pins, segment patterns and note frequencies ([macros.h]) *)

Definition SEGMENT_A_PIN : Z := 9.
Definition SEGMENT_B_PIN : Z := 8.
Definition SEGMENT_C_PIN : Z := 7.
Definition SEGMENT_D_PIN : Z := 10.
Definition SEGMENT_E_PIN : Z := 11.
Definition SEGMENT_F_PIN : Z := 12.
Definition SEGMENT_G_PIN : Z := 13.
Definition SEGMENT_DP_PIN : Z := 6.

Definition LOW_PITCH_INDICATOR_PIN : Z := 18.
Definition IN_TUNE_INDICATOR_PIN : Z := 19.
Definition HI_PITCH_INDICATOR_PIN : Z := 20.

Definition A_note : Z := 0x11.        (* 0b00010001 *)
Definition A_sharp_note : Z := 0x10.  (* 0b00010000 *)
Definition B_note : Z := 0xc1.        (* 0b11000001 *)
Definition C_note : Z := 0x63.        (* 0b01100011 *)
Definition C_sharp_note : Z := 0x62.  (* 0b01100010 *)
Definition D_note : Z := 0x85.        (* 0b10000101 *)
Definition D_sharp_note : Z := 0x84.  (* 0b10000100 *)
Definition E_note : Z := 0x61.        (* 0b01100001 *)
Definition F_note : Z := 0x71.        (* 0b01110001 *)
Definition F_sharp_note : Z := 0x70.  (* 0b01110000 *)
Definition G_note : Z := 0x43.        (* 0b01000011 *)
Definition G_sharp_note : Z := 0x42.  (* 0b01000010 *)

Definition TUNE_PRECISION : F64.t := F64.decimal 7 10.

Definition A3_bottom_range : F64.t := F64.decimal 21374 100.
Definition A3_sharp_bottom_range : F64.t := F64.decimal 22645 100.
Definition B3_bottom_range : F64.t := F64.decimal 23991 100.
Definition C3_bottom_range : F64.t := F64.decimal 25418 100.
Definition C3_sharp_bottom_range : F64.t := F64.decimal 26929 100.
Definition D3_bottom_range : F64.t := F64.decimal 28530 100.
Definition D3_sharp_bottom_range : F64.t := F64.decimal 30227 100.
Definition E3_bottom_range : F64.t := F64.decimal 32025 100.
Definition F3_bottom_range : F64.t := F64.decimal 33929 100.
Definition F3_sharp_bottom_range : F64.t := F64.decimal 35946 100.
Definition G3_bottom_range : F64.t := F64.decimal 380849 1000.
Definition G3_sharp_bottom_range : F64.t := F64.decimal 40348 100.
Definition A4_bottom_range : F64.t := F64.decimal 42747 100.

Definition A3_freq : F64.t := F64.decimal 22000 100.
Definition A3_sharp_freq : F64.t := F64.decimal 23308 100.
Definition B3_freq : F64.t := F64.decimal 24694 100.
Definition C3_freq : F64.t := F64.decimal 26163 100.
Definition C3_sharp_freq : F64.t := F64.decimal 27718 100.
Definition D3_freq : F64.t := F64.decimal 29366 100.
Definition D3_sharp_freq : F64.t := F64.decimal 31113 100.
Definition E3_freq : F64.t := F64.decimal 32963 100.
Definition F3_freq : F64.t := F64.decimal 34923 100.
Definition F3_sharp_freq : F64.t := F64.decimal 36999 100.
Definition G3_freq : F64.t := F64.decimal 39200 100.
Definition G3_sharp_freq : F64.t := F64.decimal 41530 100.

(** ** [update_display] and [update_leds] (tuner.c, lines 122-165) *)

(** A call [gpio_put(pin, value)] of the Pico SDK, which takes [value] as
    a [bool] and drives the pin high when it is true. *)
Variant gpio_event : Set := GpioPut (pin : Z) (value : bool).

(** The conversion of an [int] to [bool]. *)
Definition to_bool (x : Z) : bool := negb (x =? 0).

(** The calls of [gpio_put], in the order of execution. *)
Definition update_display (note : Z) : list gpio_event :=
  [ GpioPut SEGMENT_A_PIN (to_bool (Z.land note 0x80));
    GpioPut SEGMENT_B_PIN (to_bool (Z.land note 0x40));
    GpioPut SEGMENT_C_PIN (to_bool (Z.land note 0x20));
    GpioPut SEGMENT_D_PIN (to_bool (Z.land note 0x10));
    GpioPut SEGMENT_E_PIN (to_bool (Z.land note 0x08));
    GpioPut SEGMENT_F_PIN (to_bool (Z.land note 0x04));
    GpioPut SEGMENT_G_PIN (to_bool (Z.land note 0x02));
    GpioPut SEGMENT_DP_PIN (to_bool (Z.land note 0x01)) ].

(** The difference is a [float]; it is compared as a [double] with the
    [double] constant. *)
Definition update_leds (frequency refference_frequency : F32.t) : list gpio_event :=
  let difference := F64.of_float (fsub frequency refference_frequency) in
  if F64.ltb difference (F64.opp TUNE_PRECISION) then
    [ GpioPut LOW_PITCH_INDICATOR_PIN (to_bool 1);
      GpioPut IN_TUNE_INDICATOR_PIN (to_bool 0);
      GpioPut HI_PITCH_INDICATOR_PIN (to_bool 0) ]
  else if F64.gtb difference TUNE_PRECISION then
    [ GpioPut LOW_PITCH_INDICATOR_PIN (to_bool 0);
      GpioPut IN_TUNE_INDICATOR_PIN (to_bool 0);
      GpioPut HI_PITCH_INDICATOR_PIN (to_bool 1) ]
  else
    [ GpioPut LOW_PITCH_INDICATOR_PIN (to_bool 0);
      GpioPut IN_TUNE_INDICATOR_PIN (to_bool 1);
      GpioPut HI_PITCH_INDICATOR_PIN (to_bool 0) ].

(** ** [core1_interrupt_handler] (tuner.c, lines 173-254) *)

(** The loop of lines 186-187. *)
Fixpoint octave_up (fuel : nat) (frequency : F32.t) : result F32.t :=
  if F64.ltb (F64.of_float frequency) A3_bottom_range then
    match fuel with
    | O => OutOfFuel
    | S fuel' => octave_up fuel' (fmul frequency (F32.of_Z 2))
    end
  else Ok frequency.

(** The loop of lines 188-189. *)
Fixpoint octave_down (fuel : nat) (frequency : F32.t) : result F32.t :=
  if F64.gtb (F64.of_float frequency) A4_bottom_range then
    match fuel with
    | O => OutOfFuel
    | S fuel' => octave_down fuel' (F32.div frequency (F32.of_Z 2))
    end
  else Ok frequency.

(** [frequency > lo && frequency < hi]. *)
Definition between (frequency : F32.t) (lo hi : F64.t) : bool :=
  F64.gtb (F64.of_float frequency) lo && F64.ltb (F64.of_float frequency) hi.

(** A branch of the chain of lines 192-251; the reference frequency is
    converted to the [float] parameter of [update_leds]. *)
Definition show (note : Z) (frequency : F32.t) (reference : F64.t) : list gpio_event :=
  update_display note ++ update_leds frequency (float_of_double reference).

(** Lines 192-251. *)
Definition show_note (frequency : F32.t) : list gpio_event :=
  if between frequency A3_bottom_range A3_sharp_bottom_range then
    show A_note frequency A3_freq
  else if between frequency A3_sharp_bottom_range B3_bottom_range then
    show A_sharp_note frequency A3_sharp_freq
  else if between frequency B3_bottom_range C3_bottom_range then
    show B_note frequency B3_freq
  else if between frequency C3_bottom_range C3_sharp_bottom_range then
    show C_note frequency C3_freq
  else if between frequency C3_sharp_bottom_range D3_bottom_range then
    show C_sharp_note frequency C3_sharp_freq
  else if between frequency D3_bottom_range D3_sharp_bottom_range then
    show D_note frequency D3_freq
  else if between frequency D3_sharp_bottom_range E3_bottom_range then
    show D_sharp_note frequency D3_sharp_freq
  else if between frequency E3_bottom_range F3_bottom_range then
    show E_note frequency E3_freq
  else if between frequency F3_bottom_range F3_sharp_bottom_range then
    show F_note frequency F3_freq
  else if between frequency F3_sharp_bottom_range G3_bottom_range then
    show F_sharp_note frequency F3_sharp_freq
  else if between frequency G3_bottom_range G3_sharp_bottom_range then
    show G_note frequency G3_freq
  else if between frequency G3_sharp_bottom_range A4_bottom_range then
    show G_sharp_note frequency G3_sharp_freq
  else [].

(** Lines 186-251: what one iteration of the loop of line 175 does with
    the frequency it took from the FIFO. *)
Definition handle_frequency (fuel : nat) (frequency : F32.t) : result (list gpio_event) :=
  match octave_up fuel frequency with
  | Ok raised =>
      match octave_down fuel raised with
      | Ok normalized => Ok (show_note normalized)
      | OutOfBounds => OutOfBounds
      | OutOfFuel => OutOfFuel
      end
  | OutOfBounds => OutOfBounds
  | OutOfFuel => OutOfFuel
  end.

(** The loop of line 175 on the frequencies that the FIFO holds, the
    oldest first: the calls of [gpio_put] that the handler makes. *)
Fixpoint core1_interrupt_handler (fuel : nat) (fifo : list F32.t) : result (list gpio_event) :=
  match fifo with
  | [] => Ok []
  | frequency :: fifo' =>
      match handle_frequency fuel frequency with
      | Ok events =>
          match core1_interrupt_handler fuel fifo' with
          | Ok events' => Ok (events ++ events')
          | OutOfBounds => OutOfBounds
          | OutOfFuel => OutOfFuel
          end
      | OutOfBounds => OutOfBounds
      | OutOfFuel => OutOfFuel
      end
  end.

(** * Specifications

    The predicates, invariants, reference functions and examples in terms
    of which the properties are stated. *)

(** ** Window minima and profile reads *)

(** [m] is the lowest index of [b, b + r) that holds the minimum of
    [array] over that window. *)
Definition first_min (array : list Z) (b r m : Z) : Prop :=
  b <= m < b + r /\
  exists v, get array m = Some v /\
    (forall j w, b <= j < b + r -> get array j = Some w -> v <= w) /\
    (forall j w, b <= j < m -> get array j = Some w -> v < w).

(** The accesses of [tr] are reads of the profile at indices of [lo, hi). *)
Definition profile_reads_in (lo hi : Z) (tr : trace) : Prop :=
  Forall (fun a => exists i, a = Rd Interference i /\ lo <= i < hi) tr.

(** ** The scan of [calculate_peaks] *)

(** One full iteration of the loop of line 20 that goes on to the next
    one: from the variables and trace before the guard is tested to those
    after the increment. *)
Definition scan_step (fuel : nat) (array : list Z) (x y : scan * trace) : Prop :=
  scan_guard (fst x) = true /\
  exists s', calculate_peaks_body fuel array (fst x) (snd x) = (Ok (Continue s'), snd y) /\
             fst y = scan_incr s'.

(** The states in which the loop guard is evaluated during a call
    [calculate_peaks(peaks0, &peak_count0, array)] started with trace [t0]. *)
Definition scan_reaches (fuel : nat) (peaks0 : list Z) (peak_count0 : Z) (array : list Z)
    (t0 : trace) (x : scan * trace) : Prop :=
  exists s0 t1,
    scan_init fuel peaks0 peak_count0 array t0 = (Ok s0, t1) /\
    rtc (scan_step fuel array) (s0, t1) x.

(** The windows: [scan_i] is a multiple of the window width, and the
    previous and current minima are those of the two windows before
    [scan_i + PEAK_SEARCH_RANGE]. *)
Record window_inv (array : list Z) (s : scan) : Prop := {
  inv_i : exists k, 1 <= k <= 82 /\ scan_i s = PEAK_SEARCH_RANGE * k;
  inv_prev :
    first_min array (scan_i s - PEAK_SEARCH_RANGE) PEAK_SEARCH_RANGE (prev_min_index s);
  inv_cur : first_min array (scan_i s) PEAK_SEARCH_RANGE (current_min_index s)
}.

(** What [calculate_peaks] is allowed to access: the profile below
    [SHIFT_LIMIT], for reading, and the first [PEAK_TRACKING_LIMIT] entries
    of [peaks], for writing. *)
Definition scan_access_ok (a : access) : Prop :=
  match a with
  | Rd Interference i => 0 <= i < SHIFT_LIMIT
  | Wr Peaks i _ => 0 <= i < PEAK_TRACKING_LIMIT
  | _ => False
  end.

(** The stores into [peaks] of a trace, as (position, value), in the order
    of execution. *)
Fixpoint peak_writes (tr : trace) : list (Z * Z) :=
  match tr with
  | [] => []
  | Wr Peaks i v :: tr' => peak_writes tr' ++ [(i, v)]
  | _ :: tr' => peak_writes tr'
  end.

(** The elements of a list with their positions [0, 1, ...]. *)
Definition numbered (l : list Z) : list (Z * Z) := imap (fun k v => (Z.of_nat k, v)) l.

(** The peak list [ps] with count [c] after the accesses [tr] of a scan:
    the stores into [peaks] were made at positions [0 .. c - 1] in this
    order, they are the first [c] entries of [ps], and these are strictly
    ascending indices of [PEAK_SEARCH_RANGE, hi). *)
Record peaks_ok (hi cmax : Z) (ps : list Z) (c : Z) (tr : trace) : Prop := {
  ok_count : 0 <= c <= cmax;
  ok_len : length ps = 10%nat;
  ok_acc : Forall scan_access_ok tr;
  ok_writes : peak_writes tr = numbered (take (Z.to_nat c) ps);
  ok_bounds : Forall (fun p => PEAK_SEARCH_RANGE <= p < hi) (take (Z.to_nat c) ps);
  ok_sorted : StronglySorted Z.lt (take (Z.to_nat c) ps)
}.

(** The result of a scan: at most [PEAK_TRACKING_LIMIT] peaks, and when
    the list is full the store of the last peak is the last access. *)
Definition final_ok (ps : list Z) (c : Z) (tr : trace) : Prop :=
  peaks_ok (SHIFT_LIMIT - PEAK_SEARCH_RANGE) PEAK_TRACKING_LIMIT ps c tr /\
  (c = PEAK_TRACKING_LIMIT ->
   exists v tr', tr = Wr Peaks (PEAK_TRACKING_LIMIT - 1) v :: tr').

(** The accesses of any call of [calculate_peaks]: reads of the profile
    below [SHIFT_LIMIT], and stores into [peaks] of indices that are at
    least [PEAK_SEARCH_RANGE]. *)
Definition call_access_ok (a : access) : Prop :=
  match a with
  | Rd b i => b = Interference /\ 0 <= i < SHIFT_LIMIT
  | Wr b _ v => b = Peaks /\ PEAK_SEARCH_RANGE <= v < SHIFT_LIMIT - PEAK_SEARCH_RANGE
  end.

(** ** Examples used to instantiate the theorems *)

(** A profile with a zero at every multiple of 100 and the sentinel
    elsewhere, as a 100-sample periodic signal gives. *)
Definition example_profile : list Z :=
  (fun k => if Z.of_nat k mod 100 =? 0 then 0 else INT_MAX) <$> seq 0 1500.

(** The state and trace in which the loop guard is first evaluated on
    [example_profile]. *)
Definition example_start : scan * trace :=
  match scan_init 15 (replicate 10 0) 0 example_profile [] with
  | (Ok s, t) => (s, t)
  | (_, t) => (Scan 0 0 0 [] 0, t)
  end.


(** ** [calculate_sma] and the smoothing loop *)

Definition sumZ (l : list Z) : Z := foldr Z.add 0 l.

(** The [n] elements of [array] from [index] on. *)
Definition window (array : list Z) (index : Z) (n : Z) : list Z :=
  take (Z.to_nat n) (drop (Z.to_nat index) array).

(** The truncated mean of the [SMA_WIDTH + 1] elements from [index] on. *)
Definition window_mean (array : list Z) (index : Z) : Z :=
  Z.quot (sumZ (window array index (SMA_WIDTH + 1))) (SMA_WIDTH + 1).

(** One iteration of the loop of [calculate_sma] that is followed by
    another evaluation of the guard. *)
Definition sma_step (index : Z) (array : list Z) (x y : (Z * Z) * trace) : Prop :=
  (fst (fst x) <=? SMA_WIDTH) = true /\
  calculate_sma_body index array (fst x) (snd x) = (Ok (fst y), snd y).

(** The invariant of the loop: [sum] is the exact sum of the samples added
    so far. *)
Definition sma_inv (index : Z) (array : list Z) (st : Z * Z) : Prop :=
  0 <= fst st <= SMA_WIDTH + 1 /\ snd st = sumZ (window array index (fst st)).

(** ** [calculate_interference_pwr] *)

(** [|array[k] - array[k + shift]|]. *)
Definition diff_at (array : list Z) (shift k : Z) : Z :=
  match get array k, get array (k + shift) with
  | Some a, Some b => Z.abs (a - b)
  | _, _ => 0
  end.

(** The sum of [|array[k] - array[k + shift]|] over [k] in [0, n). *)
Fixpoint partial_power (array : list Z) (shift : Z) (n : nat) : Z :=
  match n with
  | O => 0
  | S n' => partial_power array shift n' + diff_at array shift (Z.of_nat n')
  end.

(** The accesses of the first [n] iterations of the loop of line 70. *)
Fixpoint pwr_trace (shift : Z) (n : nat) : trace :=
  match n with
  | O => []
  | S n' => Rd Signal (Z.of_nat n' + shift) :: Rd Signal (Z.of_nat n') :: pwr_trace shift n'
  end.

(** ** Binary32 numbers in the normal range *)

(** A positive binary32 number in the normal range: a 24-bit mantissa and
    an exponent of [lo, hi]. *)
Definition normal_pos (lo hi : Z) (x : F32.t) : Prop :=
  exists m e, x = S754_finite false m e /\ Z.pos (digits2_pos m) = 24 /\ lo <= e <= hi.

Definition normal_posb (lo hi : Z) (x : F32.t) : bool :=
  match x with
  | S754_finite false m e => (Z.pos (digits2_pos m) =? 24) && (lo <=? e) && (e <=? hi)
  | _ => false
  end.

(** ** [calculate_avg_wavelength] *)

(** A peak shift divided by its rank, in binary32. *)
Definition rank_normalized (p r : Z) : F32.t := F32.div (F32.of_Z p) (F32.of_Z r).

(** The sum over the ranks [r = 1 .. length ps] of [ps[r - 1] / r], added in
    scan order, in binary32. *)
Definition rank_normalized_sum (ps : list Z) : F32.t :=
  foldl F32.add (F32.of_Z 0) (imap (fun k p => rank_normalized p (Z.of_nat k + 1)) ps).

(** The average wavelength of the first [n] peaks of [ps]. *)
Definition avg_wavelength_value (ps : list Z) (n : Z) : F32.t :=
  if n =? 0 then F32.of_Z DEFAULT_VAL
  else F32.div (rank_normalized_sum (take (Z.to_nat n) ps)) (F32.of_Z n).

(** ** The values of the interference profile *)

(** What [calculate_interference_pwr] returns, as a function of the signal
    and the shift. *)
Definition interference_value (array : list Z) (shift : Z) : Z :=
  let N := Z.to_nat (NUM_SAMPLES - shift) in
  if forallb (fun n => partial_power array shift n <=? INTERFERENCE_THRESHOLD) (seq 0 (S N))
  then partial_power array shift N
  else INT_MAX.

(** ** A signal used to instantiate the theorems *)

(** A saw-tooth signal of period 100. *)
Definition example_signal : list Z := (fun k => Z.of_nat k mod 100 * 2) <$> seq 0 1500.

(** ** Peaks at the multiples of a period *)

(** The shifts [P, 2 * P, ..., n * P]. *)
Definition harmonics (P : Z) (n : nat) : list Z :=
  (fun k => P * (Z.of_nat k + 1)) <$> seq 0 n.

(** Equality of two finite binary32 numbers. *)
Definition same_finite (x y : F32.t) : bool :=
  match x, y with
  | S754_finite s m e, S754_finite s' m' e' =>
      Bool.eqb s s' && (Z.pos m =? Z.pos m') && (e =? e')
  | _, _ => false
  end.

(** ** Spacing and frame of the recorded peaks *)

(** Consecutive entries are more than [PEAK_SEARCH_RANGE] apart. *)
Definition spaced (l : list Z) : Prop :=
  StronglySorted (fun a b => a + PEAK_SEARCH_RANGE < b) l.

(** The previous window minimum is not above the current one, so that the
    test of line 24 fails. *)
Definition blocked (array : list Z) (s : scan) : Prop :=
  exists vp vc,
    get array (prev_min_index s) = Some vp /\
    get array (current_min_index s) = Some vc /\ vp <= vc.

(** A peak list [ps] with count [c] that a scan made from [peaks0]: the
    entries from position [c] on are those of [peaks0], and the recorded
    peaks are spaced and at least [lo]. *)
Record spacing_final (lo : Z) (peaks0 ps : list Z) (c : Z) : Prop := {
  sf_frame : forall j, c <= j -> get ps j = get peaks0 j;
  sf_spaced : spaced (take (Z.to_nat c) ps);
  sf_low : Forall (fun p => lo <= p) (take (Z.to_nat c) ps)
}.

(** The invariant of the scan behind it: the recorded peaks are more than
    a window before [scan_i], or in the window just before it, which is
    then the one of the previous minimum, and the test of line 24 is
    blocked. *)
Record spacing_inv (lo : Z) (peaks0 array : list Z) (s : scan) : Prop := {
  sp_final : spacing_final lo peaks0 (peaks s) (peak_count s);
  sp_last :
    Forall (fun p => p + PEAK_SEARCH_RANGE < scan_i s)
      (take (Z.to_nat (peak_count s)) (peaks s)) \/
    blocked array s /\
    Forall (fun p => p < scan_i s) (take (Z.to_nat (peak_count s)) (peaks s));
  sp_lo : lo <= scan_i s \/ blocked array s
}.

(** ** Runs that differ in memory the code does not read *)

(** Two results of the same kind, with related values. *)
Definition result_rel {A B} (R : A -> B -> Prop) (x : result A) (y : result B) : Prop :=
  match x, y with
  | Ok a, Ok b => R a b
  | OutOfBounds, OutOfBounds => True
  | OutOfFuel, OutOfFuel => True
  | _, _ => False
  end.

(** Two computations that end in the same way with related values, from
    whatever traces they start. *)
Definition sim {A B} (R : A -> B -> Prop) (m : M A) (m' : M B) : Prop :=
  forall t t', result_rel R (fst (m t)) (fst (m' t')).

(** Two peak lists of the same capacity with the same count and the same
    recorded peaks. *)
Definition same_peaks (x y : list Z * Z) : Prop :=
  snd x = snd y /\ 0 <= snd x /\ length (fst x) = length (fst y) /\
  take (Z.to_nat (snd x)) (fst x) = take (Z.to_nat (snd y)) (fst y).

(** Two states of the scan that differ in the unused entries of [peaks]
    only. *)
Definition scan_rel (s s' : scan) : Prop :=
  scan_i s = scan_i s' /\ prev_min_index s = prev_min_index s' /\
  current_min_index s = current_min_index s' /\
  same_peaks (peaks s, peak_count s) (peaks s', peak_count s').

Definition flow_rel {S} (R : S -> S -> Prop) (f f' : flow S) : Prop :=
  match f, f' with
  | Continue s, Continue s' => R s s'
  | Break s, Break s' => R s s'
  | Return s, Return s' => R s s'
  | _, _ => False
  end.

(** ** The output of core 1 *)

(** The level that the calls [events] leave on [pin], if one of them sets
    it. *)
Definition pin_level (events : list gpio_event) (pin : Z) : option bool :=
  foldl (fun level ev => match ev with GpioPut p v => if p =? pin then Some v else level end)
    None events.

(** The pin that a call sets. *)
Definition event_pin (ev : gpio_event) : Z := match ev with GpioPut pin _ => pin end.

(** The segment pins, from segment A, which is bit 7 of a note, to the dot,
    which is bit 0. *)
Definition segment_pins : list Z :=
  [SEGMENT_A_PIN; SEGMENT_B_PIN; SEGMENT_C_PIN; SEGMENT_D_PIN;
   SEGMENT_E_PIN; SEGMENT_F_PIN; SEGMENT_G_PIN; SEGMENT_DP_PIN].

(** The byte that the levels of the segment pins spell, when all of them
    are set. *)
Definition display_byte (events : list gpio_event) : option Z :=
  foldl (fun byte pin =>
           match byte, pin_level events pin with
           | Some b, Some v => Some (2 * b + Z.b2z v)
           | _, _ => None
           end)
    (Some 0) segment_pins.

(** The three indicator levels: low pitch, in tune, high pitch. *)
Definition led_levels (events : list gpio_event) : option bool * option bool * option bool :=
  (pin_level events LOW_PITCH_INDICATOR_PIN,
   pin_level events IN_TUNE_INDICATOR_PIN,
   pin_level events HI_PITCH_INDICATOR_PIN).

(** A positive [float] in the normal range. *)
Definition normal_float (x : F32.t) : Prop := normal_pos (-149) 104 x.

(** The octave in which the loops of lines 186-189 leave a normal positive
    frequency of mantissa [m]: the one with exponent -15, the numbers of
    [256, 512), unless that is above [A4_bottom_range], and the one below
    otherwise. *)
Definition normalized (m : positive) : F32.t :=
  if F64.gtb (F64.of_float (S754_finite false m (-15))) A4_bottom_range
  then S754_finite false m (-16)
  else S754_finite false m (-15).

(** The notes of the chain of lines 192-251 in its order: the bounds of
    the range, the segment pattern and the reference frequency. *)
Definition note_table : list (F64.t * F64.t * Z * F64.t) :=
  [ (A3_bottom_range, A3_sharp_bottom_range, A_note, A3_freq);
    (A3_sharp_bottom_range, B3_bottom_range, A_sharp_note, A3_sharp_freq);
    (B3_bottom_range, C3_bottom_range, B_note, B3_freq);
    (C3_bottom_range, C3_sharp_bottom_range, C_note, C3_freq);
    (C3_sharp_bottom_range, D3_bottom_range, C_sharp_note, C3_sharp_freq);
    (D3_bottom_range, D3_sharp_bottom_range, D_note, D3_freq);
    (D3_sharp_bottom_range, E3_bottom_range, D_sharp_note, D3_sharp_freq);
    (E3_bottom_range, F3_bottom_range, E_note, E3_freq);
    (F3_bottom_range, F3_sharp_bottom_range, F_note, F3_freq);
    (F3_sharp_bottom_range, G3_bottom_range, F_sharp_note, F3_sharp_freq);
    (G3_bottom_range, G3_sharp_bottom_range, G_note, G3_freq);
    (G3_sharp_bottom_range, A4_bottom_range, G_sharp_note, G3_sharp_freq) ].

(** ** The peaks as a function of the profile *)

(** The lowest index that holds the minimum of [array] over the [n]
    elements from index [b] on. *)
Fixpoint lowest_min (array : list Z) (b : Z) (n : nat) : Z :=
  match n with
  | O => b
  | S n' =>
      let m := lowest_min array b n' in
      match get array (b + Z.of_nat n'), get array m with
      | Some a, Some v => if a <? v then b + Z.of_nat n' else m
      | _, _ => m
      end
  end.

(** The minimum of the window [j], the shifts
    [PEAK_SEARCH_RANGE * j .. PEAK_SEARCH_RANGE * j + 14], and its value. *)
Definition window_min (array : list Z) (j : Z) : Z :=
  lowest_min array (PEAK_SEARCH_RANGE * j) (Z.to_nat PEAK_SEARCH_RANGE).

Definition window_min_value (array : list Z) (j : Z) : Z :=
  default 0 (get array (window_min array j)).

(** The minimum of window [j] is strictly below those of the windows
    before and after it. *)
Definition is_dip_window (array : list Z) (j : Z) : bool :=
  (window_min_value array j <? window_min_value array (j - 1)) &&
  (window_min_value array j <? window_min_value array (j + 1)).

(** The minima of the windows [1 .. n] that are such dips, in ascending
    order. *)
Fixpoint dips (array : list Z) (n : nat) : list Z :=
  match n with
  | O => []
  | S n' =>
      dips array n' ++
      (if is_dip_window array (Z.of_nat n) then [window_min array (Z.of_nat n)] else [])
  end.

(** The peak list [ps] with count [c] holds the first
    [PEAK_TRACKING_LIMIT] dips of the windows that the scan examines, the
    windows 1 to 81. *)
Definition dips_final (array ps : list Z) (c : Z) : Prop :=
  take (Z.to_nat c) ps = take 10 (dips array 81) /\
  c = Z.of_nat (length (take 10 (dips array 81))).

(** The invariant of the scan: the list holds the dips of the windows
    before the current one. *)
Definition dips_inv (array : list Z) (s : scan) : Prop :=
  exists n : nat,
    scan_i s = PEAK_SEARCH_RANGE * (Z.of_nat n + 1) /\
    take (Z.to_nat (peak_count s)) (peaks s) = dips array n /\
    peak_count s = Z.of_nat (length (dips array n)).

(** ** Candidates *)

(** [p] is a candidate of window [j]: the lowest index that holds the
    minimum of the window, with a value strictly below the minimum of the
    window before and the minimum of the window after. *)
Definition strict_candidate (array : list Z) (j p : Z) : Prop :=
  exists m' m'' v' v v'',
    first_min array (PEAK_SEARCH_RANGE * (j - 1)) PEAK_SEARCH_RANGE m' /\
    first_min array (PEAK_SEARCH_RANGE * j) PEAK_SEARCH_RANGE p /\
    first_min array (PEAK_SEARCH_RANGE * (j + 1)) PEAK_SEARCH_RANGE m'' /\
    get array m' = Some v' /\ get array p = Some v /\ get array m'' = Some v'' /\
    v < v' /\ v < v''.

(** The minimum of window [j] is not below the minimum of the window
    before, or not below the minimum of the window after. *)
Definition tied_window (array : list Z) (j : Z) : Prop :=
  exists m' m m'' v' v v'',
    first_min array (PEAK_SEARCH_RANGE * (j - 1)) PEAK_SEARCH_RANGE m' /\
    first_min array (PEAK_SEARCH_RANGE * j) PEAK_SEARCH_RANGE m /\
    first_min array (PEAK_SEARCH_RANGE * (j + 1)) PEAK_SEARCH_RANGE m'' /\
    get array m' = Some v' /\ get array m = Some v /\ get array m'' = Some v'' /\
    (v' <= v \/ v'' <= v).

(** * Properties *)

(** ** Machine integers, array accesses and the monad *)

Lemma u8_small x : 0 <= x < 256 -> u8 x = x.
Proof. intros H. unfold u8. apply Z.mod_small. lia. Qed.

Lemma u16_small x : 0 <= x < 65536 -> u16 x = x.
Proof. intros H. unfold u16. apply Z.mod_small. lia. Qed.

Lemma i32_small x : -2147483648 <= x < 2147483648 -> i32 x = x.
Proof. intros H. unfold i32. rewrite Z.mod_small; lia. Qed.

Lemma get_Some_lt (a : list Z) i v :
  get a i = Some v -> 0 <= i < Z.of_nat (length a).
Proof.
  unfold get. destruct (Z.ltb_spec i 0) as [Hneg|Hpos]; [discriminate|].
  intros Hl%lookup_lt_Some. lia.
Qed.

Lemma get_lt_Some (a : list Z) i :
  0 <= i < Z.of_nat (length a) -> exists v, get a i = Some v.
Proof.
  intros H. unfold get. destruct (Z.ltb_spec i 0); [lia|].
  destruct (lookup_lt_is_Some_2 a (Z.to_nat i)) as [v Hv]; [lia|eauto].
Qed.

Lemma get_replicate n (x : Z) i :
  0 <= i < Z.of_nat n -> get (replicate n x) i = Some x.
Proof.
  intros H. unfold get. destruct (Z.ltb_spec i 0); [lia|].
  apply lookup_replicate_2. lia.
Qed.

Lemma get_insert_eq (a : list Z) i v :
  0 <= i < Z.of_nat (length a) -> get (<[Z.to_nat i := v]> a) i = Some v.
Proof.
  intros H. unfold get. destruct (Z.ltb_spec i 0); [lia|].
  apply list_lookup_insert_eq. lia.
Qed.

Lemma get_insert_ne (a : list Z) i j v :
  0 <= i -> i <> j -> get (<[Z.to_nat i := v]> a) j = get a j.
Proof.
  intros Hi Hne. unfold get. destruct (Z.ltb_spec j 0); [done|].
  apply list_lookup_insert_ne. lia.
Qed.

Lemma get_app_l (a b : list Z) i :
  i < Z.of_nat (length a) -> get (a ++ b) i = get a i.
Proof.
  intros H. unfold get. destruct (Z.ltb_spec i 0); [done|].
  apply lookup_app_l. lia.
Qed.

Lemma bind_Ok {A B} (m : M A) (k : A -> M B) t a t' :
  m t = (Ok a, t') -> bind m k t = k a t'.
Proof. intros H. unfold bind. by rewrite H. Qed.

Lemma read_Ok b a i v t : get a i = Some v -> read b a i t = (Ok v, Rd b i :: t).
Proof. intros H. unfold read. by rewrite H. Qed.

Lemma write_Ok b a i v t :
  0 <= i < Z.of_nat (length a) ->
  write b a i v t = (Ok (<[Z.to_nat i := v]> a), Wr b i v :: t).
Proof.
  intros H. unfold write.
  destruct (Z.leb_spec 0 i); [|lia]. destruct (Z.ltb_spec i (Z.of_nat (length a))); [done|lia].
Qed.

(** ** [min_in_range] returns the first minimum of its window *)

Lemma first_min_unique array b r m m' :
  first_min array b r m -> first_min array b r m' -> m = m'.
Proof.
  intros [Hm (v & Hv & Hle & Hlt)] [Hm' (v' & Hv' & Hle' & Hlt')].
  destruct (Z.lt_trichotomy m m') as [H|[H|H]]; [|done|].
  - specialize (Hlt' m v ltac:(lia) Hv). specialize (Hle m' v' ltac:(lia) Hv'). lia.
  - specialize (Hlt m' v' ltac:(lia) Hv'). specialize (Hle' m v ltac:(lia) Hv). lia.
Qed.

Lemma min_in_range_loop_spec fuel array b r i m t :
  0 <= b -> 0 < r -> b + r <= Z.of_nat (length array) -> b + r < 65536 ->
  0 <= i <= r -> (r - i <= Z.of_nat fuel) ->
  (i = 0 /\ m = b \/ 0 < i /\ first_min array b i m) ->
  exists m' tr,
    min_in_range_loop fuel array b r i m t = (Ok m', tr ++ t) /\
    first_min array b r m' /\ profile_reads_in b (b + r) tr.
Proof.
  intros Hb Hr Hlen H16.
  revert i m t. induction fuel as [|fuel IH]; intros i m t Hi Hfuel Hinv.
  - assert (i = r) as -> by lia. simpl. rewrite Z.ltb_irrefl.
    exists m, []. split; [done|]. split; [|constructor].
    destruct Hinv as [[-> _]|[_ ?]]; [lia|done].
  - simpl. destruct (Z.ltb_spec i r) as [Hlt|Hge].
    + assert (b <= m <= b + i /\ exists vm, get array m = Some vm) as [Hm [vm Hvm]].
      { destruct Hinv as [[-> ->]|[_ [? (v & ? & _)]]].
        - split; [lia|]. apply get_lt_Some. lia.
        - split; [lia|eauto]. }
      destruct (get_lt_Some array (b + i)) as [va Hva]; [lia|].
      rewrite (bind_Ok _ _ _ _ _ (read_Ok _ _ _ _ _ Hva)).
      rewrite (bind_Ok _ _ _ _ _ (read_Ok _ _ _ _ _ Hvm)).
      rewrite (u16_small (i + 1)) by lia. rewrite (u16_small (b + i)) by lia.
      edestruct (IH (i + 1) (if va <? vm then b + i else m)) as (m' & tr & Heq & Hmin & Htr);
        [lia|lia| |].
      * right. split; [lia|].
        destruct Hinv as [[-> ->]|[Hi0 [Hm' (v & Hv & Hle & Hlts)]]].
        -- rewrite Z.add_0_r in *. assert (va = vm) as -> by congruence.
           rewrite Z.ltb_irrefl. split; [lia|]. exists vm. split; [done|].
           split; intros j w Hj Hw.
           ++ assert (j = b) as -> by lia. assert (w = vm) by congruence. lia.
           ++ lia.
        -- assert (v = vm) as -> by congruence.
           destruct (Z.ltb_spec va vm) as [Hlow|Hhigh].
           ++ split; [lia|]. exists va. split; [done|]. split; intros j w Hj Hw.
              ** destruct (Z.eq_dec j (b + i)) as [->|Hne].
                 --- assert (w = va) by congruence. lia.
                 --- specialize (Hle j w ltac:(lia) Hw). lia.
              ** specialize (Hle j w ltac:(lia) Hw). lia.
           ++ split; [lia|]. exists vm. split; [done|]. split; intros j w Hj Hw.
              ** destruct (Z.eq_dec j (b + i)) as [->|Hne].
                 --- assert (w = va) by congruence. lia.
                 --- apply (Hle j w); [lia|done].
              ** apply (Hlts j w); [lia|done].
      * exists m', (tr ++ [Rd Interference m; Rd Interference (b + i)]).
        split; [|split; [done|]].
        -- rewrite Heq. by rewrite <- app_assoc.
        -- apply Forall_app. split; [done|].
           repeat constructor; eexists; (split; [reflexivity|lia]).
    + assert (i = r) as -> by lia. exists m, []. split; [done|]. split; [|constructor].
      destruct Hinv as [[-> _]|[_ ?]]; [lia|done].
Qed.

Lemma min_in_range_spec fuel array b r t :
  0 <= b -> 0 < r -> b + r <= Z.of_nat (length array) -> b + r < 65536 ->
  r <= Z.of_nat fuel ->
  exists m tr,
    min_in_range fuel array b r t = (Ok m, tr ++ t) /\
    first_min array b r m /\ profile_reads_in b (b + r) tr.
Proof.
  intros. unfold min_in_range. apply min_in_range_loop_spec; lia.
Qed.

(** ** The scan of [calculate_peaks] *)

Lemma profile_reads_in_weaken lo hi lo' hi' tr :
  lo' <= lo -> hi <= hi' -> profile_reads_in lo hi tr -> profile_reads_in lo' hi' tr.
Proof.
  intros Hlo Hhi Htr. unfold profile_reads_in. eapply Forall_impl; [exact Htr|].
  intros a (i & -> & Hi). exists i. split; [done|lia].
Qed.

Lemma first_min_get array b r m :
  first_min array b r m -> exists v, get array m = Some v.
Proof. intros [_ (v & Hv & _)]. eauto. Qed.

Lemma next_window fuel array s t :
  (15 <= fuel)%nat -> SHIFT_LIMIT <= Z.of_nat (length array) ->
  window_inv array s -> scan_guard s = true ->
  exists next tr,
    min_in_range fuel array (u16 (scan_i s + PEAK_SEARCH_RANGE)) PEAK_SEARCH_RANGE t
      = (Ok next, tr ++ t) /\
    first_min array (scan_i s + PEAK_SEARCH_RANGE) PEAK_SEARCH_RANGE next /\
    profile_reads_in 0 SHIFT_LIMIT tr.
Proof.
  intros Hfuel Hlen [(k & Hk & Hi) _ _] Hg.
  unfold scan_guard, SHIFT_LIMIT, PEAK_SEARCH_RANGE in *. apply Z.ltb_lt in Hg.
  rewrite u16_small by lia.
  destruct (min_in_range_spec fuel array (scan_i s + 15) 15 t) as (m & tr & Heq & Hmin & Htr);
    try lia.
  exists m, tr. split; [done|]. split; [done|].
  eapply profile_reads_in_weaken; [| |exact Htr]; lia.
Qed.

Lemma is_local_dip_spec array prev cur next vp vc vn t :
  get array prev = Some vp -> get array cur = Some vc -> get array next = Some vn ->
  exists tr,
    is_local_dip array prev cur next t = (Ok ((vc <? vp) && (vc <? vn)), tr ++ t) /\
    Forall (fun a => a = Rd Interference prev \/ a = Rd Interference cur \/
                     a = Rd Interference next) tr.
Proof.
  intros Hp Hc Hn. unfold is_local_dip.
  rewrite (bind_Ok _ _ _ _ _ (read_Ok _ _ _ _ _ Hp)).
  rewrite (bind_Ok _ _ _ _ _ (read_Ok _ _ _ _ _ Hc)).
  rewrite Z.gtb_ltb. destruct (Z.ltb_spec vc vp).
  - rewrite (bind_Ok _ _ _ _ _ (read_Ok _ _ _ _ _ Hn)).
    rewrite (bind_Ok _ _ _ _ _ (read_Ok _ _ _ _ _ Hc)).
    rewrite Z.gtb_ltb.
    exists [Rd Interference cur; Rd Interference next; Rd Interference cur; Rd Interference prev].
    split; [done|]. repeat (apply Forall_cons; split; [tauto|]). by apply Forall_nil.
  - exists [Rd Interference cur; Rd Interference prev].
    split; [done|]. repeat (apply Forall_cons; split; [tauto|]). by apply Forall_nil.
Qed.

Lemma predecessor_is_lower_spec array cur vq vc t :
  0 < cur -> get array (cur - 1) = Some vq -> get array cur = Some vc ->
  predecessor_is_lower array cur t
    = (Ok (vq <? vc), Rd Interference cur :: Rd Interference (cur - 1) :: t).
Proof.
  intros Hpos Hq Hc. unfold predecessor_is_lower.
  destruct (Z.gtb_spec cur 0); [|lia].
  rewrite (bind_Ok _ _ _ _ _ (read_Ok _ _ _ _ _ Hq)).
  by rewrite (bind_Ok _ _ _ _ _ (read_Ok _ _ _ _ _ Hc)).
Qed.

Lemma peak_writes_app tr1 tr2 :
  peak_writes (tr1 ++ tr2) = peak_writes tr2 ++ peak_writes tr1.
Proof.
  induction tr1 as [|a tr1 IH]; simpl.
  - by rewrite app_nil_r.
  - destruct a as [b i|b i v]; [done|]. destruct b; try done.
    by rewrite IH, app_assoc.
Qed.

Lemma peak_writes_reads lo hi tr : profile_reads_in lo hi tr -> peak_writes tr = [].
Proof.
  induction 1 as [|a tr (i & -> & _) _ IH]; [done|]. done.
Qed.

Lemma scan_access_ok_reads tr :
  profile_reads_in 0 SHIFT_LIMIT tr -> Forall scan_access_ok tr.
Proof.
  intros H. eapply Forall_impl; [exact H|]. by intros a (i & -> & Hi).
Qed.

Lemma peaks_ok_weaken hi cmax hi' cmax' ps c tr :
  hi <= hi' -> c <= cmax' -> peaks_ok hi cmax ps c tr -> peaks_ok hi' cmax' ps c tr.
Proof.
  intros Hhi Hc [H1 H2 H3 H4 H5 H6]. split; try done; [lia|].
  eapply Forall_impl; [exact H5|]. simpl. intros; lia.
Qed.

Lemma peaks_ok_reads hi cmax ps c tr tr1 :
  profile_reads_in 0 SHIFT_LIMIT tr1 ->
  peaks_ok hi cmax ps c tr -> peaks_ok hi cmax ps c (tr1 ++ tr).
Proof.
  intros Hrd [H1 H2 H3 H4 H5 H6]. split; try done.
  - apply Forall_app. split; [by apply scan_access_ok_reads|done].
  - rewrite peak_writes_app, (peak_writes_reads _ _ _ Hrd). by rewrite app_nil_r.
Qed.

Lemma numbered_snoc l v : numbered (l ++ [v]) = numbered l ++ [(Z.of_nat (length l), v)].
Proof.
  unfold numbered. rewrite imap_app. simpl. by rewrite Nat.add_0_r.
Qed.

Lemma peaks_ok_append hi hi' ps c v tr :
  peaks_ok hi 9 ps c tr -> hi <= v < hi' -> PEAK_SEARCH_RANGE <= v ->
  peaks_ok hi' 10 (<[Z.to_nat c := v]> ps) (c + 1) (Wr Peaks c v :: tr).
Proof.
  intros [H1 H2 H3 H4 H5 H6] Hv Hv'.
  assert (take (Z.to_nat (c + 1)) (<[Z.to_nat c := v]> ps) = take (Z.to_nat c) ps ++ [v]) as Htake.
  { replace (Z.to_nat (c + 1)) with (S (Z.to_nat c)) by lia.
    rewrite (take_S_r _ _ v) by (apply list_lookup_insert_eq; lia).
    by rewrite take_insert_ge by lia. }
  split.
  - lia.
  - by rewrite length_insert.
  - apply Forall_cons. split; [simpl; unfold PEAK_TRACKING_LIMIT; lia|done].
  - simpl. rewrite Htake, numbered_snoc, H4. do 3 f_equal.
    rewrite length_take. lia.
  - rewrite Htake. apply Forall_app. split.
    + eapply Forall_impl; [exact H5|]. simpl. intros; lia.
    + apply Forall_cons. split; [lia|by apply Forall_nil].
  - rewrite Htake. apply StronglySorted_app_2; [|done|repeat constructor].
    intros x1 x2 Hx1 ->%list_elem_of_singleton.
    rewrite Forall_forall in H5. specialize (H5 _ Hx1). simpl in H5. lia.
Qed.

Lemma window_inv_ext array s s' :
  scan_i s = scan_i s' -> prev_min_index s = prev_min_index s' ->
  current_min_index s = current_min_index s' ->
  window_inv array s -> window_inv array s'.
Proof. intros Hi Hp Hc [H1 H2 H3]. split; by rewrite <- ?Hi, <- ?Hp, <- ?Hc. Qed.

Lemma reads_of_three lo hi prev cur next tr :
  lo <= prev < hi -> lo <= cur < hi -> lo <= next < hi ->
  Forall (fun a => a = Rd Interference prev \/ a = Rd Interference cur \/
                   a = Rd Interference next) tr ->
  profile_reads_in lo hi tr.
Proof.
  intros Hp Hc Hn Htr. eapply Forall_impl; [exact Htr|].
  intros a [ -> | [ -> | -> ] ]; eexists; (split; [reflexivity|lia]).
Qed.

(** What one iteration does, in terms of the values of the profile at the
    three window minima and before the current one. *)
Lemma calculate_peaks_body_eq fuel array s t :
  (15 <= fuel)%nat -> SHIFT_LIMIT <= Z.of_nat (length array) ->
  window_inv array s -> scan_guard s = true ->
  exists next vp vc vn vq tr1 tr2,
    min_in_range fuel array (u16 (scan_i s + PEAK_SEARCH_RANGE)) PEAK_SEARCH_RANGE t
      = (Ok next, tr1 ++ t) /\
    first_min array (scan_i s + PEAK_SEARCH_RANGE) PEAK_SEARCH_RANGE next /\
    get array (prev_min_index s) = Some vp /\
    get array (current_min_index s) = Some vc /\
    get array next = Some vn /\
    get array (current_min_index s - 1) = Some vq /\
    is_local_dip array (prev_min_index s) (current_min_index s) next (tr1 ++ t)
      = (Ok ((vc <? vp) && (vc <? vn)), tr2 ++ tr1 ++ t) /\
    profile_reads_in 0 SHIFT_LIMIT tr1 /\ profile_reads_in 0 SHIFT_LIMIT tr2 /\
    calculate_peaks_body fuel array s t =
      if (vc <? vp) && (vc <? vn) then
        let t' := Rd Interference (current_min_index s)
                  :: Rd Interference (current_min_index s - 1) :: tr2 ++ tr1 ++ t in
        if vq <? vc then (Ok (Break s), t') else append_peak array s next t'
      else (Ok (Continue (slide s next)), tr2 ++ tr1 ++ t).
Proof.
  intros Hfuel Hlen Hwin Hg.
  destruct (next_window fuel array s t Hfuel Hlen Hwin Hg)
    as (next & tr1 & Hmin & Hnext & Hrd1).
  destruct Hwin as [(k & Hk & Hi) Hprev Hcur].
  pose proof Hg as Hg'. unfold scan_guard in Hg'. apply Z.ltb_lt in Hg'.
  unfold SHIFT_LIMIT, PEAK_SEARCH_RANGE in *.
  destruct (first_min_get _ _ _ _ Hprev) as [vp Hvp].
  destruct (first_min_get _ _ _ _ Hcur) as [vc Hvc].
  destruct (first_min_get _ _ _ _ Hnext) as [vn Hvn].
  pose proof (proj1 Hprev) as Bp. pose proof (proj1 Hcur) as Bc.
  pose proof (proj1 Hnext) as Bn.
  destruct (is_local_dip_spec array _ _ _ vp vc vn (tr1 ++ t) Hvp Hvc Hvn)
    as (tr2 & Hdip & Hrd2).
  apply (reads_of_three 0 1250) in Hrd2; [|lia..].
  destruct (get_lt_Some array (current_min_index s - 1)) as [vq Hvq]; [lia|].
  exists next, vp, vc, vn, vq, tr1, tr2. do 9 (split; [done|]).
  unfold calculate_peaks_body, PEAK_SEARCH_RANGE.
  rewrite (bind_Ok _ _ _ _ _ Hmin), (bind_Ok _ _ _ _ _ Hdip).
  destruct ((vc <? vp) && (vc <? vn)); [|done].
  unfold handle_candidate.
  rewrite (bind_Ok _ _ _ _ _
             (predecessor_is_lower_spec array (current_min_index s) vq vc _
                ltac:(lia) Hvq Hvc)).
  by destruct (vq <? vc).
Qed.

(** The outcomes of [append_peak]: a fault, or the candidate stored at
    position [peak_count]. *)
Lemma append_peak_cases array s next vc t :
  get array (current_min_index s) = Some vc ->
  let t' := Wr Peaks (u8 (peak_count s + 1) - 1) (current_min_index s)
            :: Rd Interference (current_min_index s) :: t in
  append_peak array s next t = (OutOfBounds, t') \/
  exists s',
    scan_i s' = scan_i s /\ prev_min_index s' = prev_min_index s /\
    current_min_index s' = current_min_index s /\
    peaks s' = <[Z.to_nat (u8 (peak_count s + 1) - 1) := current_min_index s]> (peaks s) /\
    peak_count s' = u8 (peak_count s + 1) /\
    append_peak array s next t =
      (Ok (if peak_count s' >=? PEAK_TRACKING_LIMIT then Return s'
           else Continue (slide s' next)), t').
Proof.
  intros Hvc. unfold append_peak. rewrite (bind_Ok _ _ _ _ _ (read_Ok _ _ _ _ _ Hvc)).
  unfold bind, write.
  destruct ((0 <=? u8 (peak_count s + 1) - 1) &&
            (u8 (peak_count s + 1) - 1 <? Z.of_nat (length (peaks s)))).
  - right. eexists (Scan _ _ _ _ _). simpl. do 5 (split; [reflexivity|]).
    by destruct (u8 (peak_count s + 1) >=? PEAK_TRACKING_LIMIT).
  - by left.
Qed.

Lemma calculate_peaks_body_inv fuel array s tr t0 :
  (15 <= fuel)%nat -> SHIFT_LIMIT <= Z.of_nat (length array) ->
  window_inv array s -> scan_guard s = true ->
  peaks_ok (scan_i s) 9 (peaks s) (peak_count s) tr ->
  exists fl tr',
    calculate_peaks_body fuel array s (tr ++ t0) = (Ok fl, tr' ++ t0) /\
    match fl with
    | Continue s' =>
        scan_i s' = scan_i s /\
        window_inv array (scan_incr s') /\
        peaks_ok (scan_i (scan_incr s')) 9 (peaks s') (peak_count s') tr'
    | Break s' | Return s' => final_ok (peaks s') (peak_count s') tr'
    end.
Proof.
  intros Hfuel Hlen Hwin Hg Hok.
  destruct (calculate_peaks_body_eq fuel array s (tr ++ t0) Hfuel Hlen Hwin Hg)
    as (next & vp & vc & vn & vq & tr1 & tr2 & _ & Hnext & _ & Hvc & _ & _ & _ &
        Hrd1 & Hrd2 & ->).
  destruct Hwin as [(k & Hk & Hi) Hprev Hcur].
  pose proof Hg as Hg'. unfold scan_guard in Hg'. apply Z.ltb_lt in Hg'.
  pose proof (proj1 Hcur) as Bc.
  assert (u16 (scan_i s + 15) = scan_i s + 15) as Hu16.
  { unfold SHIFT_LIMIT, PEAK_SEARCH_RANGE in *. apply u16_small; lia. }
  assert (window_inv array (scan_incr (slide s next))) as Hwin'.
  { split; simpl; unfold PEAK_SEARCH_RANGE in *; rewrite Hu16.
    - exists (k + 1). unfold SHIFT_LIMIT in *. lia.
    - by replace (scan_i s + 15 - 15) with (scan_i s) by lia.
    - done. }
  unfold final_ok, SHIFT_LIMIT, PEAK_TRACKING_LIMIT, PEAK_SEARCH_RANGE in *.
  pose proof (ok_count _ _ _ _ _ Hok) as Hc. pose proof (ok_len _ _ _ _ _ Hok) as Hl.
  destruct ((vc <? vp) && (vc <? vn)); simpl.
  - (* a candidate *)
    set (rd3 := [Rd Interference (current_min_index s);
                 Rd Interference (current_min_index s - 1)]).
    assert (profile_reads_in 0 1250 rd3) as Hrd3.
    { repeat (apply Forall_cons; split; [eexists; (split; [reflexivity|lia])|]).
      by apply Forall_nil. }
    assert (peaks_ok (scan_i s) 9 (peaks s) (peak_count s) (rd3 ++ tr2 ++ tr1 ++ tr))
      as Hok' by (by repeat apply peaks_ok_reads).
    destruct (vq <? vc).
    + exists (Break s), (rd3 ++ tr2 ++ tr1 ++ tr). split.
      { simpl. by rewrite <- !app_assoc. }
      split; [|intros ?; lia].
      eapply peaks_ok_weaken; [| |exact Hok']; lia.
    + destruct (append_peak_cases array s next vc
                  (Rd Interference (current_min_index s)
                   :: Rd Interference (current_min_index s - 1) :: tr2 ++ tr1 ++ tr ++ t0) Hvc)
        as [Hbad|(s' & Hi' & Hp' & Hc' & Hps' & Hn' & ->)].
      { unfold append_peak in Hbad. rewrite (u8_small (peak_count s + 1)) in Hbad by lia.
        rewrite (bind_Ok _ _ _ _ _ (read_Ok _ _ _ _ _ Hvc)) in Hbad.
        rewrite (bind_Ok _ _ _ _ _
                   (write_Ok Peaks (peaks s) (peak_count s + 1 - 1) (current_min_index s) _
                      ltac:(lia))) in Hbad.
        by destruct (peak_count s + 1 >=? PEAK_TRACKING_LIMIT). }
      rewrite (u8_small (peak_count s + 1)) in * by lia.
      replace (peak_count s + 1 - 1) with (peak_count s) in * by lia.
      assert (peaks_ok (scan_i s) 9 (peaks s) (peak_count s)
                ([Rd Interference (current_min_index s)] ++ rd3 ++ tr2 ++ tr1 ++ tr))
        as Hok''.
      { apply peaks_ok_reads; [|done]. apply Forall_cons. split; [|by apply Forall_nil].
        eexists. split; [reflexivity|unfold SHIFT_LIMIT; lia]. }
      pose proof (peaks_ok_append _ (scan_i s + 15) _ _ (current_min_index s) _ Hok''
                    ltac:(lia) ltac:(unfold PEAK_SEARCH_RANGE; lia)) as Happ.
      rewrite <- Hps', <- Hn' in Happ.
      exists (if peak_count s' >=? 10 then Return s' else Continue (slide s' next)),
        (Wr Peaks (peak_count s) (current_min_index s)
         :: [Rd Interference (current_min_index s)] ++ rd3 ++ tr2 ++ tr1 ++ tr).
      split; [simpl; by rewrite <- !app_assoc|].
      destruct (Z.geb_spec (peak_count s') 10) as [Hfull|Hroom].
      * split.
        -- eapply peaks_ok_weaken; [| |exact Happ]; lia.
        -- intros _. replace (peak_count s) with 9 by lia. eauto.
      * split; [done|].
        split.
        { apply (window_inv_ext array (scan_incr (slide s next))); simpl;
            rewrite ?Hi', ?Hc'; done. }
        simpl. unfold PEAK_SEARCH_RANGE. rewrite Hi', Hu16.
        eapply peaks_ok_weaken; [| |exact Happ]; lia.
  - exists (Continue (slide s next)), (tr2 ++ tr1 ++ tr). split.
    { by rewrite <- !app_assoc. }
    split; [done|]. split; [done|]. simpl. unfold PEAK_SEARCH_RANGE. rewrite Hu16.
    eapply peaks_ok_weaken; [| |by repeat apply peaks_ok_reads]; lia.
Qed.

Lemma scan_init_spec fuel peaks0 peak_count0 array t0 :
  (15 <= fuel)%nat -> SHIFT_LIMIT <= Z.of_nat (length array) ->
  exists s0 tr,
    scan_init fuel peaks0 peak_count0 array t0 = (Ok s0, tr ++ t0) /\
    window_inv array s0 /\ scan_i s0 = PEAK_SEARCH_RANGE /\
    peaks s0 = peaks0 /\ peak_count s0 = peak_count0 /\
    profile_reads_in 0 SHIFT_LIMIT tr.
Proof.
  intros Hfuel Hlen. unfold SHIFT_LIMIT, PEAK_SEARCH_RANGE, scan_init in *.
  destruct (min_in_range_spec fuel array 0 15 t0) as (p & tr1 & Hp & Hpmin & Hrd1); try lia.
  destruct (min_in_range_spec fuel array 15 15 (tr1 ++ t0)) as (c & tr2 & Hc & Hcmin & Hrd2);
    try lia.
  rewrite (bind_Ok _ _ _ _ _ Hp), (bind_Ok _ _ _ _ _ Hc).
  eexists (Scan _ _ _ _ _), (tr2 ++ tr1). split; [unfold ret; by rewrite <- app_assoc|].
  split; [|do 3 (split; [done|])].
  - split; simpl; [exists 1; unfold PEAK_SEARCH_RANGE; lia|done..].
  - apply Forall_app. split; (eapply profile_reads_in_weaken; [| |eassumption]); lia.
Qed.

Lemma calculate_peaks_loop_spec fuel0 fuel array s tr t0 :
  (15 <= fuel0)%nat -> SHIFT_LIMIT <= Z.of_nat (length array) ->
  window_inv array s ->
  peaks_ok (scan_i s) 9 (peaks s) (peak_count s) tr ->
  1230 - scan_i s <= 15 * Z.of_nat fuel ->
  exists s' tr',
    calculate_peaks_loop fuel0 fuel array s (tr ++ t0) = (Ok s', tr' ++ t0) /\
    final_ok (peaks s') (peak_count s') tr'.
Proof.
  intros Hfuel0 Hlen. revert s tr.
  induction fuel as [|fuel IH]; intros s tr Hwin Hok Hfuel.
  - destruct Hwin as [(k & Hk & Hi) _ _]. unfold PEAK_SEARCH_RANGE in Hi.
    simpl. unfold scan_guard, SHIFT_LIMIT, PEAK_SEARCH_RANGE.
    destruct (Z.ltb_spec (scan_i s) (1250 - 15 - 15)); [lia|].
    exists s, tr. split; [done|]. split; [|destruct Hok; unfold PEAK_TRACKING_LIMIT; lia].
    eapply peaks_ok_weaken; [| |exact Hok];
      [unfold SHIFT_LIMIT, PEAK_SEARCH_RANGE|destruct Hok; unfold PEAK_TRACKING_LIMIT]; lia.
  - simpl. destruct (scan_guard s) eqn:Hg.
    + destruct (calculate_peaks_body_inv fuel0 array s tr t0 Hfuel0 Hlen Hwin Hg Hok)
        as (fl & tr' & Hbody & Hfl).
      rewrite (bind_Ok _ _ _ _ _ Hbody). destruct fl as [s'|s'|s'].
      * destruct Hfl as (Hi' & Hwin' & Hok').
        apply IH; [done|done|].
        destruct Hwin as [(k & Hk & Hi) _ _].
        unfold scan_guard, SHIFT_LIMIT, PEAK_SEARCH_RANGE in *. apply Z.ltb_lt in Hg.
        simpl. unfold PEAK_SEARCH_RANGE. rewrite Hi', u16_small by lia. lia.
      * by exists s', tr'.
      * by exists s', tr'.
    + destruct Hwin as [(k & Hk & Hi) _ _]. unfold PEAK_SEARCH_RANGE in Hi.
      exists s, tr. split; [done|]. split; [|destruct Hok; unfold PEAK_TRACKING_LIMIT; lia].
      eapply peaks_ok_weaken; [| |exact Hok];
        [unfold SHIFT_LIMIT, PEAK_SEARCH_RANGE|destruct Hok; unfold PEAK_TRACKING_LIMIT]; lia.
Qed.

(** The complete specification of a call with an empty peak list. *)
Lemma calculate_peaks_spec fuel peaks0 array t0 :
  (81 <= fuel)%nat -> SHIFT_LIMIT <= Z.of_nat (length array) ->
  length peaks0 = 10%nat ->
  exists ps c tr,
    calculate_peaks fuel peaks0 0 array t0 = (Ok (ps, c), tr ++ t0) /\
    final_ok ps c tr.
Proof.
  intros Hfuel Hlen Hl. unfold calculate_peaks.
  destruct (scan_init_spec fuel peaks0 0 array t0 ltac:(lia) Hlen)
    as (s0 & tr0 & Hinit & Hwin & Hi & Hps & Hc & Hrd).
  rewrite (bind_Ok _ _ _ _ _ Hinit).
  destruct (calculate_peaks_loop_spec fuel fuel array s0 tr0 t0 ltac:(lia) Hlen Hwin)
    as (s' & tr' & Hloop & Hfin).
  - rewrite Hps, Hc, Hi. split; simpl; try done.
    + by apply scan_access_ok_reads.
    + by rewrite (peak_writes_reads _ _ _ Hrd).
    + constructor.
  - rewrite Hi. unfold PEAK_SEARCH_RANGE. lia.
  - rewrite (bind_Ok _ _ _ _ _ Hloop). by exists (peaks s'), (peak_count s'), tr'.
Qed.

(** ** Reachable states of the scan *)

Lemma call_access_ok_reads tr :
  profile_reads_in 0 SHIFT_LIMIT tr -> Forall call_access_ok tr.
Proof.
  intros H. eapply Forall_impl; [exact H|]. by intros a (i & -> & Hi).
Qed.

(** Whatever the peak list, and whether or not the store into it faults,
    an iteration reads the profile below [SHIFT_LIMIT] only, stores no
    index below [PEAK_SEARCH_RANGE] and keeps the windows. *)
Lemma calculate_peaks_body_windows fuel array s t r t' :
  (15 <= fuel)%nat -> SHIFT_LIMIT <= Z.of_nat (length array) ->
  window_inv array s -> scan_guard s = true ->
  calculate_peaks_body fuel array s t = (r, t') ->
  exists tr,
    t' = tr ++ t /\ Forall call_access_ok tr /\
    forall s', r = Ok (Continue s') ->
      scan_i s' = scan_i s /\ window_inv array (scan_incr s').
Proof.
  intros Hfuel Hlen Hwin Hg.
  destruct (calculate_peaks_body_eq fuel array s t Hfuel Hlen Hwin Hg)
    as (next & vp & vc & vn & vq & tr1 & tr2 & _ & Hnext & _ & Hvc & _ & _ & _ &
        Hrd1 & Hrd2 & ->).
  destruct Hwin as [(k & Hk & Hi) Hprev Hcur].
  pose proof Hg as Hg'. unfold scan_guard in Hg'. apply Z.ltb_lt in Hg'.
  pose proof (proj1 Hcur) as Bc.
  assert (u16 (scan_i s + 15) = scan_i s + 15) as Hu16.
  { unfold SHIFT_LIMIT, PEAK_SEARCH_RANGE in *. apply u16_small; lia. }
  assert (window_inv array (scan_incr (slide s next))) as Hwin'.
  { split; simpl; unfold PEAK_SEARCH_RANGE in *; rewrite Hu16.
    - exists (k + 1). unfold SHIFT_LIMIT in *. lia.
    - by replace (scan_i s + 15 - 15) with (scan_i s) by lia.
    - done. }
  assert (Forall call_access_ok (tr2 ++ tr1)) as Hrd12.
  { apply Forall_app. split; by apply call_access_ok_reads. }
  assert (Forall call_access_ok
            (Rd Interference (current_min_index s)
             :: Rd Interference (current_min_index s - 1) :: tr2 ++ tr1)) as Hrd3.
  { unfold SHIFT_LIMIT, PEAK_SEARCH_RANGE in *.
    repeat (apply Forall_cons; split; [simpl; split; [done|unfold SHIFT_LIMIT; lia]|]).
    done. }
  destruct ((vc <? vp) && (vc <? vn)); simpl.
  - destruct (vq <? vc).
    + intros [= <- <-]. eexists. split; [|split; [exact Hrd3|done]].
      simpl. by rewrite <- app_assoc.
    + assert (call_access_ok (Rd Interference (current_min_index s))) as Hrdc
        by (by apply Forall_cons in Hrd3 as [? _]).
      assert (forall i, call_access_ok (Wr Peaks i (current_min_index s))) as Hwrc.
      { intros i. simpl. unfold SHIFT_LIMIT, PEAK_SEARCH_RANGE in *. split; [done|lia]. }
      destruct (append_peak_cases array s next vc
                  (Rd Interference (current_min_index s)
                   :: Rd Interference (current_min_index s - 1) :: tr2 ++ tr1 ++ t) Hvc)
        as [->|(s' & Hi' & Hp' & Hc' & _ & _ & ->)]; intros [= <- <-].
      * eexists (Wr Peaks _ _ :: _ :: _ :: _ :: tr2 ++ tr1).
        split; [simpl; by rewrite <- app_assoc|]. split; [|done].
        apply Forall_cons. split; [apply Hwrc|]. apply Forall_cons. by split.
      * eexists (Wr Peaks _ _ :: _ :: _ :: _ :: tr2 ++ tr1).
        split; [simpl; by rewrite <- app_assoc|].
        split; [apply Forall_cons; split; [apply Hwrc|]; apply Forall_cons; by split|].
        intros s''. destruct (peak_count s' >=? PEAK_TRACKING_LIMIT); [done|].
        intros [= <-]. split; [done|].
        apply (window_inv_ext array (scan_incr (slide s next))); simpl;
          rewrite ?Hi', ?Hc'; done.
  - intros [= <- <-]. exists (tr2 ++ tr1). split; [by rewrite <- app_assoc|].
    split; [done|]. by intros s' [= <-].
Qed.

Lemma scan_reaches_windows fuel peaks0 peak_count0 array t0 s t :
  (15 <= fuel)%nat -> SHIFT_LIMIT <= Z.of_nat (length array) ->
  scan_reaches fuel peaks0 peak_count0 array t0 (s, t) ->
  window_inv array s.
Proof.
  intros Hfuel Hlen (s0 & t1 & Hinit & Hrtc).
  destruct (scan_init_spec fuel peaks0 peak_count0 array t0 Hfuel Hlen)
    as (s0' & tr & Hinit' & Hwin & _).
  rewrite Hinit in Hinit'. injection Hinit' as <- _.
  enough (forall x, rtc (scan_step fuel array) (s0, t1) x -> window_inv array (fst x))
    as H by exact (H _ Hrtc).
  apply (rtc_ind_r (fun x => window_inv array (fst x))); [done|].
  intros y z Hxy [Hg (s' & Hbody & ->)] IH.
  destruct (calculate_peaks_body_windows _ _ _ _ _ _ Hfuel Hlen IH Hg Hbody)
    as (tr' & _ & _ & Hcont).
  by destruct (Hcont s' eq_refl).
Qed.

Lemma scan_step_loop fuel0 fuel array x y :
  scan_step fuel0 array x y ->
  calculate_peaks_loop fuel0 (S fuel) array (fst x) (snd x)
    = calculate_peaks_loop fuel0 fuel array (fst y) (snd y).
Proof.
  intros [Hg (s' & Hbody & Hy)]. simpl. rewrite Hg, (bind_Ok _ _ _ _ _ Hbody).
  by rewrite Hy.
Qed.

(** The loop started in a state [x] passes through every state reachable
    from [x], with enough fuel left for the rest of the scan. *)
Lemma scan_rtc_loop fuel0 array x y :
  (15 <= fuel0)%nat -> SHIFT_LIMIT <= Z.of_nat (length array) ->
  window_inv array (fst x) ->
  rtc (scan_step fuel0 array) x y ->
  forall f, 1230 - scan_i (fst x) <= 15 * Z.of_nat f ->
  exists f', 1230 - scan_i (fst y) <= 15 * Z.of_nat f' /\
    calculate_peaks_loop fuel0 f array (fst x) (snd x)
      = calculate_peaks_loop fuel0 f' array (fst y) (snd y).
Proof.
  intros Hfuel Hlen Hwin Hrtc f Hf.
  enough (window_inv array (fst y) /\
          exists f', 1230 - scan_i (fst y) <= 15 * Z.of_nat f' /\
            calculate_peaks_loop fuel0 f array (fst x) (snd x)
              = calculate_peaks_loop fuel0 f' array (fst y) (snd y)) as [_ H] by exact H.
  revert y Hrtc. apply rtc_ind_r; [split; [done|by exists f]|].
  intros y z Hxy Hyz [Hwy (f' & Hf' & Heq)].
  pose proof Hyz as [Hg (s' & Hbody & Hz)].
  destruct (calculate_peaks_body_windows _ _ _ _ _ _ Hfuel Hlen Hwy Hg Hbody)
    as (tr' & _ & _ & Hcont).
  destruct (Hcont s' eq_refl) as [Hi' Hwz]. rewrite <- Hz in Hwz. split; [done|].
  destruct Hwy as [(k & Hk & Hi) _ _].
  unfold scan_guard, SHIFT_LIMIT, PEAK_SEARCH_RANGE in *. apply Z.ltb_lt in Hg.
  destruct f' as [|f']; [lia|]. exists f'. split.
  - rewrite Hz. simpl. unfold PEAK_SEARCH_RANGE. rewrite Hi', u16_small by lia. lia.
  - rewrite Heq. by apply scan_step_loop.
Qed.

(** With an empty peak list at the start, the peak list stays within its
    capacity in every state of the scan. *)
Lemma scan_reaches_peaks_ok fuel peaks0 array t0 s t :
  (15 <= fuel)%nat -> SHIFT_LIMIT <= Z.of_nat (length array) ->
  length peaks0 = 10%nat ->
  scan_reaches fuel peaks0 0 array t0 (s, t) ->
  exists tr, t = tr ++ t0 /\ peaks_ok (scan_i s) 9 (peaks s) (peak_count s) tr.
Proof.
  intros Hfuel Hlen Hl (s0 & t1 & Hinit & Hrtc).
  destruct (scan_init_spec fuel peaks0 0 array t0 Hfuel Hlen)
    as (s0' & tr0 & Hinit' & Hwin & Hi & Hps & Hc & Hrd).
  rewrite Hinit in Hinit'. injection Hinit' as <- ->.
  enough (forall x, rtc (scan_step fuel array) (s0, tr0 ++ t0) x ->
            window_inv array (fst x) /\
            exists tr, snd x = tr ++ t0 /\
              peaks_ok (scan_i (fst x)) 9 (peaks (fst x)) (peak_count (fst x)) tr)
    as H by exact (proj2 (H _ Hrtc)).
  apply rtc_ind_r.
  - split; [done|]. exists tr0. split; [done|]. simpl. rewrite Hps, Hc, Hi.
    split; simpl; try done.
    + by apply scan_access_ok_reads.
    + by rewrite (peak_writes_reads _ _ _ Hrd).
    + constructor.
  - intros y z Hxy [Hg (s' & Hbody & ->)] [Hwy (tr & Hy & Hok)].
    destruct (calculate_peaks_body_inv fuel array (fst y) tr t0 Hfuel Hlen Hwy Hg Hok)
      as (fl & tr' & Hbody' & Hfl).
    rewrite Hy, Hbody' in Hbody. injection Hbody as -> Hz.
    destruct Hfl as (_ & Hwz & Hokz). split; [done|]. by exists tr'.
Qed.

(** The reads of a scan, whatever the peak list it is given and however it
    ends. *)
Lemma calculate_peaks_loop_reads fuel0 fuel array s t :
  (15 <= fuel0)%nat -> SHIFT_LIMIT <= Z.of_nat (length array) ->
  window_inv array s ->
  exists tr, snd (calculate_peaks_loop fuel0 fuel array s t) = tr ++ t /\
             Forall call_access_ok tr.
Proof.
  intros Hfuel Hlen. revert s t. induction fuel as [|fuel IH]; intros s t Hwin; simpl.
  - destruct (scan_guard s); by exists [].
  - destruct (scan_guard s) eqn:Hg; [|by exists []].
    unfold bind. destruct (calculate_peaks_body fuel0 array s t) as [r t'] eqn:Hbody.
    destruct (calculate_peaks_body_windows _ _ _ _ _ _ Hfuel Hlen Hwin Hg Hbody)
      as (tr & -> & Htr & Hcont).
    destruct r as [[s'|s'|s']| |]; try by exists tr.
    destruct (Hcont s' eq_refl) as [_ Hwin'].
    destruct (IH (scan_incr s') (tr ++ t) Hwin') as (tr' & -> & Htr').
    exists (tr' ++ tr). split; [by rewrite app_assoc|]. apply Forall_app. by split.
Qed.

Lemma calculate_peaks_reads fuel peaks0 peak_count0 array t0 :
  (15 <= fuel)%nat -> SHIFT_LIMIT <= Z.of_nat (length array) ->
  exists tr, snd (calculate_peaks fuel peaks0 peak_count0 array t0) = tr ++ t0 /\
             Forall call_access_ok tr.
Proof.
  intros Hfuel Hlen. unfold calculate_peaks.
  destruct (scan_init_spec fuel peaks0 peak_count0 array t0 Hfuel Hlen)
    as (s0 & tr0 & Hinit & Hwin & _ & _ & _ & Hrd).
  rewrite (bind_Ok _ _ _ _ _ Hinit).
  destruct (calculate_peaks_loop_reads fuel fuel array s0 (tr0 ++ t0) Hfuel Hlen Hwin)
    as (tr & Htr & Hok).
  exists (tr ++ tr0). split.
  - unfold bind. destruct (calculate_peaks_loop fuel fuel array s0 (tr0 ++ t0)) as [r t'].
    simpl in Htr. subst t'. rewrite <- app_assoc. by destruct r.
  - apply Forall_app. split; [done|by apply call_access_ok_reads].
Qed.

(** ** The claims about [calculate_peaks] *)

(** C8: every profile index read by [calculate_peaks], directly or through
    [min_in_range], is below [SHIFT_LIMIT], hence inside the
    [NUM_SAMPLES]-element profile, whatever the peak list given to the
    call; and the call started as [calculate_freq] does it, with an empty
    list of capacity [PEAK_TRACKING_LIMIT], makes no access out of bounds. *)
Theorem calculate_peaks_reads_below_shift_limit fuel peaks0 peak_count0 array t0 :
  (81 <= fuel)%nat -> Z.of_nat (length array) = NUM_SAMPLES ->
  (exists tr,
     snd (calculate_peaks fuel peaks0 peak_count0 array t0) = tr ++ t0 /\
     forall b i, Rd b i ∈ tr ->
       b = Interference /\ 0 <= i < SHIFT_LIMIT /\ i < Z.of_nat (length array)) /\
  (peak_count0 = 0 -> Z.of_nat (length peaks0) = PEAK_TRACKING_LIMIT ->
   exists r, fst (calculate_peaks fuel peaks0 peak_count0 array t0) = Ok r).
Proof.
  intros Hfuel Hlen. unfold NUM_SAMPLES, PEAK_TRACKING_LIMIT in *.
  assert (SHIFT_LIMIT <= Z.of_nat (length array)) as Hlen' by (unfold SHIFT_LIMIT; lia).
  split.
  - destruct (calculate_peaks_reads fuel peaks0 peak_count0 array t0 ltac:(lia) Hlen')
      as (tr & Htr & Hok).
    exists tr. split; [done|]. intros b i Hin.
    rewrite Forall_forall in Hok. destruct (Hok _ Hin) as [-> Hi].
    unfold SHIFT_LIMIT in *. split; [done|lia].
  - intros -> Hl.
    destruct (calculate_peaks_spec fuel peaks0 array t0 Hfuel Hlen' ltac:(lia))
      as (ps & c & tr & Heq & _).
    exists (ps, c). by rewrite Heq.
Qed.

Lemma calculate_peaks_reads_below_shift_limit_witness :
  (exists tr,
     snd (calculate_peaks 81 (replicate 10 0) 0 example_profile []) = tr ++ [] /\
     forall b i, Rd b i ∈ tr ->
       b = Interference /\ 0 <= i < SHIFT_LIMIT /\ i < Z.of_nat (length example_profile)) /\
  (0 = 0 -> Z.of_nat (length (replicate 10 0)) = PEAK_TRACKING_LIMIT ->
   exists r, fst (calculate_peaks 81 (replicate 10 0) 0 example_profile []) = Ok r).
Proof.
  apply (calculate_peaks_reads_below_shift_limit 81 (replicate 10 0) 0 example_profile []).
  - lia.
  - reflexivity.
Defined.

Lemma example_start_reached :
  scan_reaches 15 (replicate 10 0) 0 example_profile [] example_start.
Proof.
  exists (fst example_start), (snd example_start). split.
  - vm_compute. reflexivity.
  - replace (fst example_start, snd example_start) with example_start by reflexivity.
    apply rtc_refl.
Defined.


(** In a scan the value before a candidate is never lower than the
    candidate: it is a value of the current window before its first
    minimum, or the last value of the previous window, which is at least
    the previous minimum. *)
Lemma candidate_predecessor_not_lower array s vp vc vq :
  window_inv array s ->
  get array (prev_min_index s) = Some vp ->
  get array (current_min_index s) = Some vc ->
  get array (current_min_index s - 1) = Some vq ->
  vc < vp -> vc < vq.
Proof.
  intros [_ [Bp (vp' & Hvp' & Hple & _)] [Bc (vc' & Hvc' & _ & Hclt)]] Hvp Hvc Hvq Hdip.
  assert (vp' = vp) as -> by congruence. assert (vc' = vc) as -> by congruence.
  unfold PEAK_SEARCH_RANGE in *.
  destruct (Z.eq_dec (current_min_index s) (scan_i s)) as [Heq|Hne].
  - specialize (Hple (current_min_index s - 1) vq ltac:(lia) Hvq). lia.
  - apply (Hclt (current_min_index s - 1) vq); [lia|done].
Qed.

(** Hence no iteration of a scan ends by the [break] of line 29. *)
Lemma scan_never_breaks fuel peaks0 peak_count0 array t0 s t s' t' :
  (15 <= fuel)%nat -> SHIFT_LIMIT <= Z.of_nat (length array) ->
  scan_reaches fuel peaks0 peak_count0 array t0 (s, t) -> scan_guard s = true ->
  calculate_peaks_body fuel array s t <> (Ok (Break s'), t').
Proof.
  intros Hfuel Hlen Hreach Hg.
  pose proof (scan_reaches_windows _ _ _ _ _ _ _ Hfuel Hlen Hreach) as Hwin.
  destruct (calculate_peaks_body_eq fuel array s t Hfuel Hlen Hwin Hg)
    as (next & vp & vc & vn & vq & tr1 & tr2 & _ & _ & Hvp & Hvc & _ & Hvq & _ & _ & _ & ->).
  destruct (Z.ltb_spec vc vp) as [Hlt|Hge]; simpl; [|done].
  pose proof (candidate_predecessor_not_lower array s vp vc vq Hwin Hvp Hvc Hvq Hlt).
  destruct (vc <? vn); [|done]. destruct (Z.ltb_spec vq vc); [lia|].
  destruct (append_peak_cases array s next vc
              (Rd Interference (current_min_index s)
               :: Rd Interference (current_min_index s - 1) :: tr2 ++ tr1 ++ t) Hvc)
    as [->|(s'' & _ & _ & _ & _ & _ & ->)]; [done|].
  by destruct (peak_count s'' >=? PEAK_TRACKING_LIMIT).
Qed.

Lemma calculate_peaks_loop_S fuel0 fuel array s :
  calculate_peaks_loop fuel0 (S fuel) array s =
    if scan_guard s then
      f <- calculate_peaks_body fuel0 array s ;;
      match f with
      | Continue s' => calculate_peaks_loop fuel0 fuel array (scan_incr s')
      | Break s' => ret s'
      | Return s' => ret s'
      end
    else ret s.
Proof. reflexivity. Qed.

Lemma peak_writes_only_reads tr :
  Forall (fun a => exists b i, a = Rd b i) tr -> peak_writes tr = [].
Proof. induction 1 as [|a tr (b & i & ->) _ IH]; done. Qed.

(** ** [calculate_sma] and the smoothing loop *)

Lemma sumZ_app l1 l2 : sumZ (l1 ++ l2) = sumZ l1 + sumZ l2.
Proof. induction l1 as [|x l1 IH]; simpl; lia. Qed.

Lemma sumZ_bounds l : Forall is_u8 l -> 0 <= sumZ l <= 255 * Z.of_nat (length l).
Proof. induction 1 as [|x l Hx _ IH]; simpl; unfold is_u8 in *; lia. Qed.

Lemma window_length array index n :
  0 <= index -> 0 <= n -> index + n <= Z.of_nat (length array) ->
  Z.of_nat (length (window array index n)) = n.
Proof. intros. unfold window. rewrite length_take, length_drop. lia. Qed.

Lemma window_u8 array index n : Forall is_u8 array -> Forall is_u8 (window array index n).
Proof. intros H. unfold window. by apply Forall_take, Forall_drop. Qed.

Lemma window_snoc array index n a :
  0 <= index -> 0 <= n -> get array (index + n) = Some a ->
  window array index (n + 1) = window array index n ++ [a].
Proof.
  intros Hi Hn Ha. unfold window, get in *.
  destruct (Z.ltb_spec (index + n) 0); [lia|].
  replace (Z.to_nat (n + 1)) with (S (Z.to_nat n)) by lia.
  apply take_S_r. rewrite lookup_drop. by replace (Z.to_nat index + Z.to_nat n)%nat
    with (Z.to_nat (index + n)) by lia.
Qed.

Lemma calculate_sma_body_spec index array st t :
  0 <= index -> index + SMA_WIDTH + 1 <= Z.of_nat (length array) ->
  Forall is_u8 array ->
  sma_inv index array st -> fst st <= SMA_WIDTH ->
  exists a,
    get array (index + fst st) = Some a /\ is_u8 a /\
    0 <= snd st + a <= 255 * (SMA_WIDTH + 1) /\
    calculate_sma_body index array st t
      = (Ok (fst st + 1, snd st + a), Rd SamplesBuff (index + fst st) :: t) /\
    sma_inv index array (fst st + 1, snd st + a).
Proof.
  intros Hidx Hlen Hu8 [Hi Hsum] Hle. destruct st as [i sum]. simpl in *.
  unfold SMA_WIDTH in *.
  destruct (get_lt_Some array (index + i)) as [a Ha]; [lia|].
  assert (is_u8 a) as Hau8.
  { rewrite Forall_forall in Hu8. apply Hu8. unfold get in Ha.
    destruct (index + i <? 0); [done|]. by eapply list_elem_of_lookup_2. }
  assert (sum + a = sumZ (window array index (i + 1))) as Hsum'.
  { rewrite (window_snoc _ _ _ a) by (done || lia). rewrite sumZ_app. simpl. lia. }
  pose proof (sumZ_bounds _ (window_u8 array index (i + 1) Hu8)) as Hb.
  rewrite window_length in Hb by lia. rewrite <- Hsum' in Hb.
  exists a. split; [done|]. split; [done|]. split; [lia|]. split.
  - rewrite (bind_Ok _ _ _ _ _ (read_Ok _ _ _ _ _ Ha)).
    unfold ret. by rewrite u8_small, u16_small by lia.
  - split; simpl; [unfold SMA_WIDTH; lia|done].
Qed.

Lemma calculate_sma_loop_spec fuel index array st t :
  0 <= index -> index + SMA_WIDTH + 1 <= Z.of_nat (length array) ->
  Forall is_u8 array ->
  sma_inv index array st -> SMA_WIDTH + 1 - fst st <= Z.of_nat fuel ->
  exists tr,
    calculate_sma_loop fuel index array st t
      = (Ok (sumZ (window array index (SMA_WIDTH + 1))), tr ++ t) /\
    Forall (fun a => exists i, a = Rd SamplesBuff i /\ index <= i <= index + SMA_WIDTH) tr.
Proof.
  intros Hidx Hlen Hu8. revert st t.
  induction fuel as [|fuel IH]; intros st t Hinv Hfuel; simpl.
  - destruct Hinv as [Hi Hsum]. destruct (Z.leb_spec (fst st) SMA_WIDTH); [lia|].
    exists []. replace (SMA_WIDTH + 1) with (fst st) by lia. by rewrite <- Hsum.
  - destruct (Z.leb_spec (fst st) SMA_WIDTH) as [Hle|Hgt].
    + destruct (calculate_sma_body_spec index array st t Hidx Hlen Hu8 Hinv Hle)
        as (a & _ & _ & _ & Hbody & Hinv').
      rewrite (bind_Ok _ _ _ _ _ Hbody).
      destruct (IH _ (Rd SamplesBuff (index + fst st) :: t) Hinv') as (tr & -> & Htr);
        [simpl; lia|].
      exists (tr ++ [Rd SamplesBuff (index + fst st)]). split; [by rewrite <- app_assoc|].
      apply Forall_app. split; [done|]. apply Forall_cons. split; [|done].
      destruct Hinv as [Hi _]. eexists. split; [done|lia].
    + destruct Hinv as [Hi Hsum].
      exists []. replace (SMA_WIDTH + 1) with (fst st) by lia. by rewrite <- Hsum.
Qed.

Lemma window_mean_u8 array index :
  0 <= index -> index + SMA_WIDTH + 1 <= Z.of_nat (length array) ->
  Forall is_u8 array -> is_u8 (window_mean array index).
Proof.
  intros Hidx Hlen Hu8. unfold window_mean, is_u8.
  pose proof (sumZ_bounds _ (window_u8 array index (SMA_WIDTH + 1) Hu8)) as Hb.
  unfold SMA_WIDTH in *. rewrite window_length in Hb by lia.
  rewrite Z.quot_div_nonneg by lia.
  split; [apply Z.div_pos; lia|]. apply Z.div_lt_upper_bound; lia.
Qed.

Lemma calculate_sma_spec fuel index array t :
  (21 <= fuel)%nat ->
  0 <= index -> index + SMA_WIDTH + 1 <= Z.of_nat (length array) ->
  Forall is_u8 array ->
  exists tr,
    calculate_sma fuel index array t = (Ok (window_mean array index), tr ++ t) /\
    Forall (fun a => exists i, a = Rd SamplesBuff i /\ index <= i <= index + SMA_WIDTH) tr.
Proof.
  intros Hfuel Hidx Hlen Hu8. unfold calculate_sma.
  destruct (calculate_sma_loop_spec fuel index array (0, 0) t Hidx Hlen Hu8)
    as (tr & Hloop & Htr).
  - split; simpl; [unfold SMA_WIDTH; lia|done].
  - simpl. unfold SMA_WIDTH. lia.
  - rewrite (bind_Ok _ _ _ _ _ Hloop). exists tr. split; [|done].
    unfold ret. rewrite u16_small; [done|].
    pose proof (window_mean_u8 array index Hidx Hlen Hu8) as Hm.
    unfold is_u8, window_mean in Hm. lia.
Qed.

Lemma sma_reaches_inv index array t0 st t :
  0 <= index -> index + SMA_WIDTH + 1 <= Z.of_nat (length array) ->
  Forall is_u8 array ->
  rtc (sma_step index array) ((0, 0), t0) (st, t) -> sma_inv index array st.
Proof.
  intros Hidx Hlen Hu8 Hrtc.
  enough (forall x, rtc (sma_step index array) ((0, 0), t0) x -> sma_inv index array (fst x))
    as H by exact (H _ Hrtc).
  apply rtc_ind_r.
  - split; simpl; [unfold SMA_WIDTH; lia|done].
  - intros y z _ [Hg Hbody] IH. apply Z.leb_le in Hg.
    destruct (calculate_sma_body_spec index array (fst y) (snd y) Hidx Hlen Hu8 IH Hg)
      as (a & _ & _ & _ & Hbody' & Hinv).
    rewrite Hbody' in Hbody. injection Hbody as <- _. done.
Qed.

Lemma smooth_loop_spec fuel0 fuel samples_buff samples i t :
  (21 <= fuel0)%nat ->
  Z.of_nat (length samples_buff) = NUM_SAMPLES + SMA_WIDTH ->
  Forall is_u8 samples_buff ->
  Z.of_nat (length samples) = NUM_SAMPLES ->
  0 <= i <= NUM_SAMPLES -> NUM_SAMPLES - i <= Z.of_nat fuel ->
  (forall j, 0 <= j < i -> get samples j = Some (window_mean samples_buff j)) ->
  exists samples' tr,
    smooth_loop fuel0 fuel samples_buff samples i t = (Ok samples', tr ++ t) /\
    Z.of_nat (length samples') = NUM_SAMPLES /\
    forall j, 0 <= j < NUM_SAMPLES -> get samples' j = Some (window_mean samples_buff j).
Proof.
  intros Hfuel0 Hlen Hu8. unfold NUM_SAMPLES, SMA_WIDTH in *. revert samples i t.
  induction fuel as [|fuel IH]; intros samples i t Hl Hi Hfuel Hdone; simpl;
    unfold NUM_SAMPLES.
  - destruct (Z.ltb_spec i 1500); [lia|]. exists samples, []. split; [done|].
    split; [done|]. intros j Hj. apply Hdone. lia.
  - destruct (Z.ltb_spec i 1500) as [Hlt|Hge].
    + destruct (calculate_sma_spec fuel0 i samples_buff t Hfuel0 ltac:(lia))
        as (tr1 & Hsma & _); [unfold SMA_WIDTH; lia|done|].
      rewrite (bind_Ok _ _ _ _ _ Hsma).
      pose proof (window_mean_u8 samples_buff i ltac:(lia)
                    ltac:(unfold SMA_WIDTH; lia) Hu8) as Hm.
      rewrite (u8_small _ Hm).
      rewrite (bind_Ok _ _ _ _ _ (write_Ok Signal samples i _ _ ltac:(lia))).
      rewrite u16_small by lia.
      edestruct (IH (<[Z.to_nat i := window_mean samples_buff i]> samples) (i + 1))
        as (samples' & tr & -> & Hl' & Hall).
      * rewrite length_insert. lia.
      * lia.
      * lia.
      * intros j Hj. destruct (Z.eq_dec i j) as [<-|Hne].
        -- apply get_insert_eq. lia.
        -- rewrite get_insert_ne by lia. apply Hdone. lia.
      * exists samples', (tr ++ Wr Signal i (window_mean samples_buff i) :: tr1).
        split; [|done]. by rewrite <- app_assoc.
    + exists samples, []. split; [done|].
      split; [done|]. intros j Hj. apply Hdone. lia.
Qed.

Lemma smooth_spec fuel samples_buff samples0 t :
  (1500 <= fuel)%nat ->
  Z.of_nat (length samples_buff) = NUM_SAMPLES + SMA_WIDTH ->
  Forall is_u8 samples_buff ->
  Z.of_nat (length samples0) = NUM_SAMPLES ->
  exists samples tr,
    smooth fuel samples_buff samples0 t = (Ok samples, tr ++ t) /\
    Z.of_nat (length samples) = NUM_SAMPLES /\
    forall j, 0 <= j < NUM_SAMPLES -> get samples j = Some (window_mean samples_buff j).
Proof.
  intros Hfuel Hlen Hu8 Hl. unfold smooth.
  apply smooth_loop_spec; try done; unfold NUM_SAMPLES; lia.
Qed.

(** C6: for an index [i] of [0, NUM_SAMPLES) and a raw window of unsigned
    8-bit samples with at least [i + SMA_WIDTH + 1] elements,
    [calculate_sma] returns the truncated mean of the [SMA_WIDTH + 1]
    samples [raw[i]], ..., [raw[i + SMA_WIDTH]], having read exactly those. *)
Theorem calculate_sma_is_window_mean fuel i raw t :
  (21 <= fuel)%nat ->
  0 <= i < NUM_SAMPLES -> i + SMA_WIDTH + 1 <= Z.of_nat (length raw) ->
  Forall is_u8 raw ->
  exists tr,
    calculate_sma fuel i raw t
      = (Ok (Z.quot (sumZ (take 21 (drop (Z.to_nat i) raw))) 21), tr ++ t) /\
    Forall (fun a => exists j, a = Rd SamplesBuff j /\ i <= j <= i + SMA_WIDTH) tr.
Proof.
  intros Hfuel Hi Hlen Hu8.
  apply (calculate_sma_spec fuel i raw t Hfuel); [lia|done|done].
Qed.

Lemma calculate_sma_is_window_mean_witness :
  exists tr,
    calculate_sma 21 2 (Z.of_nat <$> seq 0 30) []
      = (Ok (Z.quot (sumZ (take 21 (drop (Z.to_nat 2) (Z.of_nat <$> seq 0 30)))) 21), tr ++ []) /\
    Forall (fun a => exists j, a = Rd SamplesBuff j /\ 2 <= j <= 2 + SMA_WIDTH) tr.
Proof.
  apply (calculate_sma_is_window_mean 21 2 (Z.of_nat <$> seq 0 30) []).
  - lia.
  - unfold NUM_SAMPLES. lia.
  - vm_compute. discriminate.
  - apply Forall_fmap, Forall_forall. intros k Hk%elem_of_seq. unfold is_u8. simpl. lia.
Defined.

(** C10: on unsigned 8-bit samples, whenever the loop of [calculate_sma]
    is about to add a sample, the exact sum is at most [21 * 255 = 5355],
    so that the store into the 16-bit [sum] keeps it; the mean returned is
    at most 255; and the smoothing loop of [core0_thread] stores every
    mean unchanged into the 8-bit array [samples]. *)
Theorem calculate_sma_no_overflow fuel samples_buff samples0 index t0 :
  (1500 <= fuel)%nat ->
  Z.of_nat (length samples_buff) = NUM_SAMPLES + SMA_WIDTH ->
  Forall is_u8 samples_buff ->
  Z.of_nat (length samples0) = NUM_SAMPLES ->
  0 <= index < NUM_SAMPLES ->
  (forall i sum t,
     rtc (sma_step index samples_buff) ((0, 0), t0) ((i, sum), t) -> i <= SMA_WIDTH ->
     exists a, get samples_buff (index + i) = Some a /\
               0 <= sum + a <= 5355 /\ u16 (sum + a) = sum + a) /\
  (exists v tr,
     calculate_sma fuel index samples_buff t0 = (Ok v, tr ++ t0) /\
     0 <= v <= 255 /\ u8 v = v) /\
  (exists samples tr,
     smooth fuel samples_buff samples0 t0 = (Ok samples, tr ++ t0) /\
     forall j, 0 <= j < NUM_SAMPLES ->
       get samples j = Some (window_mean samples_buff j) /\
       forall t, fst (calculate_sma fuel j samples_buff t) = Ok (window_mean samples_buff j)).
Proof.
  intros Hfuel Hlen Hu8 Hl Hidx. unfold NUM_SAMPLES, SMA_WIDTH in *.
  assert (index + SMA_WIDTH + 1 <= Z.of_nat (length samples_buff)) as Hlen'
    by (unfold SMA_WIDTH; lia).
  split; [|split].
  - intros i sum t Hrtc Hi.
    pose proof (sma_reaches_inv index samples_buff t0 (i, sum) t ltac:(lia) Hlen' Hu8 Hrtc)
      as Hinv.
    destruct (calculate_sma_body_spec index samples_buff (i, sum) t ltac:(lia) Hlen' Hu8 Hinv Hi)
      as (a & Ha & _ & Hb & _). simpl in *. unfold SMA_WIDTH in Hb.
    exists a. split; [done|]. split; [lia|]. apply u16_small. lia.
  - destruct (calculate_sma_spec fuel index samples_buff t0 ltac:(lia) ltac:(lia) Hlen' Hu8)
      as (tr & Heq & _).
    pose proof (window_mean_u8 samples_buff index ltac:(lia) Hlen' Hu8) as Hm.
    exists (window_mean samples_buff index), tr. split; [done|].
    unfold is_u8 in Hm. split; [lia|]. by apply u8_small.
  - destruct (smooth_spec fuel samples_buff samples0 t0 Hfuel Hlen Hu8 Hl)
      as (samples & tr & Heq & _ & Hall).
    exists samples, tr. split; [done|]. intros j Hj. split; [by apply Hall|].
    intros t.
    destruct (calculate_sma_spec fuel j samples_buff t ltac:(lia) ltac:(lia)
                ltac:(unfold SMA_WIDTH; lia) Hu8) as (tr' & -> & _). done.
Qed.

Lemma calculate_sma_no_overflow_witness :
  (forall i sum t,
     rtc (sma_step 3 (replicate 1520 200)) ((0, 0), []) ((i, sum), t) -> i <= SMA_WIDTH ->
     exists a, get (replicate 1520 200) (3 + i) = Some a /\
               0 <= sum + a <= 5355 /\ u16 (sum + a) = sum + a) /\
  (exists v tr,
     calculate_sma 1500 3 (replicate 1520 200) [] = (Ok v, tr ++ []) /\
     0 <= v <= 255 /\ u8 v = v) /\
  (exists samples tr,
     smooth 1500 (replicate 1520 200) (replicate 1500 0) [] = (Ok samples, tr ++ []) /\
     forall j, 0 <= j < NUM_SAMPLES ->
       get samples j = Some (window_mean (replicate 1520 200) j) /\
       forall t, fst (calculate_sma 1500 j (replicate 1520 200) t)
                 = Ok (window_mean (replicate 1520 200) j)).
Proof.
  apply (calculate_sma_no_overflow 1500 (replicate 1520 200) (replicate 1500 0) 3 []).
  - lia.
  - rewrite length_replicate. reflexivity.
  - apply Forall_replicate. unfold is_u8. lia.
  - rewrite length_replicate. reflexivity.
  - unfold NUM_SAMPLES. lia.
Defined.

(** ** [calculate_interference_pwr] *)

Lemma get_u8 array i v : Forall is_u8 array -> get array i = Some v -> is_u8 v.
Proof.
  intros Hu8 Hv. rewrite Forall_forall in Hu8. apply Hu8. unfold get in Hv.
  destruct (i <? 0); [done|]. by eapply list_elem_of_lookup_2.
Qed.

Lemma diff_at_bounds array shift k : Forall is_u8 array -> 0 <= diff_at array shift k <= 255.
Proof.
  intros Hu8. unfold diff_at.
  destruct (get array k) as [a|] eqn:Ha; [|lia].
  destruct (get array (k + shift)) as [b|] eqn:Hb; [|lia].
  pose proof (get_u8 _ _ _ Hu8 Ha). pose proof (get_u8 _ _ _ Hu8 Hb).
  unfold is_u8 in *. lia.
Qed.

Lemma partial_power_nonneg array shift n : Forall is_u8 array -> 0 <= partial_power array shift n.
Proof.
  intros Hu8. induction n as [|n IH]; simpl; [lia|].
  pose proof (diff_at_bounds array shift (Z.of_nat n) Hu8). lia.
Qed.

(** One iteration of the loop from a state below the threshold. *)
Lemma interference_pwr_loop_S fuel shift array k t :
  Z.of_nat (length array) = NUM_SAMPLES -> Forall is_u8 array -> 0 <= shift ->
  Z.of_nat k < NUM_SAMPLES - shift ->
  0 <= partial_power array shift k <= INTERFERENCE_THRESHOLD ->
  interference_pwr_loop (S fuel) shift array (Z.of_nat k) (partial_power array shift k) t =
    let t' := Rd Signal (Z.of_nat k + shift) :: Rd Signal (Z.of_nat k) :: t in
    if partial_power array shift (S k) >? INTERFERENCE_THRESHOLD then (Ok INT_MAX, t')
    else interference_pwr_loop fuel shift array (Z.of_nat (S k))
           (partial_power array shift (S k)) t'.
Proof.
  intros Hlen Hu8 Hshift Hk Hpp. unfold NUM_SAMPLES, INTERFERENCE_THRESHOLD in *. simpl.
  unfold NUM_SAMPLES. destruct (Z.ltb_spec (Z.of_nat k) (1500 - shift)); [|lia].
  destruct (get_lt_Some array (Z.of_nat k)) as [a Ha]; [lia|].
  destruct (get_lt_Some array (Z.of_nat k + shift)) as [b Hb]; [lia|].
  rewrite (bind_Ok _ _ _ _ _ (read_Ok _ _ _ _ _ Ha)).
  rewrite (bind_Ok _ _ _ _ _ (read_Ok _ _ _ _ _ Hb)).
  assert (Z.abs (a - b) = diff_at array shift (Z.of_nat k)) as ->
    by (unfold diff_at; by rewrite Ha, Hb).
  pose proof (diff_at_bounds array shift (Z.of_nat k) Hu8) as Hd.
  rewrite i32_small by lia. rewrite u16_small by lia.
  replace (Z.of_nat (S k)) with (Z.of_nat k + 1) by lia.
  unfold INTERFERENCE_THRESHOLD. by destruct (_ >? 3000).
Qed.

Lemma interference_pwr_loop_below fuel shift array k t :
  Z.of_nat (length array) = NUM_SAMPLES -> Forall is_u8 array -> 0 <= shift ->
  Z.of_nat k <= NUM_SAMPLES - shift ->
  NUM_SAMPLES - shift - Z.of_nat k <= Z.of_nat fuel ->
  (forall m, Z.of_nat m <= NUM_SAMPLES - shift ->
     partial_power array shift m <= INTERFERENCE_THRESHOLD) ->
  interference_pwr_loop fuel shift array (Z.of_nat k) (partial_power array shift k)
      (pwr_trace shift k ++ t)
    = (Ok (partial_power array shift (Z.to_nat (NUM_SAMPLES - shift))),
       pwr_trace shift (Z.to_nat (NUM_SAMPLES - shift)) ++ t).
Proof.
  intros Hlen Hu8 Hshift. revert k.
  induction fuel as [|fuel IH]; intros k Hk Hfuel Hbelow.
  - assert (Z.to_nat (NUM_SAMPLES - shift) = k) as -> by lia.
    simpl. destruct (Z.ltb_spec (Z.of_nat k) (NUM_SAMPLES - shift)); [lia|done].
  - destruct (Z.eq_dec (Z.of_nat k) (NUM_SAMPLES - shift)) as [Heq|Hne].
    + assert (Z.to_nat (NUM_SAMPLES - shift) = k) as -> by lia.
      simpl. destruct (Z.ltb_spec (Z.of_nat k) (NUM_SAMPLES - shift)); [lia|done].
    + rewrite interference_pwr_loop_S; try done; try lia.
      * cbv zeta. specialize (Hbelow (S k) ltac:(lia)) as Hsk.
        destruct (Z.gtb_spec (partial_power array shift (S k)) INTERFERENCE_THRESHOLD); [lia|].
        apply (IH (S k)); [lia|lia|done].
      * split; [by apply partial_power_nonneg|apply Hbelow; lia].
Qed.

Lemma interference_pwr_loop_above fuel shift array k n t :
  Z.of_nat (length array) = NUM_SAMPLES -> Forall is_u8 array -> 0 <= shift ->
  (k < n)%nat -> Z.of_nat n <= NUM_SAMPLES - shift ->
  (n - k <= fuel)%nat ->
  (forall m, (m < n)%nat -> partial_power array shift m <= INTERFERENCE_THRESHOLD) ->
  partial_power array shift n > INTERFERENCE_THRESHOLD ->
  interference_pwr_loop fuel shift array (Z.of_nat k) (partial_power array shift k)
      (pwr_trace shift k ++ t)
    = (Ok INT_MAX, pwr_trace shift n ++ t).
Proof.
  intros Hlen Hu8 Hshift. revert k.
  induction fuel as [|fuel IH]; intros k Hk Hn Hfuel Hbelow Habove; [lia|].
  rewrite interference_pwr_loop_S; try done; try lia.
  - cbv zeta. destruct (decide (S k = n)) as [<-|Hne].
    + destruct (Z.gtb_spec (partial_power array shift (S k)) INTERFERENCE_THRESHOLD); [done|lia].
    + specialize (Hbelow (S k) ltac:(lia)) as Hsk.
      destruct (Z.gtb_spec (partial_power array shift (S k)) INTERFERENCE_THRESHOLD); [lia|].
      apply (IH (S k)); [lia|lia|lia|done|done].
  - split; [by apply partial_power_nonneg|apply Hbelow; lia].
Qed.

(** A partial sum above the threshold has a first one. *)
Lemma first_above array shift n :
  (forall m, (m <= n)%nat -> partial_power array shift m <= INTERFERENCE_THRESHOLD) \/
  exists n0, (n0 <= n)%nat /\ partial_power array shift n0 > INTERFERENCE_THRESHOLD /\
    forall m, (m < n0)%nat -> partial_power array shift m <= INTERFERENCE_THRESHOLD.
Proof.
  induction n as [|n [IH|(n0 & Hn0 & Habove & Hbelow)]].
  - left. intros m Hm. assert (m = 0%nat) as -> by lia. simpl. unfold INTERFERENCE_THRESHOLD. lia.
  - destruct (Z.le_gt_cases (partial_power array shift (S n)) INTERFERENCE_THRESHOLD)
      as [Hle|Hgt].
    + left. intros m Hm. destruct (decide (m = S n)) as [->|Hne]; [done|]. apply IH. lia.
    + right. exists (S n). split; [lia|]. split; [lia|]. intros m Hm. apply IH. lia.
  - right. exists n0. split; [lia|done].
Qed.

(** C1: on a signal of [NUM_SAMPLES] unsigned 8-bit samples and for a
    shift of [0, NUM_SAMPLES), [calculate_interference_pwr] returns the sum
    of [|signal[k] - signal[k + shift]|] over [k] in
    [0, NUM_SAMPLES - shift) when no partial sum of the series exceeds
    [INTERFERENCE_THRESHOLD]; and when one does, it returns [INT_MAX], in
    the iteration that makes the first such partial sum and without
    reading any further sample. *)
Theorem calculate_interference_pwr_spec fuel shift signal t :
  (1500 <= fuel)%nat ->
  Z.of_nat (length signal) = NUM_SAMPLES -> Forall is_u8 signal ->
  0 <= shift < NUM_SAMPLES ->
  let N := Z.to_nat (NUM_SAMPLES - shift) in
  ((forall n, (n <= N)%nat -> partial_power signal shift n <= INTERFERENCE_THRESHOLD) ->
   calculate_interference_pwr fuel shift signal t
     = (Ok (partial_power signal shift N), pwr_trace shift N ++ t)) /\
  (forall n, (n <= N)%nat ->
     partial_power signal shift n > INTERFERENCE_THRESHOLD ->
     (forall m, (m < n)%nat -> partial_power signal shift m <= INTERFERENCE_THRESHOLD) ->
     calculate_interference_pwr fuel shift signal t = (Ok INT_MAX, pwr_trace shift n ++ t)) /\
  ((exists n, (n <= N)%nat /\ partial_power signal shift n > INTERFERENCE_THRESHOLD) ->
   fst (calculate_interference_pwr fuel shift signal t) = Ok INT_MAX).
Proof.
  intros Hfuel Hlen Hu8 Hshift N. unfold calculate_interference_pwr.
  assert (forall n, (n <= N)%nat ->
            partial_power signal shift n > INTERFERENCE_THRESHOLD ->
            (forall m, (m < n)%nat -> partial_power signal shift m <= INTERFERENCE_THRESHOLD) ->
            interference_pwr_loop fuel shift signal 0 0 t = (Ok INT_MAX, pwr_trace shift n ++ t))
    as Habove.
  { intros n Hn Hgt Hbelow.
    assert (0 < n)%nat as Hpos.
    { destruct n; [simpl in Hgt; unfold INTERFERENCE_THRESHOLD in Hgt|]; lia. }
    apply (interference_pwr_loop_above fuel shift signal 0 n t); try done; try lia.
    unfold NUM_SAMPLES in *. lia. }
  split; [|split; [exact Habove|]].
  - intros Hbelow.
    apply (interference_pwr_loop_below fuel shift signal 0 t); try done;
      unfold NUM_SAMPLES in *; try lia.
    intros m Hm. apply Hbelow. lia.
  - intros (n & Hn & Hgt).
    destruct (first_above signal shift n) as [Hbelow|(n0 & Hn0 & Hgt0 & Hbelow0)].
    + specialize (Hbelow n ltac:(lia)). lia.
    + by rewrite (Habove n0 ltac:(lia) Hgt0 Hbelow0).
Qed.

Lemma example_signal_u8 : Forall is_u8 example_signal.
Proof.
  apply Forall_fmap, Forall_forall. intros k _. unfold is_u8. simpl.
  pose proof (Z.mod_pos_bound (Z.of_nat k) 100 ltac:(lia)). lia.
Defined.

Lemma calculate_interference_pwr_spec_witness :
  let N := Z.to_nat (NUM_SAMPLES - 100) in
  ((forall n, (n <= N)%nat -> partial_power example_signal 100 n <= INTERFERENCE_THRESHOLD) ->
   calculate_interference_pwr 1500 100 example_signal []
     = (Ok (partial_power example_signal 100 N), pwr_trace 100 N ++ [])) /\
  (forall n, (n <= N)%nat ->
     partial_power example_signal 100 n > INTERFERENCE_THRESHOLD ->
     (forall m, (m < n)%nat -> partial_power example_signal 100 m <= INTERFERENCE_THRESHOLD) ->
     calculate_interference_pwr 1500 100 example_signal []
       = (Ok INT_MAX, pwr_trace 100 n ++ [])) /\
  ((exists n, (n <= N)%nat /\ partial_power example_signal 100 n > INTERFERENCE_THRESHOLD) ->
   fst (calculate_interference_pwr 1500 100 example_signal []) = Ok INT_MAX).
Proof.
  apply (calculate_interference_pwr_spec 1500 100 example_signal []).
  - lia.
  - reflexivity.
  - exact example_signal_u8.
  - unfold NUM_SAMPLES. lia.
Defined.

(** ** Binary32 rounding of positive numbers in the normal range *)

Lemma digits2_pos_size p : digits2_pos p = Pos.size p.
Proof. induction p as [p IH|p IH|]; simpl; by rewrite ?IH. Qed.

Lemma Zdigits2_bounds p :
  2 ^ (Z.pos (digits2_pos p) - 1) <= Z.pos p < 2 ^ Z.pos (digits2_pos p).
Proof.
  rewrite digits2_pos_size. split.
  - pose proof (Pos.size_le p) as H.
    apply Pos2Z.pos_le_pos in H. rewrite Pos2Z.inj_pow in H.
    replace (Z.pos (Pos.size p)) with (Z.succ (Z.pos (Pos.size p) - 1)) in H by lia.
    rewrite Z.pow_succ_r in H by lia. lia.
  - pose proof (Pos.size_gt p) as H.
    apply Pos2Z.pos_lt_pos in H. by rewrite Pos2Z.inj_pow in H.
Qed.

Lemma Zdigits2_unique p d :
  2 ^ (d - 1) <= Z.pos p < 2 ^ d -> Z.pos (digits2_pos p) = d.
Proof.
  intros [Hlo Hhi]. pose proof (Zdigits2_bounds p) as [Hlo' Hhi'].
  assert (0 < d).
  { destruct (Z.lt_ge_cases 0 d); [done|].
    destruct (Z.eq_dec d 0) as [->|]; [simpl in Hhi; lia|].
    rewrite Z.pow_neg_r in Hhi by lia. lia. }
  assert (d - 1 < Z.pos (digits2_pos p)).
  { apply (Z.pow_lt_mono_r_iff 2); lia. }
  assert (Z.pos (digits2_pos p) - 1 < d).
  { apply (Z.pow_lt_mono_r_iff 2); lia. }
  lia.
Qed.

Lemma shr_1_m r : 0 <= shr_m r -> shr_m (shr_1 r) = shr_m r / 2.
Proof.
  destruct r as [m r s]. simpl. intros Hm.
  destruct m as [|p|p]; [done| |lia].
  destruct p as [p|p|]; simpl.
  - rewrite Pos2Z.inj_xI. apply (Z.div_unique _ _ _ 1); lia.
  - rewrite Pos2Z.inj_xO. apply (Z.div_unique _ _ _ 0); lia.
  - done.
Qed.

Lemma iter_pos_shr_1_m p r :
  0 <= shr_m r -> shr_m (SpecFloat.iter_pos shr_1 p r) = shr_m r / 2 ^ Z.pos p.
Proof.
  revert r. induction p as [p IH|p IH|]; intros r Hr; simpl SpecFloat.iter_pos.
  - assert (0 <= shr_m (shr_1 r)) as H1 by (rewrite shr_1_m by done; apply Z.div_pos; lia).
    assert (0 <= shr_m (SpecFloat.iter_pos shr_1 p (shr_1 r))) as H2
      by (rewrite IH by done; apply Z.div_pos; lia).
    rewrite IH, IH, shr_1_m by done.
    rewrite !Z.div_div by lia. f_equal.
    replace (Z.pos p~1) with (Z.pos p + Z.pos p + 1) by lia.
    rewrite !Z.pow_add_r by lia. change (2 ^ 1) with 2. ring.
  - assert (0 <= shr_m (SpecFloat.iter_pos shr_1 p r)) as H2
      by (rewrite IH by done; apply Z.div_pos; lia).
    rewrite IH, IH by done. rewrite Z.div_div by lia. f_equal.
    replace (Z.pos p~0) with (Z.pos p + Z.pos p) by lia.
    by rewrite Z.pow_add_r by lia.
  - rewrite shr_1_m by done. done.
Qed.

Lemma iter_xO m d : Z.pos (Pos.iter xO m d) = Z.pos m * 2 ^ Z.pos d.
Proof.
  induction d as [|d IH] using Pos.peano_ind.
  - simpl. lia.
  - rewrite Pos.iter_succ, Pos2Z.inj_succ, Z.pow_succ_r by lia.
    replace (Z.pos (Pos.iter xO m d)~0) with (2 * Z.pos (Pos.iter xO m d)) by lia.
    rewrite IH. ring.
Qed.

(** Shifting right to 24 digits. *)
Lemma shr_fexp_normal m e l :
  24 <= Z.pos (digits2_pos m) -> -149 <= e + Z.pos (digits2_pos m) - 24 ->
  exists r,
    shr_fexp F32.prec F32.emax (Z.pos m) e l = (r, e + Z.pos (digits2_pos m) - 24) /\
    shr_m r = Z.pos m / 2 ^ (Z.pos (digits2_pos m) - 24) /\
    (Z.pos (digits2_pos m) = 24 -> r = shr_record_of_loc (Z.pos m) l).
Proof.
  intros Hd He. unfold shr_fexp, fexp, emin, F32.prec, F32.emax. simpl Zdigits2.
  set (d := Z.pos (digits2_pos m)) in *.
  replace (Z.max (d + e - 24) (3 - 128 - 24) - e) with (d - 24) by lia.
  assert (shr_m (shr_record_of_loc (Z.pos m) l) = Z.pos m) as Hm
    by (by destruct l as [|[]]).
  unfold shr. destruct (d - 24) as [|n|n] eqn:Hn; [| |lia].
  - eexists. split; [f_equal; lia|]. split; [|done]. rewrite Hm. by rewrite Z.div_1_r.
  - eexists. split; [f_equal; lia|]. split; [|lia].
    rewrite iter_pos_shr_1_m by (rewrite Hm; lia). by rewrite Hm.
Qed.

Lemma round_nearest_even_cases m l :
  round_nearest_even m l = m \/ round_nearest_even m l = m + 1.
Proof. destruct l as [|[]]; simpl; try tauto. destruct (Z.even m); tauto. Qed.

Lemma div_pow_bounds m :
  24 <= Z.pos (digits2_pos m) ->
  2 ^ 23 <= Z.pos m / 2 ^ (Z.pos (digits2_pos m) - 24) < 2 ^ 24.
Proof.
  intros Hd. pose proof (Zdigits2_bounds m) as [Hlo Hhi].
  set (d := Z.pos (digits2_pos m)) in *.
  replace d with ((d - 24) + 24) in Hhi by lia.
  replace (d - 1) with ((d - 24) + 23) in Hlo by lia.
  rewrite Z.pow_add_r in Hlo, Hhi by lia.
  assert (0 < 2 ^ (d - 24)) by (apply Z.pow_pos_nonneg; lia). split.
  - apply Z.div_le_lower_bound; lia.
  - apply Z.div_lt_upper_bound; lia.
Qed.

Lemma digits_range p lo hi :
  0 <= lo -> 2 ^ lo <= Z.pos p < 2 ^ hi -> lo < Z.pos (digits2_pos p) <= hi.
Proof.
  intros Hlo [H1 H2]. pose proof (Zdigits2_bounds p) as [H3 H4].
  assert (0 <= hi).
  { destruct (Z.lt_ge_cases hi 0); [|done]. rewrite Z.pow_neg_r in H2; lia. }
  split.
  - apply (Z.pow_lt_mono_r_iff 2); lia.
  - enough (Z.pos (digits2_pos p) - 1 < hi) by lia.
    apply (Z.pow_lt_mono_r_iff 2); lia.
Qed.

(** Rounding a positive number of at least 24 digits whose exponent stays
    in the normal range gives a normal positive number. *)
Lemma binary_round_aux_normal m e l :
  24 <= Z.pos (digits2_pos m) -> -149 <= e + Z.pos (digits2_pos m) - 24 <= 103 ->
  normal_pos (e + Z.pos (digits2_pos m) - 24) (e + Z.pos (digits2_pos m) - 23)
    (binary_round_aux F32.prec F32.emax false (Z.pos m) e l).
Proof.
  intros Hd He. unfold binary_round_aux.
  destruct (shr_fexp_normal m e l Hd ltac:(lia)) as (r & -> & Hr & _).
  pose proof (div_pow_bounds m Hd) as Hr'. rewrite <- Hr in Hr'.
  set (d := Z.pos (digits2_pos m)) in *. set (e1 := e + d - 24) in *.
  set (m2 := round_nearest_even (shr_m r) (loc_of_shr_record r)).
  assert (2 ^ 23 <= m2 < 2 ^ 25) as Hm2.
  { subst m2. change (2 ^ 25) with (2 * 2 ^ 24).
    destruct (round_nearest_even_cases (shr_m r) (loc_of_shr_record r)) as [->| ->]; lia. }
  destruct m2 as [|p2|p2] eqn:Hp2; [vm_compute (2 ^ 23) in Hm2; lia| |lia].
  pose proof (digits_range p2 23 25 ltac:(lia) Hm2) as Hd2.
  destruct (shr_fexp_normal p2 e1 loc_Exact ltac:(lia) ltac:(lia)) as (r2 & -> & Hr2 & _).
  pose proof (div_pow_bounds p2 ltac:(lia)) as Hr2'. rewrite <- Hr2 in Hr2'.
  destruct (shr_m r2) as [|p3|p3]; [vm_compute (2 ^ 23) in Hr2'; lia| |lia].
  unfold F32.emax, F32.prec.
  destruct (Z.leb_spec (e1 + Z.pos (digits2_pos p2) - 24) (128 - 24)); [|lia].
  exists p3, (e1 + Z.pos (digits2_pos p2) - 24). split; [done|]. split; [|lia].
  apply Zdigits2_unique. simpl (24 - 1). lia.
Qed.

Lemma normal_pos_weaken lo hi lo' hi' x :
  lo' <= lo -> hi <= hi' -> normal_pos lo hi x -> normal_pos lo' hi' x.
Proof. intros Hlo Hhi (m & e & -> & Hd & He). exists m, e. repeat split; (done || lia). Qed.

Lemma shl_align_fst m e e' :
  e' <= e -> Z.pos (fst (shl_align m e e')) = Z.pos m * 2 ^ (e - e').
Proof.
  intros He. unfold shl_align. destruct (e' - e) as [|d|d] eqn:Hd; simpl.
  - replace (e - e') with 0 by lia. simpl. lia.
  - lia.
  - rewrite iter_xO. f_equal. f_equal. lia.
Qed.

Lemma shl_align_id m e e' : e <= e' -> shl_align m e e' = (m, e).
Proof. intros He. unfold shl_align. destruct (e' - e) eqn:Hd; (done || lia). Qed.

Lemma mantissa_bounds m : Z.pos (digits2_pos m) = 24 -> 8388608 <= Z.pos m < 16777216.
Proof. intros Hd. pose proof (Zdigits2_bounds m) as H. rewrite Hd in H. exact H. Qed.

(** The sum of two normal positive numbers is one. *)
Lemma add_normal lo hi x y :
  -149 <= lo -> hi <= 102 ->
  normal_pos lo hi x -> normal_pos lo hi y -> normal_pos lo (hi + 2) (F32.add x y).
Proof.
  intros Hlo Hhi (mx & ex & -> & Hdx & Hex) (my & ey & -> & Hdy & Hey).
  pose proof (mantissa_bounds mx Hdx) as Hmx. pose proof (mantissa_bounds my Hdy) as Hmy.
  unfold F32.add, SFadd, cond_Zopp.
  set (ez := Z.min ex ey).
  set (a := fst (shl_align mx ex ez)). set (b := fst (shl_align my ey ez)).
  assert (Z.pos a = Z.pos mx * 2 ^ (ex - ez)) as Ha by (apply shl_align_fst; lia).
  assert (Z.pos b = Z.pos my * 2 ^ (ey - ez)) as Hb by (apply shl_align_fst; lia).
  change (Z.pos a + Z.pos b) with (Z.pos (a + b)). unfold binary_normalize, binary_round.
  set (D := Z.max ex ey - ez).
  assert (2 ^ (23 + D) <= Z.pos (a + b) < 2 ^ (25 + D)) as Hsum.
  { rewrite Pos2Z.inj_add, Ha, Hb. rewrite !Z.pow_add_r by lia.
    change (2 ^ 23) with 8388608. change (2 ^ 25) with 33554432.
    assert (0 < 2 ^ D) by (apply Z.pow_pos_nonneg; lia).
    destruct (Z.le_ge_cases ex ey).
    - replace (ex - ez) with 0 by lia. replace (ey - ez) with D by lia.
      rewrite Z.pow_0_r. nia.
    - replace (ey - ez) with 0 by lia. replace (ex - ez) with D by lia.
      rewrite Z.pow_0_r. nia. }
  pose proof (digits_range (a + b) (23 + D) (25 + D) ltac:(lia) Hsum) as Hd.
  rewrite shl_align_id.
  - eapply normal_pos_weaken; [| |apply binary_round_aux_normal]; lia.
  - unfold fexp, emin, F32.prec, F32.emax. lia.
Qed.

(** The quotient of two normal positive numbers is one. *)
Lemma div_normal lo1 hi1 lo2 hi2 x y :
  -149 <= lo1 - hi2 - 24 -> hi1 - lo2 - 22 <= 104 ->
  normal_pos lo1 hi1 x -> normal_pos lo2 hi2 y ->
  normal_pos (lo1 - hi2 - 24) (hi1 - lo2 - 22) (F32.div x y).
Proof.
  intros Hlo Hhi (mx & ex & -> & Hdx & Hex) (my & ey & -> & Hdy & Hey).
  pose proof (mantissa_bounds mx Hdx) as Hmx. pose proof (mantissa_bounds my Hdy) as Hmy.
  unfold F32.div, SFdiv, SFdiv_core_binary. simpl Zdigits2. rewrite Hdx, Hdy.
  unfold fexp, emin, F32.prec, F32.emax.
  replace (Z.min (Z.max (24 + ex - (24 + ey) - 24) (3 - 128 - 24)) (ex - ey))
    with (ex - ey - 24) by lia.
  replace (ex - ey - (ex - ey - 24)) with 24 by lia.
  rewrite Z.shiftl_mul_pow2 by lia. change (2 ^ 24) with 16777216.
  destruct (Z.div_eucl (Z.pos mx * 16777216) (Z.pos my)) as [q r] eqn:Hqr.
  assert (q = Z.pos mx * 16777216 / Z.pos my) as Hq by (unfold Z.div; by rewrite Hqr).
  assert (2 ^ 23 <= q < 2 ^ 25) as Hqb.
  { change (2 ^ 23) with 8388608. change (2 ^ 25) with 33554432. rewrite Hq. split.
    - apply Z.div_le_lower_bound; lia.
    - apply Z.div_lt_upper_bound; lia. }
  destruct q as [|pq|pq]; [vm_compute (2 ^ 23) in Hqb; lia| |lia].
  pose proof (digits_range pq 23 25 ltac:(lia) Hqb) as Hd.
  simpl xorb.
  eapply normal_pos_weaken; [| |apply binary_round_aux_normal]; lia.
Qed.

Lemma normal_posb_true lo hi x : normal_posb lo hi x = true -> normal_pos lo hi x.
Proof.
  destruct x as [| | |[] m e]; try done. unfold normal_posb.
  rewrite !andb_true_iff, Z.eqb_eq, !Z.leb_le. intros [[? ?] ?]. by exists m, e.
Qed.

Lemma normal_pos_is_pos lo hi x : normal_pos lo hi x -> F32.is_pos x = true.
Proof. by intros (m & e & -> & _). Qed.

Lemma normal_pos_nonzero lo hi x : normal_pos lo hi x -> F32.is_zero x = false.
Proof. by intros (m & e & -> & _). Qed.

Lemma normal_pos_finite lo hi x : normal_pos lo hi x -> F32.is_finite x = true.
Proof. by intros (m & e & -> & _). Qed.

Lemma of_Z_small_normal r :
  1 <= r <= 255 -> normal_pos (-23) (-16) (F32.of_Z r).
Proof.
  intros Hr. apply normal_posb_true.
  assert (forallb (fun r => normal_posb (-23) (-16) (F32.of_Z r)) (seqZ 1 255) = true) as H
    by (vm_compute; reflexivity).
  rewrite forallb_forall in H. apply H. apply list_elem_of_In, elem_of_seqZ. lia.
Qed.

Lemma of_Z_peak_normal p :
  15 <= p < 1250 -> normal_pos (-20) (-13) (F32.of_Z p).
Proof.
  intros Hr. apply normal_posb_true.
  assert (forallb (fun r => normal_posb (-20) (-13) (F32.of_Z r)) (seqZ 15 1235) = true) as H
    by (vm_compute; reflexivity).
  rewrite forallb_forall in H. apply H. apply list_elem_of_In, elem_of_seqZ. lia.
Qed.

(** ** [calculate_avg_wavelength] *)

Lemma rank_normalized_sum_snoc ps p :
  rank_normalized_sum (ps ++ [p])
    = F32.add (rank_normalized_sum ps) (rank_normalized p (Z.of_nat (length ps) + 1)).
Proof.
  unfold rank_normalized_sum. rewrite imap_app, foldl_app. simpl.
  by rewrite Nat.add_0_r.
Qed.

Lemma avg_wavelength_loop_spec fuel peaks n k t :
  (k <= n)%nat -> Z.of_nat n <= 255 -> (n <= length peaks)%nat -> (n - k <= fuel)%nat ->
  exists tr,
    avg_wavelength_loop fuel peaks (Z.of_nat n) (Z.of_nat k)
        (rank_normalized_sum (take k peaks)) t
      = (Ok (rank_normalized_sum (take n peaks)), tr ++ t) /\
    Forall (fun a => exists i, a = Rd Peaks i /\ 0 <= i < Z.of_nat n) tr.
Proof.
  intros Hk Hn Hlen. revert k t Hk.
  induction fuel as [|fuel IH]; intros k t Hk Hfuel; simpl.
  - assert (k = n) as -> by lia. rewrite Z.ltb_irrefl. by exists [].
  - destruct (Z.ltb_spec (Z.of_nat k) (Z.of_nat n)) as [Hlt|Hge].
    + destruct (get_lt_Some peaks (Z.of_nat k)) as [p Hp]; [lia|].
      rewrite (bind_Ok _ _ _ _ _ (read_Ok _ _ _ _ _ Hp)).
      rewrite u8_small by lia.
      assert (take (S k) peaks = take k peaks ++ [p]) as Htake.
      { apply take_S_r. unfold get in Hp. destruct (Z.of_nat k <? 0); [done|].
        by rewrite Nat2Z.id in Hp. }
      fold (rank_normalized p (Z.of_nat k + 1)).
      replace (F32.add (rank_normalized_sum (take k peaks)) (rank_normalized p (Z.of_nat k + 1)))
        with (rank_normalized_sum (take (S k) peaks)).
      2:{ rewrite Htake, rank_normalized_sum_snoc, length_take. do 3 f_equal. lia. }
      replace (Z.of_nat k + 1) with (Z.of_nat (S k)) by lia.
      destruct (IH (S k) (Rd Peaks (Z.of_nat k) :: t)) as (tr & -> & Htr); [lia|lia|].
      exists (tr ++ [Rd Peaks (Z.of_nat k)]). split; [by rewrite <- app_assoc|].
      apply Forall_app. split; [done|]. apply Forall_cons. split; [|done].
      eexists. split; [done|lia].
    + assert (k = n) as -> by lia. by exists [].
Qed.

Lemma calculate_avg_wavelength_eq fuel peaks peak_count t :
  0 <= peak_count <= 255 -> peak_count <= Z.of_nat (length peaks) ->
  peak_count <= Z.of_nat fuel ->
  exists tr,
    calculate_avg_wavelength fuel peaks peak_count t
      = (Ok (avg_wavelength_value peaks peak_count), tr ++ t) /\
    (peak_count = 0 -> tr = []).
Proof.
  intros Hc Hlen Hfuel. unfold calculate_avg_wavelength, avg_wavelength_value.
  destruct (Z.eqb_spec peak_count 0) as [->|Hne]; [by exists []|].
  destruct (avg_wavelength_loop_spec fuel peaks (Z.to_nat peak_count) 0 t)
    as (tr & Hloop & _); try lia.
  rewrite Z2Nat.id in Hloop by lia. simpl take in Hloop.
  change (Z.of_nat 0) with 0 in Hloop.
  change (rank_normalized_sum []) with (F32.of_Z 0) in Hloop.
  rewrite (bind_Ok _ _ _ _ _ Hloop). exists tr. split; [done|lia].
Qed.

(** C2: [calculate_avg_wavelength] returns [DEFAULT_VAL] as a [float] for an
    empty peak list, an ordinary result obtained without any access, and
    otherwise the sum over the ranks [r = 1 .. n] of [peaks[r - 1] / r],
    divided by the peak count [n], all in binary32 and added in scan
    order. *)
Theorem calculate_avg_wavelength_spec fuel peaks peak_count t :
  0 <= peak_count <= 255 -> peak_count <= Z.of_nat (length peaks) ->
  peak_count <= Z.of_nat fuel ->
  exists tr,
    calculate_avg_wavelength fuel peaks peak_count t
      = (Ok (if peak_count =? 0 then F32.of_Z 100
             else F32.div (rank_normalized_sum (take (Z.to_nat peak_count) peaks))
                          (F32.of_Z peak_count)),
         tr ++ t) /\
    (peak_count = 0 -> tr = []).
Proof.
  intros Hc Hlen Hfuel. unfold calculate_avg_wavelength.
  destruct (Z.eqb_spec peak_count 0) as [->|Hne]; [by exists []|].
  destruct (avg_wavelength_loop_spec fuel peaks (Z.to_nat peak_count) 0 t)
    as (tr & Hloop & _); try lia.
  rewrite Z2Nat.id in Hloop by lia. simpl take in Hloop.
  change (Z.of_nat 0) with 0 in Hloop.
  change (rank_normalized_sum []) with (F32.of_Z 0) in Hloop.
  rewrite (bind_Ok _ _ _ _ _ Hloop). exists tr. split; [done|lia].
Qed.

Lemma calculate_avg_wavelength_spec_witness :
  exists tr,
    calculate_avg_wavelength 3 [100; 201; 299; 0; 0; 0; 0; 0; 0; 0] 3 []
      = (Ok (if 3 =? 0 then F32.of_Z 100
             else F32.div (rank_normalized_sum
                             (take (Z.to_nat 3) [100; 201; 299; 0; 0; 0; 0; 0; 0; 0]))
                          (F32.of_Z 3)),
         tr ++ []) /\
    (3 = 0 -> tr = []).
Proof.
  apply (calculate_avg_wavelength_spec 3 [100; 201; 299; 0; 0; 0; 0; 0; 0; 0] 3 []).
  - lia.
  - simpl. lia.
  - lia.
Defined.

(** ** The interference profile built by [calculate_freq] *)

Lemma calculate_interference_pwr_value fuel shift signal t :
  (1500 <= fuel)%nat ->
  Z.of_nat (length signal) = NUM_SAMPLES -> Forall is_u8 signal ->
  0 <= shift < NUM_SAMPLES ->
  exists tr,
    calculate_interference_pwr fuel shift signal t
      = (Ok (interference_value signal shift), tr ++ t).
Proof.
  intros Hfuel Hlen Hu8 Hshift. unfold calculate_interference_pwr, interference_value.
  set (N := Z.to_nat (NUM_SAMPLES - shift)).
  assert (Z.of_nat N = NUM_SAMPLES - shift) as HN by (unfold N; lia).
  destruct (first_above signal shift N) as [Hbelow|(n0 & Hn0 & Hgt & Hbelow)].
  - rewrite (proj2 (forallb_forall _ _)).
    + exists (pwr_trace shift N).
      apply (interference_pwr_loop_below fuel shift signal 0 t); try done;
        unfold NUM_SAMPLES in *; try lia.
      intros m Hm. apply Hbelow. lia.
    + intros n Hn%in_seq. apply Z.leb_le, Hbelow. lia.
  - destruct (forallb _ _) eqn:Hall.
    + rewrite forallb_forall in Hall. specialize (Hall n0). rewrite in_seq in Hall.
      specialize (Hall ltac:(lia)). apply Z.leb_le in Hall. lia.
    + exists (pwr_trace shift n0).
      assert (0 < n0)%nat as Hpos.
      { destruct n0; [simpl in Hgt; unfold INTERFERENCE_THRESHOLD in Hgt|]; lia. }
      apply (interference_pwr_loop_above fuel shift signal 0 n0 t); try done; try lia.
      unfold NUM_SAMPLES in *. lia.
Qed.

Lemma interference_fill_spec fuel0 fuel signal interference shift t :
  (1500 <= fuel0)%nat ->
  Z.of_nat (length signal) = NUM_SAMPLES -> Forall is_u8 signal ->
  Z.of_nat (length interference) = NUM_SAMPLES ->
  0 <= shift <= NUM_SAMPLES -> NUM_SAMPLES - shift <= Z.of_nat fuel ->
  (forall j, 0 <= j < shift -> get interference j = Some (interference_value signal j)) ->
  exists interference' tr,
    interference_fill fuel0 fuel signal interference shift t = (Ok interference', tr ++ t) /\
    Z.of_nat (length interference') = NUM_SAMPLES /\
    forall j, 0 <= j < NUM_SAMPLES ->
      get interference' j = Some (interference_value signal j).
Proof.
  intros Hfuel0 Hlen Hu8. revert interference shift t.
  induction fuel as [|fuel IH]; intros interference shift t Hl Hs Hfuel Hdone; simpl.
  - destruct (Z.ltb_spec shift NUM_SAMPLES); [lia|]. exists interference, [].
    split; [done|]. split; [done|]. intros j Hj. apply Hdone. lia.
  - destruct (Z.ltb_spec shift NUM_SAMPLES) as [Hlt|Hge].
    + destruct (calculate_interference_pwr_value fuel0 shift signal t Hfuel0 Hlen Hu8 ltac:(lia))
        as (tr1 & Hpwr).
      rewrite (bind_Ok _ _ _ _ _ Hpwr).
      rewrite (bind_Ok _ _ _ _ _ (write_Ok Interference interference shift _ _ ltac:(lia))).
      rewrite u16_small by (unfold NUM_SAMPLES in *; lia).
      edestruct (IH (<[Z.to_nat shift := interference_value signal shift]> interference)
                   (shift + 1)) as (interference' & tr & -> & Hl' & Hall).
      * rewrite length_insert. lia.
      * lia.
      * lia.
      * intros j Hj. destruct (Z.eq_dec shift j) as [<-|Hne].
        -- apply get_insert_eq. lia.
        -- rewrite get_insert_ne by lia. apply Hdone. lia.
      * exists interference', (tr ++ Wr Interference shift (interference_value signal shift) :: tr1).
        split; [|done]. by rewrite <- app_assoc.
    + exists interference, []. split; [done|].
      split; [done|]. intros j Hj. apply Hdone. lia.
Qed.

(** ** Constant signals and flat profiles *)

Lemma get_replicate_inv n (x : Z) i v : get (replicate n x) i = Some v -> v = x.
Proof.
  unfold get. destruct (i <? 0); [done|]. by intros [-> _]%lookup_replicate.
Qed.

Lemma eq_replicate (l : list Z) n x :
  Z.of_nat (length l) = Z.of_nat n ->
  (forall j, 0 <= j < Z.of_nat n -> get l j = Some x) -> l = replicate n x.
Proof.
  intros Hl Hall. apply list_eq. intros i.
  destruct (decide (i < n)%nat) as [Hlt|Hge].
  - rewrite lookup_replicate_2 by done. specialize (Hall (Z.of_nat i) ltac:(lia)).
    unfold get in Hall. destruct (Z.of_nat i <? 0); [done|]. by rewrite Nat2Z.id in Hall.
  - rewrite !lookup_ge_None_2; [done|rewrite length_replicate; lia|lia].
Qed.

Lemma sumZ_replicate n x : sumZ (replicate n x) = Z.of_nat n * x.
Proof. induction n as [|n IH]; simpl; [done|]. rewrite IH. lia. Qed.

Lemma window_mean_replicate n a j :
  0 <= j -> j + SMA_WIDTH + 1 <= Z.of_nat n -> window_mean (replicate n a) j = a.
Proof.
  intros Hj Hn. unfold window_mean, window, SMA_WIDTH in *.
  rewrite drop_replicate, take_replicate, sumZ_replicate.
  replace (Z.to_nat (20 + 1) `min` (n - Z.to_nat j))%nat with 21%nat by lia.
  change (Z.of_nat 21) with 21. change (20 + 1) with 21.
  rewrite Z.mul_comm. apply Z.quot_mul. lia.
Qed.

Lemma partial_power_replicate n a shift k : partial_power (replicate n a) shift k = 0.
Proof.
  induction k as [|k IH]; simpl; [done|]. rewrite IH. unfold diff_at.
  destruct (get _ (Z.of_nat k)) as [x|] eqn:Hx; [|done].
  destruct (get _ (Z.of_nat k + shift)) as [y|] eqn:Hy; [|done].
  apply get_replicate_inv in Hx, Hy. subst. lia.
Qed.

Lemma interference_value_replicate n a shift : interference_value (replicate n a) shift = 0.
Proof.
  unfold interference_value. rewrite (proj2 (forallb_forall _ _)).
  - apply partial_power_replicate.
  - intros k _. by rewrite partial_power_replicate.
Qed.

(** On a profile whose values are all equal, the scan never finds a
    candidate: it ends with the peak list it was given, having written
    nothing. *)
Lemma calculate_peaks_loop_flat fuel0 fuel array c0 s t :
  (15 <= fuel0)%nat -> SHIFT_LIMIT <= Z.of_nat (length array) ->
  (forall i v, get array i = Some v -> v = c0) ->
  window_inv array s -> 1230 - scan_i s <= 15 * Z.of_nat fuel ->
  exists s' tr,
    calculate_peaks_loop fuel0 fuel array s t = (Ok s', tr ++ t) /\
    peaks s' = peaks s /\ peak_count s' = peak_count s /\
    Forall (fun a => exists b i, a = Rd b i) tr.
Proof.
  intros Hfuel0 Hlen Hflat. revert s t.
  induction fuel as [|fuel IH]; intros s t Hwin Hfuel.
  - destruct Hwin as [(k & Hk & Hi) _ _]. unfold PEAK_SEARCH_RANGE in Hi.
    simpl. unfold scan_guard, SHIFT_LIMIT, PEAK_SEARCH_RANGE.
    destruct (Z.ltb_spec (scan_i s) (1250 - 15 - 15)); [lia|]. by exists s, [].
  - rewrite calculate_peaks_loop_S. destruct (scan_guard s) eqn:Hg; [|by exists s, []].
    destruct (calculate_peaks_body_eq fuel0 array s t Hfuel0 Hlen Hwin Hg)
      as (next & vp & vc & vn & vq & tr1 & tr2 & _ & _ & Hvp & Hvc & _ & _ & _ &
          Hrd1 & Hrd2 & Hbody).
    rewrite (Hflat _ _ Hvp), (Hflat _ _ Hvc), Z.ltb_irrefl in Hbody. simpl in Hbody.
    destruct (calculate_peaks_body_windows _ _ _ _ _ _ Hfuel0 Hlen Hwin Hg Hbody)
      as (_ & _ & _ & Hcont).
    destruct (Hcont _ eq_refl) as [_ Hwin'].
    rewrite (bind_Ok _ _ _ _ _ Hbody).
    destruct (IH (scan_incr (slide s next)) (tr2 ++ tr1 ++ t) Hwin')
      as (s' & tr & -> & Hps & Hc & Htr).
    + destruct Hwin as [(k & Hk & Hi) _ _].
      unfold scan_guard, SHIFT_LIMIT, PEAK_SEARCH_RANGE in *. apply Z.ltb_lt in Hg.
      simpl. unfold PEAK_SEARCH_RANGE. rewrite u16_small by lia. lia.
    + exists s', (tr ++ tr2 ++ tr1). split; [by rewrite <- !app_assoc|].
      split; [done|]. split; [done|].
      repeat (apply Forall_app; split); try done.
      all: eapply Forall_impl; [eassumption|]; intros a (i & -> & _); eauto.
Qed.

Lemma calculate_peaks_flat fuel peaks0 peak_count0 array c0 t :
  (81 <= fuel)%nat -> SHIFT_LIMIT <= Z.of_nat (length array) ->
  (forall i v, get array i = Some v -> v = c0) ->
  exists tr,
    calculate_peaks fuel peaks0 peak_count0 array t = (Ok (peaks0, peak_count0), tr ++ t) /\
    Forall (fun a => exists b i, a = Rd b i) tr.
Proof.
  intros Hfuel Hlen Hflat. unfold calculate_peaks.
  destruct (scan_init_spec fuel peaks0 peak_count0 array t ltac:(lia) Hlen)
    as (s0 & tr0 & Hinit & Hwin & Hi & Hps & Hc & Hrd).
  rewrite (bind_Ok _ _ _ _ _ Hinit).
  destruct (calculate_peaks_loop_flat fuel fuel array c0 s0 (tr0 ++ t) ltac:(lia) Hlen Hflat Hwin)
    as (s' & tr & Hloop & Hps' & Hc' & Htr).
  - rewrite Hi. unfold PEAK_SEARCH_RANGE. lia.
  - rewrite (bind_Ok _ _ _ _ _ Hloop). exists (tr ++ tr0).
    split; [unfold ret; by rewrite Hps', Hc', Hps, Hc, <- app_assoc|].
    apply Forall_app. split; [done|].
    eapply Forall_impl; [exact Hrd|]. intros a (i & -> & _). eauto.
Qed.

(** ** The average wavelength is a positive normal number *)

Lemma rank_normalized_normal p r :
  15 <= p < 1250 -> 1 <= r <= 255 -> normal_pos (-28) (-12) (rank_normalized p r).
Proof.
  intros Hp Hr. unfold rank_normalized.
  apply (div_normal (-20) (-13) (-23) (-16)); [lia|lia| |].
  - by apply of_Z_peak_normal.
  - by apply of_Z_small_normal.
Qed.

Lemma rank_normalized_sum_normal ps :
  ps <> [] -> (length ps <= 10)%nat -> Forall (fun p => 15 <= p < 1250) ps ->
  normal_pos (-28) (-14 + 2 * Z.of_nat (length ps)) (rank_normalized_sum ps).
Proof.
  induction ps as [|p l IH] using rev_ind; [done|]. intros _ Hlen Hall.
  rewrite length_app in *. simpl in Hlen. apply Forall_app in Hall as [Hl Hp].
  apply Forall_cons in Hp as [Hp _].
  rewrite rank_normalized_sum_snoc.
  pose proof (rank_normalized_normal p (Z.of_nat (length l) + 1) Hp ltac:(lia)) as Hrn.
  destruct l as [|q l'] eqn:El.
  - change (rank_normalized_sum []) with (S754_zero false).
    destruct Hrn as (m & e & -> & Hm & He). simpl. exists m, e. split; [done|]. split; [done|lia].
  - rewrite <- El in *. assert (l <> []) as Hne by (by rewrite El).
    specialize (IH Hne ltac:(lia) Hl).
    assert (1 <= length l)%nat by (rewrite El; simpl; lia).
    eapply normal_pos_weaken; [| |apply (add_normal (-28) (-14 + 2 * Z.of_nat (length l)))];
      try lia; [simpl; lia|done|].
    eapply normal_pos_weaken; [| |exact Hrn]; lia.
Qed.

Lemma avg_wavelength_value_normal ps c :
  0 <= c <= 10 -> c <= Z.of_nat (length ps) ->
  Forall (fun p => 15 <= p < 1250) (take (Z.to_nat c) ps) ->
  normal_pos (-36) 7 (avg_wavelength_value ps c).
Proof.
  intros Hc Hlen Hall. unfold avg_wavelength_value.
  destruct (Z.eqb_spec c 0) as [->|Hne].
  - apply normal_posb_true. vm_compute. reflexivity.
  - apply (div_normal (-28) 6 (-23) (-16)); [lia|lia| |apply of_Z_small_normal; lia].
    eapply normal_pos_weaken; [| |apply rank_normalized_sum_normal]; try done.
    + rewrite length_take. lia.
    + intros Hnil. apply (f_equal length) in Hnil. rewrite length_take in Hnil.
      simpl in Hnil. lia.
    + rewrite length_take. lia.
Qed.

Lemma frequency_normal avg :
  normal_pos (-36) 7 avg -> normal_pos (-39) 6 (F32.div (F32.of_Z FS) avg).
Proof.
  intros Havg. apply (div_normal (-8) (-8) (-36) 7); [lia|lia| |done].
  apply normal_posb_true. vm_compute. reflexivity.
Qed.

(** The peaks of a finished scan, as stored, are at least
    [PEAK_SEARCH_RANGE]. *)
Lemma final_ok_peaks ps c tr :
  final_ok ps c tr ->
  Forall (fun p => 15 <= p < 1250) (take (Z.to_nat c) ps) /\
  (forall i v, (i, v) ∈ peak_writes tr -> PEAK_SEARCH_RANGE <= v).
Proof.
  intros [[Hc Hl Hacc Hwr Hb Hs] _].
  assert (Forall (fun p => 15 <= p < 1250) (take (Z.to_nat c) ps)) as Hb'.
  { eapply Forall_impl; [exact Hb|]. unfold SHIFT_LIMIT, PEAK_SEARCH_RANGE. simpl. lia. }
  split; [done|]. intros i v Hin. rewrite Hwr in Hin. unfold numbered in Hin.
  apply elem_of_lookup_imap in Hin as (k & p & Heq & Hp). injection Heq as -> ->.
  rewrite Forall_forall in Hb. apply (Hb p). by eapply list_elem_of_lookup_2.
Qed.

(** ** The claims about [calculate_freq] *)

(** The whole of [calculate_freq], step by step. *)
Lemma calculate_freq_steps fuel interference0 peaks0 signal t :
  (1500 <= fuel)%nat ->
  Z.of_nat (length signal) = NUM_SAMPLES -> Forall is_u8 signal ->
  Z.of_nat (length interference0) = NUM_SAMPLES ->
  Z.of_nat (length peaks0) = PEAK_TRACKING_LIMIT ->
  exists interference ps c tr1 tr2 tr3,
    interference_fill fuel fuel signal interference0 0 t = (Ok interference, tr1 ++ t) /\
    Z.of_nat (length interference) = NUM_SAMPLES /\
    (forall j, 0 <= j < NUM_SAMPLES ->
       get interference j = Some (interference_value signal j)) /\
    calculate_peaks fuel peaks0 0 interference (tr1 ++ t) = (Ok (ps, c), tr2 ++ tr1 ++ t) /\
    final_ok ps c tr2 /\
    calculate_avg_wavelength fuel ps c (tr2 ++ tr1 ++ t)
      = (Ok (avg_wavelength_value ps c), tr3 ++ tr2 ++ tr1 ++ t) /\
    calculate_freq fuel interference0 peaks0 signal t
      = (Ok (F32.div (F32.of_Z FS) (avg_wavelength_value ps c)), tr3 ++ tr2 ++ tr1 ++ t).
Proof.
  intros Hfuel Hlen Hu8 Hl0 Hp0.
  destruct (interference_fill_spec fuel fuel signal interference0 0 t Hfuel Hlen Hu8 Hl0)
    as (interference & tr1 & Hfill & Hl & Hall); [unfold NUM_SAMPLES; lia..|].
  destruct (calculate_peaks_spec fuel peaks0 interference (tr1 ++ t))
    as (ps & c & tr2 & Hpeaks & Hfin);
    [lia|unfold SHIFT_LIMIT, NUM_SAMPLES in *; lia|unfold PEAK_TRACKING_LIMIT in *; lia|].
  pose proof Hfin as [[Hc Hlps _ _ _ _] _]. unfold PEAK_TRACKING_LIMIT in Hc.
  destruct (calculate_avg_wavelength_eq fuel ps c (tr2 ++ tr1 ++ t)) as (tr3 & Havg & _);
    [lia..|].
  exists interference, ps, c, tr1, tr2, tr3. do 6 (split; [done|]).
  unfold calculate_freq.
  rewrite (bind_Ok _ _ _ _ _ Hfill), (bind_Ok _ _ _ _ _ Hpeaks). simpl fst. simpl snd.
  by rewrite (bind_Ok _ _ _ _ _ Havg).
Qed.

(** C9: every peak index that [calculate_peaks] records, in any call, is
    at least [PEAK_SEARCH_RANGE]; started with an empty peak list, the
    average wavelength computed from the recorded peaks is a finite,
    strictly positive binary32 number; and in [calculate_freq] the divisor
    of [FS / avg_wavelength] is that number, not a zero, the quotient
    being finite too. *)
Theorem avg_wavelength_positive fuel profile signal interference0 peaks0 t :
  (1500 <= fuel)%nat ->
  Z.of_nat (length profile) = NUM_SAMPLES ->
  Z.of_nat (length signal) = NUM_SAMPLES -> Forall is_u8 signal ->
  Z.of_nat (length interference0) = NUM_SAMPLES ->
  Z.of_nat (length peaks0) = PEAK_TRACKING_LIMIT ->
  (forall peaks1 peak_count1, exists tr,
     snd (calculate_peaks fuel peaks1 peak_count1 profile t) = tr ++ t /\
     forall b i v, Wr b i v ∈ tr -> b = Peaks /\ PEAK_SEARCH_RANGE <= v) /\
  (exists ps c tr avg tr',
     calculate_peaks fuel peaks0 0 profile t = (Ok (ps, c), tr ++ t) /\
     Forall (fun p => PEAK_SEARCH_RANGE <= p) (take (Z.to_nat c) ps) /\
     (forall i v, (i, v) ∈ peak_writes tr -> PEAK_SEARCH_RANGE <= v) /\
     calculate_avg_wavelength fuel ps c (tr ++ t) = (Ok avg, tr' ++ tr ++ t) /\
     F32.is_pos avg = true /\ F32.is_finite avg = true) /\
  (exists interference ps c avg t1 t2 t3,
     interference_fill fuel fuel signal interference0 0 t = (Ok interference, t1) /\
     calculate_peaks fuel peaks0 0 interference t1 = (Ok (ps, c), t2) /\
     calculate_avg_wavelength fuel ps c t2 = (Ok avg, t3) /\
     F32.is_pos avg = true /\ F32.is_zero avg = false /\ F32.is_finite avg = true /\
     calculate_freq fuel interference0 peaks0 signal t
       = (Ok (F32.div (F32.of_Z FS) avg), t3) /\
     F32.is_finite (F32.div (F32.of_Z FS) avg) = true).
Proof.
  intros Hfuel Hlp Hlen Hu8 Hl0 Hp0. split; [|split].
  - intros peaks1 peak_count1.
    destruct (calculate_peaks_reads fuel peaks1 peak_count1 profile t)
      as (tr & Htr & Hok); [lia|unfold SHIFT_LIMIT, NUM_SAMPLES in *; lia|].
    exists tr. split; [done|]. intros b i v Hin.
    rewrite Forall_forall in Hok. destruct (Hok _ Hin) as [-> Hv]. split; [done|lia].
  - destruct (calculate_peaks_spec fuel peaks0 profile t)
      as (ps & c & tr & Hpeaks & Hfin);
      [lia|unfold SHIFT_LIMIT, NUM_SAMPLES in *; lia|unfold PEAK_TRACKING_LIMIT in *; lia|].
    pose proof Hfin as [[Hc Hlps _ _ _ _] _]. unfold PEAK_TRACKING_LIMIT in Hc.
    destruct (final_ok_peaks ps c tr Hfin) as [Hb Hwr].
    destruct (calculate_avg_wavelength_eq fuel ps c (tr ++ t)) as (tr' & Havg & _); [lia..|].
    pose proof (avg_wavelength_value_normal ps c Hc ltac:(lia) Hb) as Hn.
    exists ps, c, tr, (avg_wavelength_value ps c), tr'.
    split; [done|]. split.
    { eapply Forall_impl; [exact Hb|]. unfold PEAK_SEARCH_RANGE. simpl. lia. }
    split; [done|]. split; [done|].
    split; [by eapply normal_pos_is_pos|by eapply normal_pos_finite].
  - destruct (calculate_freq_steps fuel interference0 peaks0 signal t Hfuel Hlen Hu8 Hl0 Hp0)
      as (interference & ps & c & tr1 & tr2 & tr3 & Hfill & _ & _ & Hpeaks & Hfin & Havg & Hfreq).
    pose proof Hfin as [[Hc Hlps _ _ _ _] _]. unfold PEAK_TRACKING_LIMIT in Hc.
    destruct (final_ok_peaks ps c tr2 Hfin) as [Hb _].
    pose proof (avg_wavelength_value_normal ps c Hc ltac:(lia) Hb) as Hn.
    exists interference, ps, c, (avg_wavelength_value ps c), (tr1 ++ t), (tr2 ++ tr1 ++ t),
      (tr3 ++ tr2 ++ tr1 ++ t).
    do 3 (split; [done|]).
    split; [by eapply normal_pos_is_pos|]. split; [by eapply normal_pos_nonzero|].
    split; [by eapply normal_pos_finite|]. split; [done|].
    eapply normal_pos_finite. by apply frequency_normal.
Qed.

Lemma avg_wavelength_positive_witness :
  (forall peaks1 peak_count1, exists tr,
     snd (calculate_peaks 1500 peaks1 peak_count1 example_profile []) = tr ++ [] /\
     forall b i v, Wr b i v ∈ tr -> b = Peaks /\ PEAK_SEARCH_RANGE <= v) /\
  (exists ps c tr avg tr',
     calculate_peaks 1500 (replicate 10 0) 0 example_profile [] = (Ok (ps, c), tr ++ []) /\
     Forall (fun p => PEAK_SEARCH_RANGE <= p) (take (Z.to_nat c) ps) /\
     (forall i v, (i, v) ∈ peak_writes tr -> PEAK_SEARCH_RANGE <= v) /\
     calculate_avg_wavelength 1500 ps c (tr ++ []) = (Ok avg, tr' ++ tr ++ []) /\
     F32.is_pos avg = true /\ F32.is_finite avg = true) /\
  (exists interference ps c avg t1 t2 t3,
     interference_fill 1500 1500 example_signal (replicate 1500 0) 0 []
       = (Ok interference, t1) /\
     calculate_peaks 1500 (replicate 10 0) 0 interference t1 = (Ok (ps, c), t2) /\
     calculate_avg_wavelength 1500 ps c t2 = (Ok avg, t3) /\
     F32.is_pos avg = true /\ F32.is_zero avg = false /\ F32.is_finite avg = true /\
     calculate_freq 1500 (replicate 1500 0) (replicate 10 0) example_signal []
       = (Ok (F32.div (F32.of_Z FS) avg), t3) /\
     F32.is_finite (F32.div (F32.of_Z FS) avg) = true).
Proof.
  apply (avg_wavelength_positive 1500 example_profile example_signal
           (replicate 1500 0) (replicate 10 0) []).
  - lia.
  - reflexivity.
  - reflexivity.
  - exact example_signal_u8.
  - reflexivity.
  - reflexivity.
Defined.

(** C5: for a raw window whose [NUM_SAMPLES + SMA_WIDTH] samples all equal
    one amplitude [a], every smoothed sample is [a];
    [calculate_interference_pwr] returns 0 for every shift of
    [0, NUM_SAMPLES), so that the profile built by [calculate_freq] is
    all zeros; on that profile [calculate_peaks] records no peak; and
    [calculate_freq] returns [FS / DEFAULT_VAL], which is 440. *)
Theorem constant_signal_default_frequency fuel a samples0 interference0 peaks0 t :
  (1500 <= fuel)%nat -> is_u8 a ->
  Z.of_nat (length samples0) = NUM_SAMPLES ->
  Z.of_nat (length interference0) = NUM_SAMPLES ->
  Z.of_nat (length peaks0) = PEAK_TRACKING_LIMIT ->
  let raw := replicate (Z.to_nat (NUM_SAMPLES + SMA_WIDTH)) a in
  let signal := replicate (Z.to_nat NUM_SAMPLES) a in
  let profile := replicate (Z.to_nat NUM_SAMPLES) 0 in
  (exists tr, smooth fuel raw samples0 t = (Ok signal, tr ++ t)) /\
  (forall shift, 0 <= shift < NUM_SAMPLES ->
     fst (calculate_interference_pwr fuel shift signal t) = Ok 0) /\
  (exists tr, interference_fill fuel fuel signal interference0 0 t = (Ok profile, tr ++ t)) /\
  (exists tr,
     calculate_peaks fuel peaks0 0 profile t = (Ok (peaks0, 0), tr ++ t) /\
     peak_writes tr = []) /\
  fst (calculate_freq fuel interference0 peaks0 signal t)
    = Ok (F32.div (F32.of_Z FS) (F32.of_Z DEFAULT_VAL)) /\
  F32.div (F32.of_Z FS) (F32.of_Z DEFAULT_VAL) = F32.of_Z 440.
Proof.
  intros Hfuel Ha Hs0 Hl0 Hp0 raw signal profile.
  assert (Forall is_u8 raw) as Hraw by (by apply Forall_replicate).
  assert (Forall is_u8 signal) as Hsig by (by apply Forall_replicate).
  assert (Z.of_nat (length signal) = NUM_SAMPLES) as Hlsig
    by (unfold signal; rewrite length_replicate; unfold NUM_SAMPLES; lia).
  assert (forall i v, get profile i = Some v -> v = 0) as Hflat
    by (intros i v; apply get_replicate_inv).
  assert (SHIFT_LIMIT <= Z.of_nat (length profile)) as Hlprof
    by (unfold profile; rewrite length_replicate; unfold SHIFT_LIMIT, NUM_SAMPLES; lia).
  assert (exists tr, interference_fill fuel fuel signal interference0 0 t
                     = (Ok profile, tr ++ t)) as [tr1 Hfill].
  { destruct (interference_fill_spec fuel fuel signal interference0 0 t Hfuel Hlsig Hsig Hl0)
      as (interference & tr1 & Hfill & Hl & Hall); [unfold NUM_SAMPLES; lia..|].
    exists tr1. rewrite Hfill. do 2 f_equal. apply eq_replicate.
    - rewrite Hl. unfold NUM_SAMPLES. lia.
    - intros j Hj. rewrite Hall by (unfold NUM_SAMPLES in *; lia).
      unfold signal. by rewrite interference_value_replicate. }
  split; [|split; [|split; [by exists tr1|split; [|split]]]].
  - destruct (smooth_spec fuel raw samples0 t Hfuel) as (samples & tr & Heq & Hl & Hall);
      [unfold raw; rewrite length_replicate; unfold NUM_SAMPLES, SMA_WIDTH; lia|done|done|].
    exists tr. rewrite Heq. do 2 f_equal. apply eq_replicate.
    + rewrite Hl. unfold NUM_SAMPLES. lia.
    + intros j Hj. rewrite Hall by (unfold NUM_SAMPLES in *; lia). f_equal.
      apply window_mean_replicate; unfold NUM_SAMPLES, SMA_WIDTH in *; lia.
  - intros shift Hshift.
    destruct (calculate_interference_pwr_value fuel shift signal t Hfuel Hlsig Hsig Hshift)
      as (tr & ->).
    simpl. f_equal. apply interference_value_replicate.
  - destruct (calculate_peaks_flat fuel peaks0 0 profile 0 t ltac:(lia) Hlprof Hflat)
      as (tr & Heq & Htr).
    exists tr. split; [done|]. by apply peak_writes_only_reads.
  - unfold calculate_freq. rewrite (bind_Ok _ _ _ _ _ Hfill).
    destruct (calculate_peaks_flat fuel peaks0 0 profile 0 (tr1 ++ t) ltac:(lia) Hlprof Hflat)
      as (tr2 & Hpeaks & _).
    by rewrite (bind_Ok _ _ _ _ _ Hpeaks).
  - vm_compute. reflexivity.
Qed.

Lemma constant_signal_default_frequency_witness :
  let raw := replicate (Z.to_nat (NUM_SAMPLES + SMA_WIDTH)) 7 in
  let signal := replicate (Z.to_nat NUM_SAMPLES) 7 in
  let profile := replicate (Z.to_nat NUM_SAMPLES) 0 in
  (exists tr, smooth 1500 raw (replicate 1500 0) [] = (Ok signal, tr ++ [])) /\
  (forall shift, 0 <= shift < NUM_SAMPLES ->
     fst (calculate_interference_pwr 1500 shift signal []) = Ok 0) /\
  (exists tr, interference_fill 1500 1500 signal (replicate 1500 0) 0 []
              = (Ok profile, tr ++ [])) /\
  (exists tr,
     calculate_peaks 1500 (replicate 10 0) 0 profile [] = (Ok (replicate 10 0, 0), tr ++ []) /\
     peak_writes tr = []) /\
  fst (calculate_freq 1500 (replicate 1500 0) (replicate 10 0) signal [])
    = Ok (F32.div (F32.of_Z FS) (F32.of_Z DEFAULT_VAL)) /\
  F32.div (F32.of_Z FS) (F32.of_Z DEFAULT_VAL) = F32.of_Z 440.
Proof.
  apply (constant_signal_default_frequency 1500 7 (replicate 1500 0) (replicate 1500 0)
           (replicate 10 0) []).
  - lia.
  - unfold is_u8. lia.
  - reflexivity.
  - reflexivity.
  - reflexivity.
Defined.

(** * Further properties of [freq_analysis.c] *)

(** ** [min_in_range] on any window *)

(** X1: on a window [begin_index, begin_index + range) that lies inside the
    array, [min_in_range] returns the lowest index that holds the minimum
    of the window and reads no element outside the window; for an empty
    range it returns [begin_index] itself, without any access. *)
Theorem min_in_range_first_minimum fuel array begin_index range t :
  0 <= begin_index -> begin_index + range <= Z.of_nat (length array) ->
  begin_index + range < 65536 -> range <= Z.of_nat fuel ->
  (range <= 0 -> min_in_range fuel array begin_index range t = (Ok begin_index, t)) /\
  (0 < range ->
   exists m tr,
     min_in_range fuel array begin_index range t = (Ok m, tr ++ t) /\
     first_min array begin_index range m /\
     profile_reads_in begin_index (begin_index + range) tr /\
     forall m', first_min array begin_index range m' -> m' = m).
Proof.
  intros Hb Hlen H16 Hfuel. split.
  - intros Hr. unfold min_in_range. destruct fuel as [|fuel]; simpl.
    + destruct (Z.ltb_spec 0 range); [lia|done].
    + destruct (Z.ltb_spec 0 range); [lia|done].
  - intros Hr.
    destruct (min_in_range_spec fuel array begin_index range t Hb Hr Hlen H16 Hfuel)
      as (m & tr & Hrun & Hmin & Hreads).
    exists m, tr. split; [done|]. split; [done|]. split; [done|].
    intros m' Hm'. by apply (first_min_unique array begin_index range).
Qed.

Lemma min_in_range_first_minimum_witness :
  (3 <= 0 -> min_in_range 3 [5; 3; 4; 3; 9] 1 3 [] = (Ok 1, [])) /\
  (0 < 3 ->
   exists m tr,
     min_in_range 3 [5; 3; 4; 3; 9] 1 3 [] = (Ok m, tr ++ []) /\
     first_min [5; 3; 4; 3; 9] 1 3 m /\
     profile_reads_in 1 (1 + 3) tr /\
     forall m', first_min [5; 3; 4; 3; 9] 1 3 m' -> m' = m).
Proof.
  apply (min_in_range_first_minimum 3 [5; 3; 4; 3; 9] 1 3 []).
  - lia.
  - simpl. lia.
  - lia.
  - lia.
Defined.

(** ** The scan never takes the [break] of line 29 *)

(** X2: in every iteration of a call of [calculate_peaks], whatever the
    profile, a candidate is strictly lower than the element just before
    it, so the test of line 28 fails and no iteration ends by the [break]
    of line 29: an iteration goes on to the next window, returns with a
    full list, or faults on the store into [peaks]. *)
Theorem harmonic_rejection_never_taken fuel peaks0 peak_count0 array t0 s t :
  (15 <= fuel)%nat -> SHIFT_LIMIT <= Z.of_nat (length array) ->
  scan_reaches fuel peaks0 peak_count0 array t0 (s, t) -> scan_guard s = true ->
  (forall vp vc vq,
     get array (prev_min_index s) = Some vp ->
     get array (current_min_index s) = Some vc ->
     get array (current_min_index s - 1) = Some vq ->
     vc < vp -> vc < vq) /\
  0 < current_min_index s /\
  (forall t1, fst (predecessor_is_lower array (current_min_index s) t1) = Ok true ->
     forall vp vc, get array (prev_min_index s) = Some vp ->
       get array (current_min_index s) = Some vc -> vp <= vc) /\
  forall s' t', calculate_peaks_body fuel array s t <> (Ok (Break s'), t').
Proof.
  intros Hfuel Hlen Hreach Hg.
  pose proof (scan_reaches_windows _ _ _ _ _ _ _ Hfuel Hlen Hreach) as Hwin.
  assert (0 < current_min_index s) as Hpos.
  { destruct Hwin as [(k & Hk & Hi) _ [Hc _]]. unfold PEAK_SEARCH_RANGE in *. lia. }
  split; [|split; [done|split]].
  - intros vp vc vq. apply candidate_predecessor_not_lower. exact Hwin.
  - intros t1 Hlow vp vc Hvp Hvc.
    destruct (calculate_peaks_body_eq fuel array s t Hfuel Hlen Hwin Hg)
      as (_ & vp' & vc' & _ & vq & _ & _ & _ & _ & Hvp' & Hvc' & _ & Hvq & _).
    assert (vp' = vp) as -> by congruence. assert (vc' = vc) as -> by congruence.
    rewrite (predecessor_is_lower_spec array _ vq vc t1 Hpos Hvq Hvc) in Hlow.
    simpl in Hlow. assert ((vq <? vc) = true) as Hlt%Z.ltb_lt by congruence.
    destruct (Z.le_gt_cases vp vc) as [|Hgt]; [done|].
    pose proof (candidate_predecessor_not_lower array s vp vc vq Hwin Hvp Hvc Hvq). lia.
  - intros s' t'. by apply (scan_never_breaks fuel peaks0 peak_count0 array t0).
Qed.

Lemma harmonic_rejection_never_taken_witness :
  let s := fst example_start in
  let t := snd example_start in
  (forall vp vc vq,
     get example_profile (prev_min_index s) = Some vp ->
     get example_profile (current_min_index s) = Some vc ->
     get example_profile (current_min_index s - 1) = Some vq ->
     vc < vp -> vc < vq) /\
  0 < current_min_index s /\
  (forall t1, fst (predecessor_is_lower example_profile (current_min_index s) t1) = Ok true ->
     forall vp vc, get example_profile (prev_min_index s) = Some vp ->
       get example_profile (current_min_index s) = Some vc -> vp <= vc) /\
  forall s' t', calculate_peaks_body 15 example_profile s t <> (Ok (Break s'), t').
Proof.
  apply (harmonic_rejection_never_taken 15 (replicate 10 0) 0 example_profile []).
  - lia.
  - vm_compute. discriminate.
  - exact example_start_reached.
  - reflexivity.
Defined.

(** ** The value returned by [calculate_interference_pwr] *)

Lemma partial_power_mono array shift n m :
  Forall is_u8 array -> (n <= m)%nat ->
  partial_power array shift n <= partial_power array shift m.
Proof.
  intros Hu8 Hnm. induction Hnm as [|m _ IH]; [lia|].
  simpl. pose proof (diff_at_bounds array shift (Z.of_nat m) Hu8). lia.
Qed.

Lemma partial_power_cancel array shift n :
  (forall k, (k < n)%nat -> get array (Z.of_nat k + shift) = get array (Z.of_nat k)) ->
  partial_power array shift n = 0.
Proof.
  induction n as [|n IH]; intros Heq; [done|].
  simpl. rewrite IH by (intros k Hk; apply Heq; lia).
  unfold diff_at. rewrite (Heq n) by lia.
  destruct (get array (Z.of_nat n)) as [a|]; lia.
Qed.

Lemma calculate_interference_pwr_below fuel shift signal t :
  (1500 <= fuel)%nat ->
  Z.of_nat (length signal) = NUM_SAMPLES -> Forall is_u8 signal ->
  0 <= shift < NUM_SAMPLES ->
  (forall m, Z.of_nat m <= NUM_SAMPLES - shift ->
     partial_power signal shift m <= INTERFERENCE_THRESHOLD) ->
  calculate_interference_pwr fuel shift signal t
    = (Ok (partial_power signal shift (Z.to_nat (NUM_SAMPLES - shift))),
       pwr_trace shift (Z.to_nat (NUM_SAMPLES - shift)) ++ t).
Proof.
  intros Hfuel Hlen Hu8 Hshift Hbelow. unfold calculate_interference_pwr.
  apply (interference_pwr_loop_below fuel shift signal 0 t); try done;
    unfold NUM_SAMPLES in *; lia.
Qed.

Lemma calculate_interference_pwr_above fuel shift signal n t :
  (1500 <= fuel)%nat ->
  Z.of_nat (length signal) = NUM_SAMPLES -> Forall is_u8 signal ->
  0 <= shift < NUM_SAMPLES ->
  Z.of_nat n <= NUM_SAMPLES - shift ->
  (forall m, (m < n)%nat -> partial_power signal shift m <= INTERFERENCE_THRESHOLD) ->
  partial_power signal shift n > INTERFERENCE_THRESHOLD ->
  calculate_interference_pwr fuel shift signal t = (Ok INT_MAX, pwr_trace shift n ++ t).
Proof.
  intros Hfuel Hlen Hu8 Hshift Hn Hbelow Hgt. unfold calculate_interference_pwr.
  assert (0 < n)%nat as Hpos.
  { destruct n; [simpl in Hgt; unfold INTERFERENCE_THRESHOLD in Hgt|]; lia. }
  apply (interference_pwr_loop_above fuel shift signal 0 n t); try done; try lia.
  unfold NUM_SAMPLES in *. lia.
Qed.

(** X3: the early exit of line 74 does not change the result: the value
    returned is the complete sum of absolute differences when that sum is at
    most [INTERFERENCE_THRESHOLD], and [INT_MAX] when it is larger, because
    the partial sums never decrease. A profile value is therefore either
    [INT_MAX] or in [0, INTERFERENCE_THRESHOLD]. *)
Theorem interference_pwr_early_exit_transparent fuel shift signal t :
  (1500 <= fuel)%nat ->
  Z.of_nat (length signal) = NUM_SAMPLES -> Forall is_u8 signal ->
  0 <= shift < NUM_SAMPLES ->
  let total := partial_power signal shift (Z.to_nat (NUM_SAMPLES - shift)) in
  fst (calculate_interference_pwr fuel shift signal t)
    = Ok (if total >? INTERFERENCE_THRESHOLD then INT_MAX else total) /\
  exists v, fst (calculate_interference_pwr fuel shift signal t) = Ok v /\
    (v = INT_MAX \/ 0 <= v <= INTERFERENCE_THRESHOLD).
Proof.
  intros Hfuel Hlen Hu8 Hshift total.
  set (N := Z.to_nat (NUM_SAMPLES - shift)) in *.
  assert (fst (calculate_interference_pwr fuel shift signal t)
            = Ok (if total >? INTERFERENCE_THRESHOLD then INT_MAX else total)) as Hres.
  { destruct (first_above signal shift N) as [Hbelow|(n0 & Hn0 & Hgt & Hbelow)].
    - rewrite (calculate_interference_pwr_below fuel shift signal t); try done.
      + simpl. fold N. fold total.
        destruct (Z.gtb_spec total INTERFERENCE_THRESHOLD) as [Habove|]; [|done].
        specialize (Hbelow N ltac:(lia)). fold total in Hbelow. lia.
      + intros m Hm. apply Hbelow. lia.
    - rewrite (calculate_interference_pwr_above fuel shift signal n0 t); try done; [|lia].
      simpl. pose proof (partial_power_mono signal shift n0 N Hu8 Hn0) as Hmono.
      fold total in Hmono.
      destruct (Z.gtb_spec total INTERFERENCE_THRESHOLD); [done|lia]. }
  split; [exact Hres|]. rewrite Hres. eexists. split; [done|].
  pose proof (partial_power_nonneg signal shift N Hu8) as Hnn. fold total in Hnn.
  destruct (Z.gtb_spec total INTERFERENCE_THRESHOLD); [by left|right; lia].
Qed.

Lemma interference_pwr_early_exit_transparent_witness :
  let total := partial_power example_signal 7 (Z.to_nat (NUM_SAMPLES - 7)) in
  fst (calculate_interference_pwr 1500 7 example_signal [])
    = Ok (if total >? INTERFERENCE_THRESHOLD then INT_MAX else total) /\
  exists v, fst (calculate_interference_pwr 1500 7 example_signal []) = Ok v /\
    (v = INT_MAX \/ 0 <= v <= INTERFERENCE_THRESHOLD).
Proof.
  apply (interference_pwr_early_exit_transparent 1500 7 example_signal []).
  - lia.
  - reflexivity.
  - exact example_signal_u8.
  - unfold NUM_SAMPLES. lia.
Defined.

(** X4: a signal compared with itself gives no interference: at shift 0 the
    function reads every sample, never takes the early exit and returns 0,
    whatever the signal. *)
Theorem interference_pwr_zero_shift fuel signal t :
  (1500 <= fuel)%nat ->
  Z.of_nat (length signal) = NUM_SAMPLES -> Forall is_u8 signal ->
  calculate_interference_pwr fuel 0 signal t = (Ok 0, pwr_trace 0 1500 ++ t) /\
  forall i, 0 <= i < NUM_SAMPLES -> Rd Signal i ∈ pwr_trace 0 1500.
Proof.
  intros Hfuel Hlen Hu8.
  assert (forall n, partial_power signal 0 n = 0) as Hzero.
  { intros n. apply partial_power_cancel. intros k _. f_equal. lia. }
  split.
  - rewrite (calculate_interference_pwr_below fuel 0 signal t); try done.
    + by rewrite Hzero.
    + intros m _. rewrite Hzero. unfold INTERFERENCE_THRESHOLD. lia.
  - intros i Hi. unfold NUM_SAMPLES in Hi.
    assert (forall n, (Z.to_nat i < n)%nat -> Rd Signal i ∈ pwr_trace 0 n) as Hin.
    { induction n as [|n IH]; intros Hn; [lia|]. simpl.
      destruct (decide (Z.to_nat i = n)) as [<-|Hne].
      - rewrite Z2Nat.id by lia. apply list_elem_of_further, list_elem_of_here.
      - do 2 apply list_elem_of_further. apply IH. lia. }
    apply Hin. lia.
Qed.

Lemma interference_pwr_zero_shift_witness :
  calculate_interference_pwr 1500 0 example_signal [] = (Ok 0, pwr_trace 0 1500 ++ []) /\
  forall i, 0 <= i < NUM_SAMPLES -> Rd Signal i ∈ pwr_trace 0 1500.
Proof.
  apply (interference_pwr_zero_shift 1500 example_signal []).
  - lia.
  - reflexivity.
  - exact example_signal_u8.
Defined.

(** X5: a signal that repeats with period [P] cancels itself at every
    shift that is a multiple of [P]: the interference power at the shift
    [m * P] is 0. *)
Theorem interference_pwr_periodic_signal fuel signal P m t :
  (1500 <= fuel)%nat ->
  Z.of_nat (length signal) = NUM_SAMPLES -> Forall is_u8 signal ->
  0 < P -> 0 <= m -> m * P < NUM_SAMPLES ->
  (forall k, 0 <= k -> k + P < NUM_SAMPLES -> get signal (k + P) = get signal k) ->
  fst (calculate_interference_pwr fuel (m * P) signal t) = Ok 0.
Proof.
  intros Hfuel Hlen Hu8 HP Hm HmP Hper.
  assert (forall j, 0 <= j -> forall k, 0 <= k -> k + j * P < NUM_SAMPLES ->
            get signal (k + j * P) = get signal k) as Hmult.
  { intros j Hj. pattern j. apply natlike_ind; [| |exact Hj].
    - intros k _ _. f_equal. lia.
    - intros j' Hj' IH k Hk Hlt.
      replace (k + Z.succ j' * P) with ((k + j' * P) + P) by lia.
      rewrite Hper by nia. apply IH; nia. }
  assert (forall n, Z.of_nat n <= NUM_SAMPLES - m * P ->
            partial_power signal (m * P) n = 0) as Hzero.
  { intros n Hn. apply partial_power_cancel. intros k Hk. apply Hmult; lia. }
  rewrite (calculate_interference_pwr_below fuel (m * P) signal t); try done.
  - simpl. f_equal. apply Hzero. lia.
  - nia.
  - intros n Hn. rewrite Hzero by done. unfold INTERFERENCE_THRESHOLD. lia.
Qed.

Lemma interference_pwr_periodic_signal_witness :
  fst (calculate_interference_pwr 1500 (3 * 100) example_signal []) = Ok 0.
Proof.
  apply (interference_pwr_periodic_signal 1500 example_signal 100 3 []).
  - lia.
  - reflexivity.
  - exact example_signal_u8.
  - lia.
  - lia.
  - unfold NUM_SAMPLES. lia.
  - intros k Hk0 Hk. unfold NUM_SAMPLES in Hk.
    assert (forallb (fun k => bool_decide (get example_signal (k + 100) = get example_signal k))
              (seqZ 0 1400) = true) as Hall by (vm_compute; reflexivity).
    rewrite forallb_forall in Hall. specialize (Hall k).
    rewrite <- list_elem_of_In, elem_of_seqZ in Hall.
    apply bool_decide_eq_true in Hall; [done|lia].
Defined.

(** ** The smoothed sample stays within the samples it averages *)

Lemma sumZ_range lo hi l :
  Forall (fun x => lo <= x <= hi) l ->
  lo * Z.of_nat (length l) <= sumZ l <= hi * Z.of_nat (length l).
Proof. induction 1 as [|x l Hx _ IH]; simpl; lia. Qed.

Lemma window_Forall (P : Z -> Prop) array index n :
  0 <= index ->
  (forall j v, index <= j < index + n -> get array j = Some v -> P v) ->
  Forall P (window array index n).
Proof.
  intros Hi HP. apply Forall_lookup. intros k v Hk. unfold window in Hk.
  apply lookup_take_Some in Hk as [Hk Hlt]. rewrite lookup_drop in Hk.
  apply (HP (index + Z.of_nat k)); [lia|].
  unfold get. destruct (Z.ltb_spec (index + Z.of_nat k) 0); [lia|].
  by replace (Z.to_nat (index + Z.of_nat k)) with (Z.to_nat index + k)%nat by lia.
Qed.

(** X6: the value returned by [calculate_sma] lies between the smallest
    and the largest of the [SMA_WIDTH + 1] raw samples it averages: whenever
    all of them are in [lo, hi], so is the result. *)
Theorem calculate_sma_within_sample_range fuel index raw lo hi t :
  (21 <= fuel)%nat ->
  0 <= index -> index + SMA_WIDTH + 1 <= Z.of_nat (length raw) ->
  Forall is_u8 raw ->
  (forall j v, index <= j <= index + SMA_WIDTH -> get raw j = Some v -> lo <= v <= hi) ->
  exists v tr, calculate_sma fuel index raw t = (Ok v, tr ++ t) /\ lo <= v <= hi.
Proof.
  intros Hfuel Hi Hlen Hu8 Hrange.
  destruct (calculate_sma_spec fuel index raw t Hfuel Hi Hlen Hu8) as (tr & Hrun & _).
  exists (window_mean raw index), tr. split; [exact Hrun|].
  unfold window_mean.
  pose proof (window_length raw index (SMA_WIDTH + 1) Hi ltac:(unfold SMA_WIDTH; lia)
                ltac:(lia)) as Hwlen.
  assert (Forall (fun x => lo <= x <= hi) (window raw index (SMA_WIDTH + 1))) as Hall.
  { apply window_Forall; [done|]. intros j v Hj. apply Hrange. lia. }
  apply sumZ_range in Hall. rewrite Hwlen in Hall.
  pose proof (sumZ_bounds _ (window_u8 raw index (SMA_WIDTH + 1) Hu8)) as Hnn.
  unfold SMA_WIDTH in *. rewrite Z.quot_div_nonneg by lia.
  pose proof (Z.div_mod (sumZ (window raw index (20 + 1))) (20 + 1) ltac:(lia)) as Hdm.
  pose proof (Z.mod_pos_bound (sumZ (window raw index (20 + 1))) (20 + 1) ltac:(lia)).
  lia.
Qed.

Lemma calculate_sma_within_sample_range_witness :
  exists v tr,
    calculate_sma 21 2 (replicate 30 5) [] = (Ok v, tr ++ []) /\ 3 <= v <= 7.
Proof.
  apply (calculate_sma_within_sample_range 21 2 (replicate 30 5) 3 7 []).
  - lia.
  - lia.
  - simpl. unfold SMA_WIDTH. lia.
  - apply Forall_replicate. unfold is_u8. lia.
  - intros j v _ Hv. apply get_replicate_inv in Hv. lia.
Defined.

(** ** Peaks at the multiples of a period *)

Lemma harmonics_length P n : length (harmonics P n) = n.
Proof. unfold harmonics. by rewrite length_fmap, length_seq. Qed.

(** X7: when the recorded peaks are the multiples [P, 2 * P, ..., n * P] of
    one shift, all below [SHIFT_LIMIT], the rank-normalised average is
    exactly [P], without any rounding error: [calculate_avg_wavelength]
    returns the binary32 number [P], whatever follows the first [n] entries
    of [peaks]. *)
Theorem avg_wavelength_of_harmonics fuel P n rest t :
  1 <= P -> (1 <= n <= 10)%nat -> Z.of_nat n * P < SHIFT_LIMIT ->
  (n <= fuel)%nat ->
  fst (calculate_avg_wavelength fuel (harmonics P n ++ rest) (Z.of_nat n) t)
    = Ok (F32.of_Z P).
Proof.
  intros HP Hn HnP Hfuel.
  destruct (calculate_avg_wavelength_eq fuel (harmonics P n ++ rest) (Z.of_nat n) t)
    as (tr & -> & _); [lia|rewrite length_app, harmonics_length; lia|lia|].
  simpl. f_equal. unfold avg_wavelength_value.
  destruct (Z.eqb_spec (Z.of_nat n) 0) as [|_]; [lia|].
  rewrite Nat2Z.id, take_app_length' by (symmetry; apply harmonics_length).
  assert (forallb (fun n => forallb (fun P =>
            same_finite (F32.div (rank_normalized_sum (harmonics P n)) (F32.of_Z (Z.of_nat n)))
                        (F32.of_Z P)) (seqZ 1 (1249 / Z.of_nat n))) (seq 1 10) = true)
    as Hall by (vm_compute; reflexivity).
  rewrite forallb_forall in Hall. specialize (Hall n).
  rewrite <- list_elem_of_In, elem_of_seq in Hall. specialize (Hall ltac:(lia)).
  rewrite forallb_forall in Hall. specialize (Hall P).
  rewrite <- list_elem_of_In, elem_of_seqZ in Hall.
  assert (P <= 1249 / Z.of_nat n) as Hle.
  { apply Z.div_le_lower_bound; unfold SHIFT_LIMIT in *; lia. }
  specialize (Hall ltac:(lia)).
  destruct (F32.div _ _) as [| | |s m e], (F32.of_Z P) as [| | |s' m' e']; try done.
  unfold same_finite in Hall. apply andb_prop in Hall as [[Hs Hm]%andb_prop He].
  apply Bool.eqb_prop in Hs. apply Z.eqb_eq in Hm. apply Z.eqb_eq in He. congruence.
Qed.

Lemma avg_wavelength_of_harmonics_witness :
  fst (calculate_avg_wavelength 4 (harmonics 100 4 ++ [0; 0; 0; 0; 0; 0]) (Z.of_nat 4) [])
    = Ok (F32.of_Z 100).
Proof.
  apply (avg_wavelength_of_harmonics 4 100 4 [0; 0; 0; 0; 0; 0] []).
  - lia.
  - lia.
  - unfold SHIFT_LIMIT. lia.
  - lia.
Defined.

(** ** Spacing and frame of the recorded peaks *)

Lemma spaced_snoc l v :
  spaced l -> Forall (fun p => p + PEAK_SEARCH_RANGE < v) l -> spaced (l ++ [v]).
Proof.
  intros Hs Hall. apply StronglySorted_app_2; [|done|repeat constructor].
  intros x1 x2 Hx1 ->%list_elem_of_singleton.
  rewrite Forall_forall in Hall. by apply Hall.
Qed.

Lemma take_insert_snoc (ps : list Z) c v :
  0 <= c < Z.of_nat (length ps) ->
  take (Z.to_nat (c + 1)) (<[Z.to_nat c := v]> ps) = take (Z.to_nat c) ps ++ [v].
Proof.
  intros Hc. replace (Z.to_nat (c + 1)) with (S (Z.to_nat c)) by lia.
  rewrite (take_S_r _ _ v) by (apply list_lookup_insert_eq; lia).
  by rewrite take_insert_ge by lia.
Qed.

(** An iteration keeps the invariant. *)
Lemma calculate_peaks_body_spacing fuel array lo peaks0 s t fl t' :
  (15 <= fuel)%nat -> SHIFT_LIMIT <= Z.of_nat (length array) ->
  lo <= 2 * PEAK_SEARCH_RANGE ->
  window_inv array s -> scan_guard s = true ->
  0 <= peak_count s <= 9 -> length (peaks s) = 10%nat ->
  spacing_inv lo peaks0 array s ->
  calculate_peaks_body fuel array s t = (Ok fl, t') ->
  match fl with
  | Continue s' => spacing_inv lo peaks0 array (scan_incr s')
  | Break s' | Return s' => spacing_final lo peaks0 (peaks s') (peak_count s')
  end.
Proof.
  intros Hfuel Hlen Hlo Hwin Hg Hc Hl [[Hfr Hsp Hlow] Hlast Hlo'] Hbody.
  destruct (calculate_peaks_body_eq fuel array s t Hfuel Hlen Hwin Hg)
    as (next & vp & vc & vn & vq & tr1 & tr2 & _ & Hnext & Hvp & Hvc & Hvn & _ & _ & _ & _ &
        Heq).
  rewrite Heq in Hbody. clear Heq.
  destruct Hwin as [(k & Hk & Hi) Hprev Hcur].
  pose proof Hg as Hg'. unfold scan_guard in Hg'. apply Z.ltb_lt in Hg'.
  pose proof (proj1 Hcur) as Bc.
  unfold SHIFT_LIMIT, PEAK_SEARCH_RANGE in *.
  assert (u16 (scan_i s + 15) = scan_i s + 15) as Hu16 by (apply u16_small; lia).
  assert (spacing_inv lo peaks0 array (scan_incr (slide s next))) as Hslide.
  { split; simpl; unfold PEAK_SEARCH_RANGE; rewrite ?Hu16.
    - by split.
    - left. destruct Hlast as [Ha|[_ Hb]].
      + eapply Forall_impl; [exact Ha|]. simpl. intros; lia.
      + eapply Forall_impl; [exact Hb|]. simpl. intros; lia.
    - left. lia. }
  destruct (Z.ltb_spec vc vp) as [Hlt|Hge]; simpl in Hbody;
    [|by assert (fl = Continue (slide s next)) as -> by congruence].
  destruct (Z.ltb_spec vc vn) as [Hlt2|Hge2]; simpl in Hbody;
    [|by assert (fl = Continue (slide s next)) as -> by congruence].
  assert (~ blocked array s) as Hnb.
  { intros (vp' & vc' & Hvp' & Hvc' & Hle).
    assert (vp' = vp) by congruence. assert (vc' = vc) by congruence. lia. }
  destruct Hlast as [Ha|[Hb _]]; [|done]. destruct Hlo' as [Hlos|Hb]; [|done].
  destruct (vq <? vc).
  { assert (fl = Break s) as -> by congruence. by split. }
  destruct (append_peak_cases array s next vc
              (Rd Interference (current_min_index s)
               :: Rd Interference (current_min_index s - 1) :: tr2 ++ tr1 ++ t) Hvc)
    as [Hbad|(s' & Hi' & Hp' & Hc' & Hps' & Hn' & Happ)].
  { rewrite Hbad in Hbody. discriminate. }
  rewrite Happ in Hbody. clear Happ.
  rewrite (u8_small (peak_count s + 1)) in * by lia.
  replace (peak_count s + 1 - 1) with (peak_count s) in * by lia.
  assert (take (Z.to_nat (peak_count s')) (peaks s')
            = take (Z.to_nat (peak_count s)) (peaks s) ++ [current_min_index s]) as Htake.
  { rewrite Hps', Hn'. apply take_insert_snoc. lia. }
  assert (spacing_final lo peaks0 (peaks s') (peak_count s')) as Hfin.
  { split.
    - intros j Hj. rewrite Hps', get_insert_ne by lia. apply Hfr. lia.
    - rewrite Htake. apply spaced_snoc; [done|].
      eapply Forall_impl; [exact Ha|]. unfold PEAK_SEARCH_RANGE. simpl. intros; lia.
    - rewrite Htake. apply Forall_app. split; [done|].
      apply Forall_cons. split; [lia|by apply Forall_nil]. }
  destruct (peak_count s' >=? PEAK_TRACKING_LIMIT).
  { by assert (fl = Return s') as -> by congruence. }
  assert (fl = Continue (slide s' next)) as -> by congruence.
  assert (blocked array (scan_incr (slide s' next))) as Hb'.
  { exists vc, vn. simpl. rewrite Hc'. repeat split; (done || lia). }
  split; simpl; unfold PEAK_SEARCH_RANGE; rewrite ?Hi', ?Hu16.
  - done.
  - right. split; [done|]. rewrite Htake. apply Forall_app. split.
    + eapply Forall_impl; [exact Ha|]. simpl. intros; lia.
    + apply Forall_cons. split; [lia|by apply Forall_nil].
  - by right.
Qed.

Lemma calculate_peaks_loop_spacing fuel0 fuel array lo peaks0 s tr t0 s' t' :
  (15 <= fuel0)%nat -> SHIFT_LIMIT <= Z.of_nat (length array) ->
  lo <= 2 * PEAK_SEARCH_RANGE ->
  window_inv array s ->
  peaks_ok (scan_i s) 9 (peaks s) (peak_count s) tr ->
  spacing_inv lo peaks0 array s ->
  calculate_peaks_loop fuel0 fuel array s (tr ++ t0) = (Ok s', t') ->
  spacing_final lo peaks0 (peaks s') (peak_count s').
Proof.
  intros Hfuel0 Hlen Hlo. revert s tr.
  induction fuel as [|fuel IH]; intros s tr Hwin Hok Hsp Hloop.
  - simpl in Hloop. destruct (scan_guard s); [discriminate|].
    assert (s' = s) as -> by (unfold ret in Hloop; congruence). by destruct Hsp.
  - rewrite calculate_peaks_loop_S in Hloop. destruct (scan_guard s) eqn:Hg.
    + destruct (calculate_peaks_body_inv fuel0 array s tr t0 Hfuel0 Hlen Hwin Hg Hok)
        as (fl & tr' & Hbody & Hfl).
      pose proof (calculate_peaks_body_spacing fuel0 array lo peaks0 s (tr ++ t0) fl
                    (tr' ++ t0) Hfuel0 Hlen Hlo Hwin Hg (ok_count _ _ _ _ _ Hok)
                    (ok_len _ _ _ _ _ Hok) Hsp Hbody) as Hfl'.
      rewrite (bind_Ok _ _ _ _ _ Hbody) in Hloop. destruct fl as [s1|s1|s1].
      * destruct Hfl as (_ & Hwin' & Hok'). by apply (IH (scan_incr s1) tr').
      * by assert (s' = s1) as -> by (unfold ret in Hloop; congruence).
      * by assert (s' = s1) as -> by (unfold ret in Hloop; congruence).
    + assert (s' = s) as -> by (unfold ret in Hloop; congruence). by destruct Hsp.
Qed.

(** A call with an empty list: the result of the scan with the frame and
    the spacing of the recorded peaks. The lower bound [lo] is the window
    width, or twice the window width when the first comparison of line 24
    is blocked. *)
Lemma calculate_peaks_spacing fuel lo peaks0 array t0 :
  (81 <= fuel)%nat -> SHIFT_LIMIT <= Z.of_nat (length array) ->
  length peaks0 = 10%nat -> lo <= 2 * PEAK_SEARCH_RANGE ->
  (forall s0 t1, scan_init fuel peaks0 0 array t0 = (Ok s0, t1) ->
     lo <= PEAK_SEARCH_RANGE \/ blocked array s0) ->
  exists ps c tr,
    calculate_peaks fuel peaks0 0 array t0 = (Ok (ps, c), tr ++ t0) /\
    final_ok ps c tr /\ spacing_final lo peaks0 ps c.
Proof.
  intros Hfuel Hlen Hl Hlo Hfirst.
  destruct (calculate_peaks_spec fuel peaks0 array t0 Hfuel Hlen Hl)
    as (ps & c & tr & Hrun & Hfin).
  exists ps, c, tr. split; [exact Hrun|]. split; [exact Hfin|].
  unfold calculate_peaks in Hrun.
  destruct (scan_init_spec fuel peaks0 0 array t0 ltac:(lia) Hlen)
    as (s0 & tr0 & Hinit & Hwin & Hi & Hps & Hc & Hrd).
  rewrite (bind_Ok _ _ _ _ _ Hinit) in Hrun. unfold bind in Hrun.
  destruct (calculate_peaks_loop fuel fuel array s0 (tr0 ++ t0)) as [[s'| |] t'] eqn:Hloop;
    try discriminate.
  assert (ps = peaks s' /\ c = peak_count s') as [-> ->].
  { unfold ret in Hrun. split; congruence. }
  apply (calculate_peaks_loop_spacing fuel fuel array lo peaks0 s0 tr0 t0 s' t');
    try done; try lia.
  - rewrite Hps, Hc, Hi. split; simpl; try done.
    + by apply scan_access_ok_reads.
    + by rewrite (peak_writes_reads _ _ _ Hrd).
    + constructor.
  - split.
    + rewrite Hps, Hc. split; simpl; [done|constructor|constructor].
    + left. rewrite Hc. simpl. constructor.
    + rewrite Hi. destruct (Hfirst s0 (tr0 ++ t0) Hinit); [by left|by right].
Qed.

Lemma StronglySorted_lookup {A} (R : relation A) (l : list A) i j x y :
  StronglySorted R l -> (i < j)%nat -> l !! i = Some x -> l !! j = Some y -> R x y.
Proof.
  intros Hs. revert i j. induction Hs as [|a l Hs IH Hall]; intros i j Hij Hi Hj; [done|].
  destruct j as [|j]; [lia|]. destruct i as [|i]; simpl in *.
  - assert (a = x) as -> by congruence.
    rewrite Forall_forall in Hall. apply Hall. by eapply list_elem_of_lookup_2.
  - apply (IH i j); (done || lia).
Qed.

Lemma get_take (l : list Z) (n i : Z) : 0 <= i < n -> get (take (Z.to_nat n) l) i = get l i.
Proof.
  intros Hi. unfold get. destruct (Z.ltb_spec i 0); [lia|].
  apply lookup_take_lt. lia.
Qed.

(** X8: a call of [calculate_peaks] with an empty list stores into the
    positions below the count it returns only, one after the other; the
    entries of [peaks] from that position on keep the values they had
    before the call, as the header of the function promises. *)
Theorem calculate_peaks_keeps_unused_entries fuel peaks0 array t0 :
  (81 <= fuel)%nat -> SHIFT_LIMIT <= Z.of_nat (length array) ->
  Z.of_nat (length peaks0) = PEAK_TRACKING_LIMIT ->
  exists ps c tr,
    calculate_peaks fuel peaks0 0 array t0 = (Ok (ps, c), tr ++ t0) /\
    length ps = length peaks0 /\
    (forall j, c <= j -> get ps j = get peaks0 j) /\
    (forall i v, (i, v) ∈ peak_writes tr -> 0 <= i < c /\ get ps i = Some v).
Proof.
  intros Hfuel Hlen Hl. unfold PEAK_TRACKING_LIMIT in Hl.
  destruct (calculate_peaks_spacing fuel PEAK_SEARCH_RANGE peaks0 array t0 Hfuel Hlen)
    as (ps & c & tr & Hrun & [Hok _] & [Hfr _ _]).
  - lia.
  - unfold PEAK_SEARCH_RANGE. lia.
  - intros s0 t1 _. left. lia.
  - exists ps, c, tr. split; [exact Hrun|].
    destruct Hok as [Hc Hlps _ Hwr _ _]. split; [lia|]. split; [exact Hfr|].
    intros i v Hin. rewrite Hwr in Hin.
    apply elem_of_lookup_imap in Hin as (k & p & Heq & Hp). injection Heq as -> ->.
    apply lookup_take_Some in Hp as [Hp Hk]. split; [lia|].
    unfold get. destruct (Z.ltb_spec (Z.of_nat k) 0); [lia|]. by rewrite Nat2Z.id.
Qed.

Lemma calculate_peaks_keeps_unused_entries_witness :
  exists ps c tr,
    calculate_peaks 81 (replicate 10 7) 0 example_profile [] = (Ok (ps, c), tr ++ []) /\
    length ps = length (replicate 10 7) /\
    (forall j, c <= j -> get ps j = get (replicate 10 7) j) /\
    (forall i v, (i, v) ∈ peak_writes tr -> 0 <= i < c /\ get ps i = Some v).
Proof.
  apply (calculate_peaks_keeps_unused_entries 81 (replicate 10 7) example_profile []).
  - lia.
  - vm_compute. discriminate.
  - reflexivity.
Defined.

(** X9: two peaks recorded by a call of [calculate_peaks] are more than
    [PEAK_SEARCH_RANGE] shifts apart: a peak is never taken from the window
    that follows the window of another peak. *)
Theorem recorded_peaks_are_spaced fuel peaks0 array t0 :
  (81 <= fuel)%nat -> SHIFT_LIMIT <= Z.of_nat (length array) ->
  Z.of_nat (length peaks0) = PEAK_TRACKING_LIMIT ->
  exists ps c tr,
    calculate_peaks fuel peaks0 0 array t0 = (Ok (ps, c), tr ++ t0) /\
    spaced (take (Z.to_nat c) ps) /\
    forall i j p q, 0 <= i -> i < j -> j < c ->
      get ps i = Some p -> get ps j = Some q -> p + PEAK_SEARCH_RANGE < q.
Proof.
  intros Hfuel Hlen Hl. unfold PEAK_TRACKING_LIMIT in Hl.
  destruct (calculate_peaks_spacing fuel PEAK_SEARCH_RANGE peaks0 array t0 Hfuel Hlen)
    as (ps & c & tr & Hrun & _ & [_ Hsp _]).
  - lia.
  - unfold PEAK_SEARCH_RANGE. lia.
  - intros s0 t1 _. left. lia.
  - exists ps, c, tr. split; [exact Hrun|]. split; [exact Hsp|].
    intros i j p q Hi Hij Hj Hp Hq.
    rewrite <- (get_take ps c i) in Hp by lia. rewrite <- (get_take ps c j) in Hq by lia.
    unfold get in Hp, Hq.
    destruct (Z.ltb_spec i 0); [lia|]. destruct (Z.ltb_spec j 0); [lia|].
    apply (StronglySorted_lookup _ _ (Z.to_nat i) (Z.to_nat j) p q Hsp); (done || lia).
Qed.

Lemma recorded_peaks_are_spaced_witness :
  exists ps c tr,
    calculate_peaks 81 (replicate 10 0) 0 example_profile [] = (Ok (ps, c), tr ++ []) /\
    spaced (take (Z.to_nat c) ps) /\
    forall i j p q, 0 <= i -> i < j -> j < c ->
      get ps i = Some p -> get ps j = Some q -> p + PEAK_SEARCH_RANGE < q.
Proof.
  apply (recorded_peaks_are_spaced 81 (replicate 10 0) example_profile []).
  - lia.
  - vm_compute. discriminate.
  - reflexivity.
Defined.

(** ** The first window of the scan in [calculate_freq] *)

Lemma interference_value_nonneg signal shift :
  Forall is_u8 signal -> 0 <= interference_value signal shift.
Proof.
  intros Hu8. unfold interference_value. destruct (forallb _ _).
  - by apply partial_power_nonneg.
  - unfold INT_MAX. lia.
Qed.

Lemma interference_value_zero signal : interference_value signal 0 = 0.
Proof.
  assert (forall n, partial_power signal 0 n = 0) as Hzero.
  { intros n. apply partial_power_cancel. intros k _. f_equal. lia. }
  unfold interference_value. rewrite Hzero. by destruct (forallb _ _) eqn:Hall;
    [|rewrite (proj2 (forallb_forall _ _)) in Hall;
      [|intros n _; rewrite Hzero]].
Qed.

(** X10: in [calculate_freq] the profile holds 0 at shift 0 and nothing
    negative, so the minimum of the window [0, 15) is never above the one
    of the window [15, 30), which therefore never gives a peak: every peak
    recorded for the frequency estimate is a shift of
    [2 * PEAK_SEARCH_RANGE, SHIFT_LIMIT - PEAK_SEARCH_RANGE), and two of
    them are more than [PEAK_SEARCH_RANGE] apart. *)
Theorem calculate_freq_peaks_range fuel interference0 peaks0 signal t :
  (1500 <= fuel)%nat ->
  Z.of_nat (length signal) = NUM_SAMPLES -> Forall is_u8 signal ->
  Z.of_nat (length interference0) = NUM_SAMPLES ->
  Z.of_nat (length peaks0) = PEAK_TRACKING_LIMIT ->
  exists interference ps c t1 t2,
    interference_fill fuel fuel signal interference0 0 t = (Ok interference, t1) /\
    get interference 0 = Some 0 /\
    (forall j v, get interference j = Some v -> 0 <= v) /\
    calculate_peaks fuel peaks0 0 interference t1 = (Ok (ps, c), t2) /\
    Forall (fun p => 2 * PEAK_SEARCH_RANGE <= p < SHIFT_LIMIT - PEAK_SEARCH_RANGE)
      (take (Z.to_nat c) ps) /\
    spaced (take (Z.to_nat c) ps) /\
    fst (calculate_freq fuel interference0 peaks0 signal t)
      = Ok (F32.div (F32.of_Z FS) (avg_wavelength_value ps c)).
Proof.
  intros Hfuel Hlen Hu8 Hli Hlp.
  destruct (calculate_freq_steps fuel interference0 peaks0 signal t Hfuel Hlen Hu8 Hli Hlp)
    as (interference & ps & c & tr1 & tr2 & tr3 & Hfill & Hlint & Hval & Hpeaks & _ & _ &
        Hfreq).
  assert (forall j v, get interference j = Some v -> 0 <= v) as Hnn.
  { intros j v Hj. pose proof (get_Some_lt _ _ _ Hj) as Hlt.
    rewrite Hval in Hj by lia. injection Hj as <-. by apply interference_value_nonneg. }
  assert (get interference 0 = Some 0) as H0.
  { rewrite Hval by (unfold NUM_SAMPLES; lia). by rewrite interference_value_zero. }
  unfold PEAK_TRACKING_LIMIT, NUM_SAMPLES in *.
  destruct (calculate_peaks_spacing fuel (2 * PEAK_SEARCH_RANGE) peaks0 interference
              (tr1 ++ t)) as (ps' & c' & tr & Hrun & [Hok _] & [_ Hsp Hlow]).
  - lia.
  - unfold SHIFT_LIMIT. lia.
  - lia.
  - lia.
  - intros s0 t1 Hinit. right.
    destruct (scan_init_spec fuel peaks0 0 interference (tr1 ++ t) ltac:(lia)
                ltac:(unfold SHIFT_LIMIT; lia))
      as (s0' & tr0 & Hinit' & [_ Hprev Hcur] & Hi & _).
    assert (s0' = s0) as -> by congruence. rewrite Hi in Hprev, Hcur.
    destruct Hprev as [_ (vp & Hvp & Hmin & _)]. destruct Hcur as [_ (vc & Hvc & _)].
    exists vp, vc. split; [done|]. split; [done|].
    specialize (Hmin 0 0 ltac:(unfold PEAK_SEARCH_RANGE; lia) H0).
    specialize (Hnn _ _ Hvc). lia.
  - assert (ps' = ps /\ c' = c) as [-> ->] by (split; congruence).
    exists interference, ps, c, (tr1 ++ t), (tr2 ++ tr1 ++ t).
    split; [done|]. split; [done|]. split; [done|]. split; [done|].
    split; [|split; [done|by rewrite Hfreq]].
    pose proof (ok_bounds _ _ _ _ _ Hok) as Hb.
    rewrite Forall_forall in Hb, Hlow. apply Forall_forall. intros p Hp.
    specialize (Hb p Hp). specialize (Hlow p Hp). simpl in Hb. lia.
Qed.

Lemma calculate_freq_peaks_range_witness :
  exists interference ps c t1 t2,
    interference_fill 1500 1500 example_signal (replicate 1500 0) 0 [] = (Ok interference, t1) /\
    get interference 0 = Some 0 /\
    (forall j v, get interference j = Some v -> 0 <= v) /\
    calculate_peaks 1500 (replicate 10 0) 0 interference t1 = (Ok (ps, c), t2) /\
    Forall (fun p => 2 * PEAK_SEARCH_RANGE <= p < SHIFT_LIMIT - PEAK_SEARCH_RANGE)
      (take (Z.to_nat c) ps) /\
    spaced (take (Z.to_nat c) ps) /\
    fst (calculate_freq 1500 (replicate 1500 0) (replicate 10 0) example_signal [])
      = Ok (F32.div (F32.of_Z FS) (avg_wavelength_value ps c)).
Proof.
  apply (calculate_freq_peaks_range 1500 (replicate 1500 0) (replicate 10 0) example_signal []).
  - lia.
  - reflexivity.
  - exact example_signal_u8.
  - reflexivity.
  - reflexivity.
Defined.

(** ** The indeterminate contents of the local arrays are never used *)

Lemma sim_ret {A B} (R : A -> B -> Prop) a b : R a b -> sim R (ret a) (ret b).
Proof. by intros H t t'. Qed.

Lemma sim_bind {A B C D} (R : A -> B -> Prop) (Q : C -> D -> Prop)
    (m : M A) (m' : M B) (k : A -> M C) (k' : B -> M D) :
  sim R m m' -> (forall a b, R a b -> sim Q (k a) (k' b)) -> sim Q (bind m k) (bind m' k').
Proof.
  intros Hm Hk t t'. unfold bind. specialize (Hm t t').
  destruct (m t) as [[a| |] t1], (m' t') as [[b| |] t1']; simpl in *; try done.
  by apply Hk.
Qed.

Lemma sim_read b a i : sim eq (read b a i) (read b a i).
Proof. intros t t'. unfold read. by destruct (get a i). Qed.

Lemma sim_min_in_range_loop fuel array b r i m :
  sim eq (min_in_range_loop fuel array b r i m) (min_in_range_loop fuel array b r i m).
Proof.
  revert i m. induction fuel as [|fuel IH]; intros i m; simpl.
  - destruct (i <? r); [done|by apply sim_ret].
  - destruct (i <? r); [|by apply sim_ret].
    apply (sim_bind eq); [apply sim_read|]. intros a ? <-.
    apply (sim_bind eq); [apply sim_read|]. intros v ? <-. apply IH.
Qed.

Lemma sim_is_local_dip array prev cur next :
  sim eq (is_local_dip array prev cur next) (is_local_dip array prev cur next).
Proof.
  unfold is_local_dip.
  apply (sim_bind eq); [apply sim_read|]. intros p ? <-.
  apply (sim_bind eq); [apply sim_read|]. intros c ? <-.
  destruct (p >? c); [|by apply sim_ret].
  apply (sim_bind eq); [apply sim_read|]. intros n ? <-.
  apply (sim_bind eq); [apply sim_read|]. intros c' ? <-. by apply sim_ret.
Qed.

Lemma sim_predecessor_is_lower array cur :
  sim eq (predecessor_is_lower array cur) (predecessor_is_lower array cur).
Proof.
  unfold predecessor_is_lower. destruct (cur >? 0); [|by apply sim_ret].
  apply (sim_bind eq); [apply sim_read|]. intros p ? <-.
  apply (sim_bind eq); [apply sim_read|]. intros c ? <-. by apply sim_ret.
Qed.

(** The store of line 34 on two related lists. *)
Lemma sim_append_peak array s s' next :
  scan_rel s s' ->
  sim (flow_rel scan_rel) (append_peak array s next) (append_peak array s' next).
Proof.
  intros (Hi & Hp & Hc & Hn & Hn0 & Hl & Ht). simpl in Hn, Hn0, Hl, Ht.
  unfold append_peak. rewrite <- Hi, <- Hp, <- Hc, <- Hn.
  apply (sim_bind eq); [apply sim_read|]. intros _ ? <-.
  set (c' := u8 (peak_count s + 1)).
  assert (0 <= c' <= peak_count s + 1) as Hc'.
  { unfold c', u8. pose proof (Z.mod_pos_bound (peak_count s + 1) 256 ltac:(lia)).
    pose proof (Z.mod_le (peak_count s + 1) 256 ltac:(lia) ltac:(lia)). lia. }
  apply (sim_bind (fun l l' => same_peaks (l, c') (l', c'))).
  - intros t t'. unfold write. rewrite <- Hl.
    destruct ((0 <=? c' - 1) && (c' - 1 <? Z.of_nat (length (peaks s)))) eqn:Hin; [|done].
    apply andb_prop in Hin as [Hge%Z.leb_le Hlt%Z.ltb_lt]. unfold same_peaks. simpl.
    split; [done|]. split; [lia|]. split; [by rewrite !length_insert|].
    replace c' with ((c' - 1) + 1) at 1 3 by lia.
    rewrite !take_insert_snoc by lia. f_equal.
    assert (forall l : list Z, take (Z.to_nat (c' - 1)) l
              = take (Z.to_nat (c' - 1)) (take (Z.to_nat (peak_count s)) l)) as Htt.
    { intros l. rewrite take_take. f_equal. lia. }
    rewrite (Htt (peaks s)), (Htt (peaks s')). by rewrite Ht, <- Hn.
  - intros l l' Hrel. destruct (c' >=? PEAK_TRACKING_LIMIT); by apply sim_ret.
Qed.

Lemma sim_calculate_peaks_body fuel array s s' :
  scan_rel s s' ->
  sim (flow_rel scan_rel) (calculate_peaks_body fuel array s)
    (calculate_peaks_body fuel array s').
Proof.
  intros Hrel. pose proof Hrel as (Hi & Hp & Hc & Hsame).
  unfold calculate_peaks_body. rewrite <- Hi, <- Hp, <- Hc.
  apply (sim_bind eq); [apply sim_min_in_range_loop|]. intros next ? <-.
  apply (sim_bind eq); [apply sim_is_local_dip|]. intros dip ? <-.
  destruct dip; [|by apply sim_ret].
  unfold handle_candidate. rewrite <- Hc.
  apply (sim_bind eq); [apply sim_predecessor_is_lower|]. intros lower ? <-.
  destruct lower; [by apply sim_ret|by apply sim_append_peak].
Qed.

Lemma sim_calculate_peaks_loop fuel0 fuel array s s' :
  scan_rel s s' ->
  sim scan_rel (calculate_peaks_loop fuel0 fuel array s)
    (calculate_peaks_loop fuel0 fuel array s').
Proof.
  revert s s'. induction fuel as [|fuel IH]; intros s s' Hrel;
    pose proof Hrel as (Hi & _); simpl; unfold scan_guard; rewrite <- Hi.
  - destruct (scan_i s <? _); [done|by apply sim_ret].
  - destruct (scan_i s <? _); [|by apply sim_ret].
    apply (sim_bind (flow_rel scan_rel)); [by apply sim_calculate_peaks_body|].
    intros [s1|s1|s1] [s1'|s1'|s1'] Hfl; try done; try by apply sim_ret.
    apply IH. destruct Hfl as (Hi1 & Hp1 & Hc1 & Hs1).
    repeat split; simpl; (done || by rewrite Hi1 || apply Hs1).
Qed.

Lemma sim_calculate_peaks fuel peaks0 peaks0' array :
  length peaks0 = length peaks0' ->
  sim same_peaks (calculate_peaks fuel peaks0 0 array) (calculate_peaks fuel peaks0' 0 array).
Proof.
  intros Hl. unfold calculate_peaks.
  apply (sim_bind scan_rel).
  - unfold scan_init.
    apply (sim_bind eq); [apply sim_min_in_range_loop|]. intros prev ? <-.
    apply (sim_bind eq); [apply sim_min_in_range_loop|]. intros cur ? <-.
    apply sim_ret. by repeat split.
  - intros s0 s0' Hrel.
    apply (sim_bind scan_rel); [by apply sim_calculate_peaks_loop|].
    intros s s' (_ & _ & _ & Hsame). by apply sim_ret.
Qed.

(** X11: the count and the peaks that a call of [calculate_peaks] with an
    empty list returns do not depend on what [peaks] held before the
    call: two calls on the same profile with different old contents end
    in the same way, with the same count and the same recorded peaks. *)
Theorem calculate_peaks_ignores_old_entries fuel peaks0 peaks0' array t t' :
  length peaks0 = length peaks0' ->
  result_rel
    (fun x y => snd x = snd y /\
                take (Z.to_nat (snd x)) (fst x) = take (Z.to_nat (snd x)) (fst y))
    (fst (calculate_peaks fuel peaks0 0 array t))
    (fst (calculate_peaks fuel peaks0' 0 array t')).
Proof.
  intros Hl. pose proof (sim_calculate_peaks fuel peaks0 peaks0' array Hl t t') as Hsim.
  destruct (fst (calculate_peaks fuel peaks0 0 array t)) as [[ps c]| |],
    (fst (calculate_peaks fuel peaks0' 0 array t')) as [[ps' c']| |]; simpl in *; try done.
  destruct Hsim as (Hc & _ & _ & Ht). simpl in Hc, Ht. split; [done|]. by rewrite Ht, Hc.
Qed.

Lemma calculate_peaks_ignores_old_entries_witness :
  result_rel
    (fun x y => snd x = snd y /\
                take (Z.to_nat (snd x)) (fst x) = take (Z.to_nat (snd x)) (fst y))
    (fst (calculate_peaks 81 (replicate 10 0) 0 example_profile []))
    (fst (calculate_peaks 81 (replicate 10 7) 0 example_profile [])).
Proof.
  apply (calculate_peaks_ignores_old_entries 81 (replicate 10 0) (replicate 10 7)
           example_profile [] []).
  reflexivity.
Defined.

Lemma list_eq_get (l l' : list Z) n :
  Z.of_nat (length l) = n -> Z.of_nat (length l') = n ->
  (forall j, 0 <= j < n -> get l j = get l' j) -> l = l'.
Proof.
  intros Hl Hl' Hget. apply list_eq. intros k.
  destruct (decide (Z.of_nat k < n)) as [Hk|Hk].
  - specialize (Hget (Z.of_nat k) ltac:(lia)). unfold get in Hget.
    destruct (Z.ltb_spec (Z.of_nat k) 0); [lia|]. by rewrite Nat2Z.id in Hget.
  - rewrite !lookup_ge_None_2 by lia. done.
Qed.

(** X12: [calculate_freq] never uses the indeterminate initial contents of
    its local arrays [interference] and [peaks]: every profile entry is
    written before the scan reads it and only recorded peaks are
    averaged, so the frequency returned is the same whatever the two
    arrays hold at entry. *)
Theorem calculate_freq_ignores_initial_contents
    fuel interference0 interference0' peaks0 peaks0' signal t :
  (1500 <= fuel)%nat ->
  Z.of_nat (length signal) = NUM_SAMPLES -> Forall is_u8 signal ->
  Z.of_nat (length interference0) = NUM_SAMPLES ->
  Z.of_nat (length interference0') = NUM_SAMPLES ->
  Z.of_nat (length peaks0) = PEAK_TRACKING_LIMIT ->
  Z.of_nat (length peaks0') = PEAK_TRACKING_LIMIT ->
  exists frequency,
    fst (calculate_freq fuel interference0 peaks0 signal t) = Ok frequency /\
    fst (calculate_freq fuel interference0' peaks0' signal t) = Ok frequency.
Proof.
  intros Hfuel Hlen Hu8 Hli Hli' Hlp Hlp'.
  destruct (calculate_freq_steps fuel interference0 peaks0 signal t Hfuel Hlen Hu8 Hli Hlp)
    as (itf & ps & c & tr1 & tr2 & tr3 & _ & Hlitf & Hval & Hpeaks & _ & _ & Hfreq).
  destruct (calculate_freq_steps fuel interference0' peaks0' signal t Hfuel Hlen Hu8 Hli' Hlp')
    as (itf' & ps' & c' & tr1' & tr2' & tr3' & _ & Hlitf' & Hval' & Hpeaks' & _ & _ & Hfreq').
  assert (itf' = itf) as ->.
  { apply (list_eq_get _ _ NUM_SAMPLES); [done|done|].
    intros j Hj. by rewrite Hval, Hval'. }
  pose proof (sim_calculate_peaks fuel peaks0 peaks0' itf ltac:(lia) (tr1 ++ t) (tr1' ++ t))
    as Hsim.
  rewrite Hpeaks, Hpeaks' in Hsim. destruct Hsim as (Hc & _ & _ & Ht). simpl in Hc, Ht.
  exists (F32.div (F32.of_Z FS) (avg_wavelength_value ps c)).
  rewrite Hfreq, Hfreq'. split; [done|]. cbn [fst]. do 2 f_equal.
  subst c'. unfold avg_wavelength_value. by rewrite Ht.
Qed.

Lemma calculate_freq_ignores_initial_contents_witness :
  exists frequency,
    fst (calculate_freq 1500 (replicate 1500 0) (replicate 10 0) example_signal [])
      = Ok frequency /\
    fst (calculate_freq 1500 (replicate 1500 9) (replicate 10 7) example_signal [])
      = Ok frequency.
Proof.
  apply (calculate_freq_ignores_initial_contents 1500 (replicate 1500 0) (replicate 1500 9)
           (replicate 10 0) (replicate 10 7) example_signal []).
  - lia.
  - reflexivity.
  - exact example_signal_u8.
  - reflexivity.
  - reflexivity.
  - reflexivity.
  - reflexivity.
Defined.

(** * Properties of the display code of [tuner.c] *)

(** ** Exact operations of binary32 and binary64 *)

Lemma iter_pos_shr_1_exact p m :
  SpecFloat.iter_pos shr_1 p (Build_shr_record (Z.pos (m * 2 ^ p)) false false)
    = Build_shr_record (Z.pos m) false false.
Proof.
  revert m. induction p as [p IH|p IH|]; intros m; simpl SpecFloat.iter_pos.
  - assert (m * 2 ^ p~1 = (m * 2 ^ p * 2 ^ p)~0)%positive as ->.
    { apply Pos2Z.inj. rewrite Pos2Z.inj_xO, !Pos2Z.inj_mul, !Pos2Z.inj_pow.
      replace (Z.pos p~1) with (Z.pos p + Z.pos p + 1) by lia.
      rewrite !Z.pow_add_r by lia. change (2 ^ 1) with 2. ring. }
    simpl. by rewrite !IH.
  - assert (m * 2 ^ p~0 = m * 2 ^ p * 2 ^ p)%positive as ->.
    { apply Pos2Z.inj. rewrite !Pos2Z.inj_mul, !Pos2Z.inj_pow.
      replace (Z.pos p~0) with (Z.pos p + Z.pos p) by lia.
      rewrite !Z.pow_add_r by lia. ring. }
    by rewrite !IH.
  - assert (m * 2 ^ 1 = m~0)%positive as -> by lia. done.
Qed.

(** Rounding a number that needs no more digits than the format has is
    exact, up to overflow. *)
Lemma binary_round_aux_shift prec emax s M m k :
  0 < prec -> 0 <= k ->
  Z.pos M = Z.pos m * 2 ^ k -> Z.pos (digits2_pos m) = prec ->
  forall e, 3 - emax - prec <= e + k ->
  binary_round_aux prec emax s (Z.pos M) e loc_Exact
    = if e + k <=? emax - prec then S754_finite s m (e + k) else S754_infinity s.
Proof.
  intros Hprec Hk HM Hd e He.
  pose proof (Zdigits2_bounds m) as Hm. rewrite Hd in Hm.
  assert (Z.pos (digits2_pos M) = prec + k) as HdM.
  { apply Zdigits2_unique. rewrite HM.
    replace (prec + k - 1) with (prec - 1 + k) by lia.
    rewrite !Z.pow_add_r by lia.
    assert (0 < 2 ^ k) by (apply Z.pow_pos_nonneg; lia). nia. }
  unfold binary_round_aux, shr_fexp, fexp, emin. simpl Zdigits2. rewrite HdM.
  replace (Z.max (prec + k + e - prec) (3 - emax - prec) - e) with k by lia.
  assert (shr (shr_record_of_loc (Z.pos M) loc_Exact) e k
            = (Build_shr_record (Z.pos m) false false, e + k)) as ->.
  { unfold shr. simpl shr_record_of_loc. destruct k as [|p|p]; [| |lia].
    - f_equal; [|lia]. f_equal. lia.
    - f_equal. assert (M = m * 2 ^ p)%positive as ->.
      { apply Pos2Z.inj. by rewrite Pos2Z.inj_mul, Pos2Z.inj_pow. }
      apply iter_pos_shr_1_exact. }
  simpl loc_of_shr_record. simpl round_nearest_even. simpl Zdigits2. rewrite Hd.
  replace (Z.max (prec + (e + k) - prec) (3 - emax - prec) - (e + k)) with 0 by lia.
  reflexivity.
Qed.

Lemma binary_round_aux_exact prec emax s M m k :
  0 < prec -> 0 <= k ->
  Z.pos M = Z.pos m * 2 ^ k -> Z.pos (digits2_pos m) = prec ->
  forall e, 3 - emax - prec <= e + k <= emax - prec ->
  binary_round_aux prec emax s (Z.pos M) e loc_Exact = S754_finite s m (e + k).
Proof.
  intros Hprec Hk HM Hd e He.
  rewrite (binary_round_aux_shift prec emax s M m k) by (done || lia).
  destruct (Z.leb_spec (e + k) (emax - prec)); [done|lia].
Qed.

Lemma iter_xO_digits m d :
  Z.pos (digits2_pos (Pos.iter xO m d)) = Z.pos (digits2_pos m) + Z.pos d.
Proof.
  apply Zdigits2_unique. rewrite iter_xO.
  pose proof (Zdigits2_bounds m) as Hm.
  replace (Z.pos (digits2_pos m) + Z.pos d - 1) with (Z.pos (digits2_pos m) - 1 + Z.pos d)
    by lia.
  rewrite !Z.pow_add_r by lia.
  assert (0 < 2 ^ Z.pos d) by (apply Z.pow_pos_nonneg; lia). nia.
Qed.

(** The [double] of a normal [float]: the mantissa gets 29 more digits. *)
Lemma of_float_normal s m e :
  Z.pos (digits2_pos m) = 24 -> -1045 <= e <= 1000 ->
  F64.of_float (S754_finite s m e) = S754_finite s (Pos.iter xO m 29) (e - 29).
Proof.
  intros Hd He. unfold F64.of_float, binary_round, fexp, emin, F64.prec, F64.emax.
  rewrite Hd. replace (Z.max (24 + e - 53) (3 - 1024 - 53)) with (e - 29) by lia.
  unfold shl_align. replace (e - 29 - e) with (-29) by lia.
  rewrite (binary_round_aux_exact 53 1024 s (Pos.iter xO m 29) (Pos.iter xO m 29) 0);
    try lia.
  - f_equal. lia.
  - by rewrite iter_xO_digits, Hd.
Qed.

Lemma fmul_two s m e :
  Z.pos (digits2_pos m) = 24 -> -150 <= e <= 103 ->
  fmul (S754_finite s m e) (F32.of_Z 2) = S754_finite s m (e + 1).
Proof.
  intros Hd He. change (F32.of_Z 2) with (S754_finite false 8388608 (-22)).
  unfold fmul, SFmul. rewrite Bool.xorb_false_r.
  rewrite (binary_round_aux_exact F32.prec F32.emax s (m * 8388608) m 23);
    unfold F32.prec, F32.emax; try lia; try done.
  f_equal. lia.
Qed.

Lemma fdiv_two s m e :
  Z.pos (digits2_pos m) = 24 -> -147 <= e <= 105 ->
  F32.div (S754_finite s m e) (F32.of_Z 2) = S754_finite s m (e - 1).
Proof.
  intros Hd He.
  assert (exists two, Z.pos two = 8388608 /\ Z.pos (digits2_pos two) = 24 /\
            F32.of_Z 2 = S754_finite false two (-22)) as (two & Htwo & Hd2 & ->)
    by (exists 8388608%positive; by vm_compute).
  unfold F32.div, SFdiv, SFdiv_core_binary. simpl Zdigits2. rewrite Hd, Hd2.
  unfold fexp, emin, F32.prec, F32.emax.
  replace (Z.min (Z.max (24 + e - (24 + -22) - 24) (3 - 128 - 24)) (e - -22))
    with (e - 2) by lia.
  replace (e - -22 - (e - 2)) with 24 by lia.
  rewrite Z.shiftl_mul_pow2 by lia. rewrite Htwo. change (2 ^ 24) with (2 * 8388608).
  replace (Z.pos m * (2 * 8388608)) with (Z.pos m~0 * 8388608) by lia.
  assert (Z.div_eucl (Z.pos m~0 * 8388608) 8388608 = (Z.pos m~0, 0)) as ->.
  { pose proof (Z.div_eucl_eq (Z.pos m~0 * 8388608) 8388608 ltac:(lia)) as Heq.
    pose proof (Z.mod_pos_bound (Z.pos m~0 * 8388608) 8388608 ltac:(lia)) as Hb.
    unfold Z.modulo in Hb.
    destruct (Z.div_eucl (Z.pos m~0 * 8388608) 8388608) as [q r]. f_equal; lia. }
  rewrite Bool.xorb_false_r. simpl new_location.
  rewrite (binary_round_aux_exact 24 128 s (m~0) m 1); try lia; try done.
  f_equal. lia.
Qed.

Lemma ltb_finite_pos m1 e1 m2 e2 :
  SFltb (S754_finite false m1 e1) (S754_finite false m2 e2)
    = (e1 <? e2) || ((e1 =? e2) && (Z.pos m1 <? Z.pos m2)).
Proof.
  unfold SFltb, SFcompare.
  destruct (Z.compare_spec e1 e2) as [->|Hlt|Hgt].
  - rewrite Z.ltb_irrefl, Z.eqb_refl. simpl.
    change (Pos.compare_cont Eq m1 m2) with (Pos.compare m1 m2).
    change (Z.pos m1 <? Z.pos m2) with (Pos.ltb m1 m2). unfold Pos.ltb.
    by destruct (m1 ?= m2)%positive.
  - destruct (Z.ltb_spec e1 e2); [done|lia].
  - destruct (Z.ltb_spec e1 e2); [lia|]. destruct (Z.eqb_spec e1 e2); [lia|done].
Qed.

(** ** The normalisation loops *)

Lemma A3_bottom_range_eq : A3_bottom_range = S754_finite false 7520307690266952 (-45).
Proof. vm_compute. reflexivity. Qed.

Lemma A4_bottom_range_eq : A4_bottom_range = S754_finite false 7520131768406508 (-44).
Proof. vm_compute. reflexivity. Qed.

Lemma A3_sharp_bottom_range_eq : A3_sharp_bottom_range = S754_finite false 7967501059516006 (-45).
Proof. vm_compute. reflexivity. Qed.

Lemma B3_bottom_range_eq : B3_bottom_range = S754_finite false 8441082707831685 (-45).
Proof. vm_compute. reflexivity. Qed.

Lemma C3_bottom_range_eq : C3_bottom_range = S754_finite false 8943163697539318 (-45).
Proof. vm_compute. reflexivity. Qed.

Lemma C3_sharp_bottom_range_eq : C3_sharp_bottom_range = S754_finite false 4737399779900785 (-44).
Proof. vm_compute. reflexivity. Qed.

Lemma D3_bottom_range_eq : D3_bottom_range = S754_finite false 5019050678471885 (-44).
Proof. vm_compute. reflexivity. Qed.

Lemma D3_sharp_bottom_range_eq : D3_sharp_bottom_range = S754_finite false 5317590075645624 (-44).
Proof. vm_compute. reflexivity. Qed.

Lemma E3_bottom_range_eq : E3_bottom_range = S754_finite false 5633897580724224 (-44).
Proof. vm_compute. reflexivity. Qed.

Lemma F3_bottom_range_eq : F3_bottom_range = S754_finite false 5968852803009905 (-44).
Proof. vm_compute. reflexivity. Qed.

Lemma F3_sharp_bottom_range_eq : F3_sharp_bottom_range = S754_finite false 6323687195525775 (-44).
Proof. vm_compute. reflexivity. Qed.

Lemma G3_bottom_range_eq : G3_bottom_range = S754_finite false 6699966462829789 (-44).
Proof. vm_compute. reflexivity. Qed.

Lemma G3_sharp_bottom_range_eq : G3_sharp_bottom_range = S754_finite false 7098095225200968 (-44).
Proof. vm_compute. reflexivity. Qed.

Lemma iter_xO_29 m : Z.pos (Pos.iter xO m 29) = 536870912 * Z.pos m.
Proof. rewrite iter_xO. change (2 ^ 29) with 536870912. lia. Qed.

(** [frequency < A3_bottom_range] and [frequency > A4_bottom_range] on a
    normal positive number. *)
Lemma below_A3_spec m e :
  Z.pos (digits2_pos m) = 24 -> -149 <= e <= 104 ->
  F64.ltb (F64.of_float (S754_finite false m e)) A3_bottom_range
    = (e <? -16) || ((e =? -16) && (536870912 * Z.pos m <? 7520307690266952)).
Proof.
  intros Hd He. rewrite of_float_normal, A3_bottom_range_eq by (done || lia).
  unfold F64.ltb. rewrite ltb_finite_pos, iter_xO_29.
  assert ((e - 29 <? -45) = (e <? -16)) as ->
    by (destruct (Z.ltb_spec (e - 29) (-45)), (Z.ltb_spec e (-16)); (done || lia)).
  assert ((e - 29 =? -45) = (e =? -16)) as ->
    by (destruct (Z.eqb_spec (e - 29) (-45)), (Z.eqb_spec e (-16)); (done || lia)).
  done.
Qed.

Lemma above_A4_spec m e :
  Z.pos (digits2_pos m) = 24 -> -149 <= e <= 104 ->
  F64.gtb (F64.of_float (S754_finite false m e)) A4_bottom_range
    = (-15 <? e) || ((e =? -15) && (7520131768406508 <? 536870912 * Z.pos m)).
Proof.
  intros Hd He. rewrite of_float_normal, A4_bottom_range_eq by (done || lia).
  unfold F64.gtb. rewrite ltb_finite_pos, iter_xO_29.
  assert ((-44 <? e - 29) = (-15 <? e)) as ->
    by (destruct (Z.ltb_spec (-44) (e - 29)), (Z.ltb_spec (-15) e); (done || lia)).
  assert ((-44 =? e - 29) = (e =? -15)) as ->
    by (destruct (Z.eqb_spec (-44) (e - 29)), (Z.eqb_spec e (-15)); (done || lia)).
  done.
Qed.

Lemma octave_up_unfold fuel f :
  octave_up fuel f =
    if F64.ltb (F64.of_float f) A3_bottom_range then
      match fuel with
      | O => OutOfFuel
      | S fuel' => octave_up fuel' (fmul f (F32.of_Z 2))
      end
    else Ok f.
Proof. by destruct fuel. Qed.

Lemma octave_down_unfold fuel f :
  octave_down fuel f =
    if F64.gtb (F64.of_float f) A4_bottom_range then
      match fuel with
      | O => OutOfFuel
      | S fuel' => octave_down fuel' (F32.div f (F32.of_Z 2))
      end
    else Ok f.
Proof. by destruct fuel. Qed.

Lemma octave_up_high fuel m e :
  Z.pos (digits2_pos m) = 24 -> -15 <= e <= 104 ->
  octave_up fuel (S754_finite false m e) = Ok (S754_finite false m e).
Proof.
  intros Hd He.
  assert (F64.ltb (F64.of_float (S754_finite false m e)) A3_bottom_range = false) as Hlt.
  { rewrite below_A3_spec by (done || lia).
    destruct (Z.ltb_spec e (-16)); [lia|]. destruct (Z.eqb_spec e (-16)); [lia|done]. }
  by rewrite octave_up_unfold, Hlt.
Qed.

Lemma octave_up_low n fuel m e :
  Z.pos (digits2_pos m) = 24 -> -149 <= e -> e = -16 - Z.of_nat n -> (n < fuel)%nat ->
  octave_up fuel (S754_finite false m e)
    = Ok (S754_finite false m
            (if 536870912 * Z.pos m <? 7520307690266952 then -15 else -16)).
Proof.
  intros Hd. revert fuel e. induction n as [|n IH]; intros fuel e He -> Hfuel.
  - destruct fuel as [|fuel]; [lia|]. change (-16 - Z.of_nat 0) with (-16).
    rewrite octave_up_unfold, below_A3_spec by (done || lia).
    change (-16 <? -16) with false. change (-16 =? -16) with true. cbn [orb andb].
    destruct (536870912 * Z.pos m <? 7520307690266952); [|done].
    rewrite fmul_two by (done || lia). apply octave_up_high; (done || lia).
  - destruct fuel as [|fuel]; [lia|]. rewrite octave_up_unfold.
    rewrite below_A3_spec by (done || lia).
    destruct (Z.ltb_spec (-16 - Z.of_nat (S n)) (-16)); [|lia]. cbn [orb].
    rewrite fmul_two by (done || lia). apply IH; lia.
Qed.

Lemma octave_down_low fuel m e :
  Z.pos (digits2_pos m) = 24 -> -149 <= e <= -16 ->
  octave_down fuel (S754_finite false m e) = Ok (S754_finite false m e).
Proof.
  intros Hd He.
  assert (F64.gtb (F64.of_float (S754_finite false m e)) A4_bottom_range = false) as Hgt.
  { rewrite above_A4_spec by (done || lia).
    destruct (Z.ltb_spec (-15) e); [lia|]. destruct (Z.eqb_spec e (-15)); [lia|done]. }
  by rewrite octave_down_unfold, Hgt.
Qed.

Lemma normalized_eq m :
  Z.pos (digits2_pos m) = 24 ->
  normalized m
    = S754_finite false m (if 7520131768406508 <? 536870912 * Z.pos m then -16 else -15).
Proof.
  intros Hd. unfold normalized. rewrite above_A4_spec by (done || lia).
  change (-15 <? -15) with false. change (-15 =? -15) with true. cbn [orb andb].
  by destruct (7520131768406508 <? 536870912 * Z.pos m).
Qed.

Lemma octave_down_high n fuel m e :
  Z.pos (digits2_pos m) = 24 -> e <= 104 -> e = -15 + Z.of_nat n -> (n < fuel)%nat ->
  octave_down fuel (S754_finite false m e) = Ok (normalized m).
Proof.
  intros Hd. rewrite normalized_eq by done.
  revert fuel e. induction n as [|n IH]; intros fuel e He -> Hfuel.
  - destruct fuel as [|fuel]; [lia|]. change (-15 + Z.of_nat 0) with (-15).
    rewrite octave_down_unfold, above_A4_spec by (done || lia).
    change (-15 <? -15) with false. change (-15 =? -15) with true. cbn [orb andb].
    destruct (7520131768406508 <? 536870912 * Z.pos m); [|done].
    rewrite fdiv_two by (done || lia). apply octave_down_low; (done || lia).
  - destruct fuel as [|fuel]; [lia|]. rewrite octave_down_unfold.
    rewrite above_A4_spec by (done || lia).
    destruct (Z.ltb_spec (-15) (-15 + Z.of_nat (S n))); [|lia]. cbn [orb].
    rewrite fdiv_two by (done || lia). apply IH; lia.
Qed.

(** The two loops together. *)
Lemma octave_loops fuel m e :
  (135 <= fuel)%nat -> Z.pos (digits2_pos m) = 24 -> -149 <= e <= 104 ->
  exists raised,
    octave_up fuel (S754_finite false m e) = Ok raised /\
    octave_down fuel raised = Ok (normalized m).
Proof.
  intros Hfuel Hd He. destruct (Z.le_gt_cases (-15) e) as [Hhigh|Hlow].
  - exists (S754_finite false m e). split; [apply octave_up_high; (done || lia)|].
    apply (octave_down_high (Z.to_nat (e + 15))); (done || lia).
  - eexists. split.
    + apply (octave_up_low (Z.to_nat (-16 - e))); (done || lia).
    + destruct (Z.ltb_spec (536870912 * Z.pos m) 7520307690266952) as [Hlt|Hge].
      * apply (octave_down_high 0); (done || lia).
      * rewrite octave_down_low by (done || lia). rewrite normalized_eq by done.
        destruct (Z.ltb_spec 7520131768406508 (536870912 * Z.pos m)); [done|lia].
Qed.

(** ** The chain of ranges *)

(** [frequency > lo && frequency < hi] on a normal positive number, as a
    proposition about exponents and mantissas. *)
Lemma between_iff m e lo hi Mlo Elo Mhi Ehi :
  Z.pos (digits2_pos m) = 24 -> -149 <= e <= 104 ->
  lo = S754_finite false Mlo Elo -> hi = S754_finite false Mhi Ehi ->
  between (S754_finite false m e) lo hi = true <->
  (Elo < e - 29 \/ Elo = e - 29 /\ Z.pos Mlo < 536870912 * Z.pos m) /\
  (e - 29 < Ehi \/ e - 29 = Ehi /\ 536870912 * Z.pos m < Z.pos Mhi).
Proof.
  intros Hd He -> ->. unfold between, F64.gtb, F64.ltb.
  rewrite of_float_normal by (done || lia). rewrite !ltb_finite_pos, iter_xO_29.
  rewrite andb_true_iff, !orb_true_iff, !andb_true_iff, !Z.ltb_lt, !Z.eqb_eq. done.
Qed.

Lemma gtb_iff m e lo Mlo Elo :
  Z.pos (digits2_pos m) = 24 -> -149 <= e <= 104 ->
  lo = S754_finite false Mlo Elo ->
  F64.gtb (F64.of_float (S754_finite false m e)) lo = true <->
  (Elo < e - 29 \/ Elo = e - 29 /\ Z.pos Mlo < 536870912 * Z.pos m).
Proof.
  intros Hd He ->. unfold F64.gtb.
  rewrite of_float_normal by (done || lia). rewrite !ltb_finite_pos, iter_xO_29.
  rewrite !orb_true_iff, !andb_true_iff, !Z.ltb_lt, !Z.eqb_eq. done.
Qed.

Lemma show_note_cases m e :
  Z.pos (digits2_pos m) = 24 -> -149 <= e <= 104 ->
  let g := S754_finite false m e in
  F64.gtb (F64.of_float g) A4_bottom_range = false ->
  (F64.gtb (F64.of_float g) A3_bottom_range = true ->
   F64.of_float g <> E3_bottom_range ->
   exists lo hi note ref,
     (lo, hi, note, ref) ∈ note_table /\ between g lo hi = true /\
     show_note g = show note g ref) /\
  (F64.gtb (F64.of_float g) A3_bottom_range = false \/ F64.of_float g = E3_bottom_range ->
   show_note g = []).
Proof.
  intros Hd He. cbv zeta. set (g := S754_finite false m e). intros H4.
  apply not_true_iff_false in H4. unfold g in H4.
  rewrite (gtb_iff m e _ _ _ Hd He A4_bottom_range_eq) in H4.
  pose proof (between_iff m e _ _ _ _ _ _ Hd He A3_bottom_range_eq A3_sharp_bottom_range_eq) as B0.
  pose proof (between_iff m e _ _ _ _ _ _ Hd He A3_sharp_bottom_range_eq B3_bottom_range_eq) as B1.
  pose proof (between_iff m e _ _ _ _ _ _ Hd He B3_bottom_range_eq C3_bottom_range_eq) as B2.
  pose proof (between_iff m e _ _ _ _ _ _ Hd He C3_bottom_range_eq C3_sharp_bottom_range_eq) as B3.
  pose proof (between_iff m e _ _ _ _ _ _ Hd He C3_sharp_bottom_range_eq D3_bottom_range_eq) as B4.
  pose proof (between_iff m e _ _ _ _ _ _ Hd He D3_bottom_range_eq D3_sharp_bottom_range_eq) as B5.
  pose proof (between_iff m e _ _ _ _ _ _ Hd He D3_sharp_bottom_range_eq E3_bottom_range_eq) as B6.
  pose proof (between_iff m e _ _ _ _ _ _ Hd He E3_bottom_range_eq F3_bottom_range_eq) as B7.
  pose proof (between_iff m e _ _ _ _ _ _ Hd He F3_bottom_range_eq F3_sharp_bottom_range_eq) as B8.
  pose proof (between_iff m e _ _ _ _ _ _ Hd He F3_sharp_bottom_range_eq G3_bottom_range_eq) as B9.
  pose proof (between_iff m e _ _ _ _ _ _ Hd He G3_bottom_range_eq G3_sharp_bottom_range_eq) as B10.
  pose proof (between_iff m e _ _ _ _ _ _ Hd He G3_sharp_bottom_range_eq A4_bottom_range_eq) as B11.
  fold g in B0, B1, B2, B3, B4, B5, B6, B7, B8, B9, B10, B11.
  split.
  - intros H3 Hne. unfold g in H3. rewrite (gtb_iff m e _ _ _ Hd He A3_bottom_range_eq) in H3.
    assert (~ (e - 29 = -44 /\ 536870912 * Z.pos m = 5633897580724224)) as Hne'.
    { intros [H1 H2]. apply Hne. unfold g.
      rewrite of_float_normal, E3_bottom_range_eq by (done || lia). f_equal; [|lia].
      apply Pos2Z.inj. rewrite iter_xO_29. lia. }
    unfold show_note.
    destruct (between g A3_bottom_range A3_sharp_bottom_range) eqn:E0;
      [do 4 eexists; split; [|split; [exact E0|reflexivity]];
       apply (list_elem_of_lookup_2 _ 0); reflexivity|].
    destruct (between g A3_sharp_bottom_range B3_bottom_range) eqn:E1;
      [do 4 eexists; split; [|split; [exact E1|reflexivity]];
       apply (list_elem_of_lookup_2 _ 1); reflexivity|].
    destruct (between g B3_bottom_range C3_bottom_range) eqn:E2;
      [do 4 eexists; split; [|split; [exact E2|reflexivity]];
       apply (list_elem_of_lookup_2 _ 2); reflexivity|].
    destruct (between g C3_bottom_range C3_sharp_bottom_range) eqn:E3;
      [do 4 eexists; split; [|split; [exact E3|reflexivity]];
       apply (list_elem_of_lookup_2 _ 3); reflexivity|].
    destruct (between g C3_sharp_bottom_range D3_bottom_range) eqn:E4;
      [do 4 eexists; split; [|split; [exact E4|reflexivity]];
       apply (list_elem_of_lookup_2 _ 4); reflexivity|].
    destruct (between g D3_bottom_range D3_sharp_bottom_range) eqn:E5;
      [do 4 eexists; split; [|split; [exact E5|reflexivity]];
       apply (list_elem_of_lookup_2 _ 5); reflexivity|].
    destruct (between g D3_sharp_bottom_range E3_bottom_range) eqn:E6;
      [do 4 eexists; split; [|split; [exact E6|reflexivity]];
       apply (list_elem_of_lookup_2 _ 6); reflexivity|].
    destruct (between g E3_bottom_range F3_bottom_range) eqn:E7;
      [do 4 eexists; split; [|split; [exact E7|reflexivity]];
       apply (list_elem_of_lookup_2 _ 7); reflexivity|].
    destruct (between g F3_bottom_range F3_sharp_bottom_range) eqn:E8;
      [do 4 eexists; split; [|split; [exact E8|reflexivity]];
       apply (list_elem_of_lookup_2 _ 8); reflexivity|].
    destruct (between g F3_sharp_bottom_range G3_bottom_range) eqn:E9;
      [do 4 eexists; split; [|split; [exact E9|reflexivity]];
       apply (list_elem_of_lookup_2 _ 9); reflexivity|].
    destruct (between g G3_bottom_range G3_sharp_bottom_range) eqn:E10;
      [do 4 eexists; split; [|split; [exact E10|reflexivity]];
       apply (list_elem_of_lookup_2 _ 10); reflexivity|].
    destruct (between g G3_sharp_bottom_range A4_bottom_range) eqn:E11;
      [do 4 eexists; split; [|split; [exact E11|reflexivity]];
       apply (list_elem_of_lookup_2 _ 11); reflexivity|].
    exfalso. clear Hne.
    repeat match goal with
           | B : false = true <-> _ |- _ =>
               let H := fresh in
               destruct B as [_ H];
               assert (B := fun HP => Bool.diff_false_true (H HP)); clear H
           end.
    lia.
  - intros Hno.
    assert (~ (-45 < e - 29 \/ -45 = e - 29 /\ 7520307690266952 < 536870912 * Z.pos m) \/
            (e - 29 = -44 /\ 536870912 * Z.pos m = 5633897580724224)) as Hno'.
    { destruct Hno as [H3|Heq].
      - left. apply not_true_iff_false in H3. unfold g in H3.
        by rewrite (gtb_iff m e _ _ _ Hd He A3_bottom_range_eq) in H3.
      - right. unfold g in Heq.
        rewrite of_float_normal, E3_bottom_range_eq in Heq by (done || lia).
        injection Heq as Hm Hee. lia. }
    unfold show_note.
    destruct (between g A3_bottom_range A3_sharp_bottom_range) eqn:E0;
      [exfalso; apply proj1 in B0; specialize (B0 eq_refl); lia|].
    destruct (between g A3_sharp_bottom_range B3_bottom_range) eqn:E1;
      [exfalso; apply proj1 in B1; specialize (B1 eq_refl); lia|].
    destruct (between g B3_bottom_range C3_bottom_range) eqn:E2;
      [exfalso; apply proj1 in B2; specialize (B2 eq_refl); lia|].
    destruct (between g C3_bottom_range C3_sharp_bottom_range) eqn:E3;
      [exfalso; apply proj1 in B3; specialize (B3 eq_refl); lia|].
    destruct (between g C3_sharp_bottom_range D3_bottom_range) eqn:E4;
      [exfalso; apply proj1 in B4; specialize (B4 eq_refl); lia|].
    destruct (between g D3_bottom_range D3_sharp_bottom_range) eqn:E5;
      [exfalso; apply proj1 in B5; specialize (B5 eq_refl); lia|].
    destruct (between g D3_sharp_bottom_range E3_bottom_range) eqn:E6;
      [exfalso; apply proj1 in B6; specialize (B6 eq_refl); lia|].
    destruct (between g E3_bottom_range F3_bottom_range) eqn:E7;
      [exfalso; apply proj1 in B7; specialize (B7 eq_refl); lia|].
    destruct (between g F3_bottom_range F3_sharp_bottom_range) eqn:E8;
      [exfalso; apply proj1 in B8; specialize (B8 eq_refl); lia|].
    destruct (between g F3_sharp_bottom_range G3_bottom_range) eqn:E9;
      [exfalso; apply proj1 in B9; specialize (B9 eq_refl); lia|].
    destruct (between g G3_bottom_range G3_sharp_bottom_range) eqn:E10;
      [exfalso; apply proj1 in B10; specialize (B10 eq_refl); lia|].
    destruct (between g G3_sharp_bottom_range A4_bottom_range) eqn:E11;
      [exfalso; apply proj1 in B11; specialize (B11 eq_refl); lia|].
    done.
Qed.

(** ** The display and the indicators *)

Lemma display_byte_update_display note :
  is_u8 note -> display_byte (update_display note) = Some note.
Proof.
  intros Hu8.
  assert (forallb (fun n =>
            match display_byte (update_display n) with
            | Some b => b =? n
            | None => false
            end) (seqZ 0 256) = true) as Hall by (vm_compute; reflexivity).
  rewrite forallb_forall in Hall. specialize (Hall note).
  rewrite <- list_elem_of_In, elem_of_seqZ in Hall. unfold is_u8 in Hu8.
  specialize (Hall ltac:(lia)).
  destruct (display_byte (update_display note)) as [b|]; [|done].
  apply Z.eqb_eq in Hall. by subst b.
Qed.

Lemma led_levels_update_leds frequency reference :
  led_levels (update_leds frequency reference) = (Some true, Some false, Some false) \/
  led_levels (update_leds frequency reference) = (Some false, Some true, Some false) \/
  led_levels (update_leds frequency reference) = (Some false, Some false, Some true).
Proof.
  unfold update_leds.
  destruct (F64.ltb _ _); [by left|].
  destruct (F64.gtb _ _); [by right; right|by right; left].
Qed.

(** X13: [update_display] sets each of the eight segment pins once, segment
    A from bit 7 of the note down to the dot from bit 0, so that the levels
    it leaves spell the byte it was given; it sets no indicator pin. *)
Theorem update_display_shows_note note :
  is_u8 note ->
  event_pin <$> update_display note = segment_pins /\
  display_byte (update_display note) = Some note /\
  (forall k pin, segment_pins !! k = Some pin ->
     pin_level (update_display note) pin = Some (Z.testbit note (7 - Z.of_nat k))) /\
  led_levels (update_display note) = (None, None, None).
Proof.
  intros Hu8. split; [reflexivity|].
  split; [by apply display_byte_update_display|]. split; [|reflexivity].
  assert (forallb (fun n =>
            forallb (fun k =>
              match segment_pins !! k with
              | Some pin =>
                  bool_decide (pin_level (update_display n) pin
                               = Some (Z.testbit n (7 - Z.of_nat k)))
              | None => false
              end) (seq 0 8)) (seqZ 0 256) = true) as Hall by (vm_compute; reflexivity).
  rewrite forallb_forall in Hall. specialize (Hall note).
  rewrite <- list_elem_of_In, elem_of_seqZ in Hall. unfold is_u8 in Hu8.
  specialize (Hall ltac:(lia)).
  intros k pin Hk. rewrite forallb_forall in Hall. specialize (Hall k).
  rewrite <- list_elem_of_In, elem_of_seq in Hall.
  pose proof (lookup_lt_Some _ _ _ Hk) as Hlt. simpl in Hlt.
  specialize (Hall ltac:(lia)). rewrite Hk in Hall.
  by apply bool_decide_eq_true in Hall.
Qed.

Lemma update_display_shows_note_witness :
  event_pin <$> update_display A_sharp_note = segment_pins /\
  display_byte (update_display A_sharp_note) = Some A_sharp_note /\
  (forall k pin, segment_pins !! k = Some pin ->
     pin_level (update_display A_sharp_note) pin
       = Some (Z.testbit A_sharp_note (7 - Z.of_nat k))) /\
  led_levels (update_display A_sharp_note) = (None, None, None).
Proof.
  apply (update_display_shows_note A_sharp_note). unfold is_u8, A_sharp_note. lia.
Defined.

Lemma fsub_diag s m e : fsub (S754_finite s m e) (S754_finite s m e) = S754_zero false.
Proof. unfold fsub, SFsub. by rewrite Z.sub_diag. Qed.

(** X14: whatever the two frequencies, [update_leds] sets the three
    indicator pins and leaves exactly one of them high, and it sets no
    segment pin. The in-tune indicator is the one lit when the frequency
    equals the reference, and also when the difference is not a number. *)
Theorem update_leds_lights_one frequency reference :
  (led_levels (update_leds frequency reference) = (Some true, Some false, Some false) \/
   led_levels (update_leds frequency reference) = (Some false, Some true, Some false) \/
   led_levels (update_leds frequency reference) = (Some false, Some false, Some true)) /\
  Forall (fun pin => pin_level (update_leds frequency reference) pin = None) segment_pins /\
  (fsub frequency reference = S754_nan ->
   led_levels (update_leds frequency reference) = (Some false, Some true, Some false)) /\
  (forall s m e, frequency = S754_finite s m e -> reference = frequency ->
   led_levels (update_leds frequency reference) = (Some false, Some true, Some false)).
Proof.
  split; [|split; [|split]].
  - unfold update_leds.
    destruct (F64.ltb _ _) eqn:Hlow; [by left|].
    destruct (F64.gtb _ _) eqn:Hhigh; [by right; right|by right; left].
  - unfold update_leds.
    destruct (F64.ltb _ _); [by repeat constructor|].
    destruct (F64.gtb _ _); by repeat constructor.
  - intros Hnan. unfold update_leds. by rewrite Hnan.
  - intros s m e -> ->. unfold update_leds. by rewrite fsub_diag.
Qed.

(** ** What the handler does with a frequency *)

Lemma handle_frequency_normal fuel m e :
  (135 <= fuel)%nat -> Z.pos (digits2_pos m) = 24 -> -149 <= e <= 104 ->
  handle_frequency fuel (S754_finite false m e) = Ok (show_note (normalized m)).
Proof.
  intros Hfuel Hd He. unfold handle_frequency.
  destruct (octave_loops fuel m e Hfuel Hd He) as (raised & -> & ->). done.
Qed.

(** X15: on a positive frequency in the normal range of [float] the two
    loops of lines 186-189 end, and they leave the frequency multiplied by a
    power of two, with the same mantissa, that is at most
    [A4_bottom_range] and whose double is above it; the handler then goes
    through the chain of ranges with this value. *)
Theorem handle_frequency_normalizes fuel frequency :
  (135 <= fuel)%nat -> normal_float frequency ->
  exists m e e',
    frequency = S754_finite false m e /\ (e' = -16 \/ e' = -15) /\
    (exists raised,
       octave_up fuel frequency = Ok raised /\
       octave_down fuel raised = Ok (S754_finite false m e')) /\
    handle_frequency fuel frequency = Ok (show_note (S754_finite false m e')) /\
    F64.gtb (F64.of_float (S754_finite false m e')) A4_bottom_range = false /\
    F64.gtb (F64.of_float (fmul (S754_finite false m e') (F32.of_Z 2))) A4_bottom_range
      = true.
Proof.
  intros Hfuel (m & e & -> & Hd & He).
  pose proof (octave_loops fuel m e Hfuel Hd He) as Hloops.
  pose proof (handle_frequency_normal fuel m e Hfuel Hd He) as Hh.
  rewrite normalized_eq in Hloops, Hh by done.
  exists m, e, (if 7520131768406508 <? 536870912 * Z.pos m then -16 else -15).
  split; [done|]. split; [destruct (_ <? _); tauto|]. split; [done|]. split; [done|].
  destruct (Z.ltb_spec 7520131768406508 (536870912 * Z.pos m)) as [Hgt|Hle].
  - rewrite fmul_two, !above_A4_spec by (done || lia). split; [done|].
    change (-16 + 1) with (-15). change (-15 <? -15) with false.
    change (-15 =? -15) with true. cbn [orb andb].
    by destruct (Z.ltb_spec 7520131768406508 (536870912 * Z.pos m)); [|lia].
  - rewrite fmul_two, !above_A4_spec by (done || lia). split; [|done].
    change (-15 <? -15) with false. change (-15 =? -15) with true. cbn [orb andb].
    by destruct (Z.ltb_spec 7520131768406508 (536870912 * Z.pos m)); [lia|].
Qed.

Lemma handle_frequency_normalizes_witness :
  exists m e e',
    F32.of_Z 440 = S754_finite false m e /\ (e' = -16 \/ e' = -15) /\
    (exists raised,
       octave_up 135 (F32.of_Z 440) = Ok raised /\
       octave_down 135 raised = Ok (S754_finite false m e')) /\
    handle_frequency 135 (F32.of_Z 440) = Ok (show_note (S754_finite false m e')) /\
    F64.gtb (F64.of_float (S754_finite false m e')) A4_bottom_range = false /\
    F64.gtb (F64.of_float (fmul (S754_finite false m e') (F32.of_Z 2))) A4_bottom_range
      = true.
Proof.
  apply (handle_frequency_normalizes 135 (F32.of_Z 440)).
  - lia.
  - apply normal_posb_true. vm_compute. reflexivity.
Defined.



(** ** The note that is shown *)

Lemma normalized_range m :
  Z.pos (digits2_pos m) = 24 ->
  normal_float (normalized m) /\
  F64.gtb (F64.of_float (normalized m)) A4_bottom_range = false.
Proof.
  intros Hd. rewrite normalized_eq by done.
  destruct (Z.ltb_spec 7520131768406508 (536870912 * Z.pos m)) as [Hgt|Hle].
  - split; [exists m, (-16); repeat split; (done || lia)|].
    by rewrite above_A4_spec by (done || lia).
  - split; [exists m, (-15); repeat split; (done || lia)|].
    rewrite above_A4_spec by (done || lia).
    change (-15 <? -15) with false. change (-15 =? -15) with true. cbn [orb andb].
    by destruct (Z.ltb_spec 7520131768406508 (536870912 * Z.pos m)); [lia|].
Qed.

(** What a branch of the chain leaves on the pins. *)
Lemma show_levels note frequency reference :
  display_byte (show note frequency reference) = display_byte (update_display note) /\
  led_levels (show note frequency reference)
    = led_levels (update_leds frequency (float_of_double reference)).
Proof.
  unfold show, update_leds.
  destruct (F64.ltb _ _); [split; reflexivity|].
  destruct (F64.gtb _ _); split; reflexivity.
Qed.

Lemma note_table_u8 lo hi note ref : (lo, hi, note, ref) ∈ note_table -> is_u8 note.
Proof.
  intros Hin.
  assert (forallb (fun x => (0 <=? x.1.2) && (x.1.2 <? 256)) note_table = true) as Hall
    by (vm_compute; reflexivity).
  rewrite forallb_forall in Hall. apply list_elem_of_In in Hin.
  specialize (Hall _ Hin). simpl in Hall. unfold is_u8. lia.
Qed.

(** The chain of ranges on a normal positive frequency that is not above
    [A4_bottom_range]: the pattern of one note and one indicator, or
    nothing. *)
Lemma show_note_levels g :
  normal_float g -> F64.gtb (F64.of_float g) A4_bottom_range = false ->
  (F64.gtb (F64.of_float g) A3_bottom_range = true ->
   F64.of_float g <> E3_bottom_range ->
   exists lo hi note ref,
     (lo, hi, note, ref) ∈ note_table /\ between g lo hi = true /\
     show_note g = show note g ref /\
     display_byte (show_note g) = Some note /\
     (led_levels (show_note g) = (Some true, Some false, Some false) \/
      led_levels (show_note g) = (Some false, Some true, Some false) \/
      led_levels (show_note g) = (Some false, Some false, Some true))) /\
  (F64.gtb (F64.of_float g) A3_bottom_range = false \/ F64.of_float g = E3_bottom_range ->
   show_note g = []).
Proof.
  intros (m & e & -> & Hd & He) H4.
  destruct (show_note_cases m e Hd He H4) as [Hone Hnone]. split; [|exact Hnone].
  intros H3 Hne. destruct (Hone H3 Hne) as (lo & hi & note & ref & Hin & Hb & Hshow).
  exists lo, hi, note, ref. split; [done|]. split; [done|]. split; [done|].
  rewrite Hshow. destruct (show_levels note (S754_finite false m e) ref) as [-> ->].
  split.
  - apply display_byte_update_display. by apply (note_table_u8 lo hi note ref).
  - apply led_levels_update_leds.
Qed.

(** X17: on a positive frequency of mantissa [m] in the normal range the
    handler goes through the chain of lines 192-251 with [normalized m],
    the frequency as the loops leave it. When this is above
    [A3_bottom_range] and is not the bound [E3_bottom_range], the only
    bound that is a [float], the calls of [gpio_put] are those of the
    branch of the note in whose range it lies: the segments spell the
    pattern of this note and one indicator is lit. In every other case the
    handler calls [gpio_put] for no pin. *)
Theorem handled_frequency_shows_one_note fuel m e :
  (135 <= fuel)%nat -> Z.pos (digits2_pos m) = 24 -> -149 <= e <= 104 ->
  exists events,
    handle_frequency fuel (S754_finite false m e) = Ok events /\
    (F64.gtb (F64.of_float (normalized m)) A3_bottom_range = true ->
     F64.of_float (normalized m) <> E3_bottom_range ->
     exists lo hi note ref,
       (lo, hi, note, ref) ∈ note_table /\ between (normalized m) lo hi = true /\
       events = show note (normalized m) ref /\
       display_byte events = Some note /\
       (led_levels events = (Some true, Some false, Some false) \/
        led_levels events = (Some false, Some true, Some false) \/
        led_levels events = (Some false, Some false, Some true))) /\
    (F64.gtb (F64.of_float (normalized m)) A3_bottom_range = false \/
     F64.of_float (normalized m) = E3_bottom_range ->
     events = []).
Proof.
  intros Hfuel Hd He. exists (show_note (normalized m)).
  split; [by apply handle_frequency_normal|].
  destruct (normalized_range m Hd) as [Hn H4].
  destruct (show_note_levels (normalized m) Hn H4) as [Hone Hnone].
  split; [|exact Hnone].
  intros H3 Hne. destruct (Hone H3 Hne) as (lo & hi & note & ref & Hin & Hb & Hshow & Hbyte & Hled).
  exists lo, hi, note, ref. rewrite <- Hshow.
  split; [exact Hin|]. split; [exact Hb|]. split; [reflexivity|].
  split; [exact Hbyte|exact Hled].
Qed.

Lemma handled_frequency_shows_one_note_witness :
  exists events,
    handle_frequency 135 (S754_finite false 14417920 (-15)) = Ok events /\
    (F64.gtb (F64.of_float (normalized 14417920)) A3_bottom_range = true ->
     F64.of_float (normalized 14417920) <> E3_bottom_range ->
     exists lo hi note ref,
       (lo, hi, note, ref) ∈ note_table /\ between (normalized 14417920) lo hi = true /\
       events = show note (normalized 14417920) ref /\
       display_byte events = Some note /\
       (led_levels events = (Some true, Some false, Some false) \/
        led_levels events = (Some false, Some true, Some false) \/
        led_levels events = (Some false, Some false, Some true))) /\
    (F64.gtb (F64.of_float (normalized 14417920)) A3_bottom_range = false \/
     F64.of_float (normalized 14417920) = E3_bottom_range ->
     events = []).
Proof.
  apply (handled_frequency_shows_one_note 135 14417920 (-15)).
  - lia.
  - reflexivity.
  - lia.
Defined.

(** ** Frequencies for which nothing is shown *)

(** X18: [A4_bottom_range] is less than twice [A3_bottom_range], so a
    frequency above the first whose half is below the second, one between
    427.47 and 427.48 Hz, is halved by the second loop to a value below
    every range: the handler calls [gpio_put] for no pin. *)
Theorem frequency_between_octaves_shows_nothing fuel frequency :
  (135 <= fuel)%nat -> normal_float frequency ->
  F64.gtb (F64.of_float frequency) A4_bottom_range = true ->
  F64.ltb (F64.of_float (F32.div frequency (F32.of_Z 2))) A3_bottom_range = true ->
  octave_up fuel frequency = Ok frequency /\
  octave_down fuel frequency = Ok (F32.div frequency (F32.of_Z 2)) /\
  handle_frequency fuel frequency = Ok [].
Proof.
  intros Hfuel (m & e & -> & Hd & He) H4 H3.
  assert (e = -15 /\ 7520131768406508 < 536870912 * Z.pos m < 7520307690266952)
    as [-> Hm].
  { rewrite above_A4_spec in H4 by done.
    rewrite orb_true_iff, andb_true_iff, !Z.ltb_lt, Z.eqb_eq in H4.
    rewrite fdiv_two in H3 by (done || lia). rewrite below_A3_spec in H3 by (done || lia).
    rewrite orb_true_iff, andb_true_iff, !Z.ltb_lt, Z.eqb_eq in H3. lia. }
  clear H3 H4. rewrite fdiv_two by (done || lia). change (-15 - 1) with (-16).
  assert (normalized m = S754_finite false m (-16)) as Hn.
  { rewrite normalized_eq by done.
    by destruct (Z.ltb_spec 7520131768406508 (536870912 * Z.pos m)); [|lia]. }
  split; [apply octave_up_high; [exact Hd|lia]|]. split.
  - rewrite (octave_down_high 0 fuel m (-15)) by (exact Hd || lia || reflexivity).
    by rewrite Hn.
  - rewrite handle_frequency_normal, Hn by (done || lia). f_equal.
    apply show_note_cases; [done|lia| |].
    + by rewrite above_A4_spec by (done || lia).
    + left. apply not_true_iff_false.
      rewrite (gtb_iff m (-16) _ _ _ Hd ltac:(lia) A3_bottom_range_eq). lia.
Qed.

Lemma frequency_between_octaves_shows_nothing_witness :
  let frequency := F32.div (F32.of_Z 427475) (F32.of_Z 1000) in
  octave_up 135 frequency = Ok frequency /\
  octave_down 135 frequency = Ok (F32.div frequency (F32.of_Z 2)) /\
  handle_frequency 135 frequency = Ok [].
Proof.
  apply (frequency_between_octaves_shows_nothing 135
           (F32.div (F32.of_Z 427475) (F32.of_Z 1000))).
  - lia.
  - apply normal_posb_true. vm_compute. reflexivity.
  - vm_compute. reflexivity.
  - vm_compute. reflexivity.
Defined.

(** X19: the bounds of the ranges are excluded on both sides, and
    [E3_bottom_range], 320.25 Hz, is a [float]: a frequency that is 320.25
    Hz in some octave is in the range of neither D sharp nor E, and the
    handler calls [gpio_put] for no pin. No other bound is a [float]. *)
Theorem frequency_on_bound_shows_nothing fuel frequency k :
  (135 <= fuel)%nat -> -134 <= k <= 119 ->
  frequency = S754_finite false 10493952 (-15 + k) ->
  F64.of_float (S754_finite false 10493952 (-15)) = E3_bottom_range /\
  handle_frequency fuel frequency = Ok [] /\
  forall g bound,
    normal_float g ->
    bound ∈ [A3_bottom_range; A3_sharp_bottom_range; B3_bottom_range; C3_bottom_range;
             C3_sharp_bottom_range; D3_bottom_range; D3_sharp_bottom_range;
             F3_bottom_range; F3_sharp_bottom_range; G3_bottom_range;
             G3_sharp_bottom_range; A4_bottom_range] ->
    F64.of_float g <> bound.
Proof.
  intros Hfuel Hk ->.
  assert (Z.pos (digits2_pos 10493952) = 24) as Hd by reflexivity.
  split; [vm_compute; reflexivity|]. split.
  - rewrite handle_frequency_normal by (done || lia). vm_compute. reflexivity.
  - intros g bound (m & e & -> & Hdm & He) Hin Heq.
    rewrite of_float_normal in Heq by (done || lia).
    assert (exists M E, bound = S754_finite false M E /\ Z.pos M mod 536870912 <> 0)
      as (M & E & -> & Hmod).
    { rewrite !elem_of_cons in Hin.
      repeat (destruct Hin as [->|Hin];
              [eexists _, _; split; [vm_compute; reflexivity|vm_compute; discriminate]|]).
      by apply elem_of_nil in Hin. }
    assert (Z.pos (Pos.iter xO m 29) = Z.pos M) as HM by congruence.
    rewrite iter_xO_29 in HM.
    rewrite <- HM in Hmod. apply Hmod.
    rewrite Z.mul_comm. apply Z.mod_mul. lia.
Qed.

Lemma frequency_on_bound_shows_nothing_witness :
  F64.of_float (S754_finite false 10493952 (-15)) = E3_bottom_range /\
  handle_frequency 135 (F32.div (F32.of_Z 128100) (F32.of_Z 100)) = Ok [] /\
  forall g bound,
    normal_float g ->
    bound ∈ [A3_bottom_range; A3_sharp_bottom_range; B3_bottom_range; C3_bottom_range;
             C3_sharp_bottom_range; D3_bottom_range; D3_sharp_bottom_range;
             F3_bottom_range; F3_sharp_bottom_range; G3_bottom_range;
             G3_sharp_bottom_range; A4_bottom_range] ->
    F64.of_float g <> bound.
Proof.
  apply (frequency_on_bound_shows_nothing 135 (F32.div (F32.of_Z 128100) (F32.of_Z 100)) 2).
  - lia.
  - lia.
  - vm_compute. reflexivity.
Defined.

(** ** Frequencies on which the loops do not end *)

Lemma octave_up_zero fuel s : octave_up fuel (S754_zero s) = OutOfFuel.
Proof.
  revert s. induction fuel as [|fuel IH]; intros s; rewrite octave_up_unfold.
  - by rewrite A3_bottom_range_eq.
  - rewrite A3_bottom_range_eq. cbn [F64.of_float F64.ltb SFltb SFcompare].
    change (fmul (S754_zero s) (F32.of_Z 2)) with (S754_zero (xorb s false)). apply IH.
Qed.

Lemma octave_up_minus_infinity fuel : octave_up fuel (S754_infinity true) = OutOfFuel.
Proof.
  induction fuel as [|fuel IH]; rewrite octave_up_unfold.
  - by rewrite A3_bottom_range_eq.
  - rewrite A3_bottom_range_eq. cbn [F64.of_float F64.ltb SFltb SFcompare].
    change (fmul (S754_infinity true) (F32.of_Z 2)) with (S754_infinity true). apply IH.
Qed.

Lemma octave_down_infinity fuel : octave_down fuel (S754_infinity false) = OutOfFuel.
Proof.
  induction fuel as [|fuel IH]; rewrite octave_down_unfold.
  - by rewrite A4_bottom_range_eq.
  - rewrite A4_bottom_range_eq. cbn [F64.of_float F64.gtb SFltb SFcompare].
    change (F32.div (S754_infinity false) (F32.of_Z 2)) with (S754_infinity false).
    apply IH.
Qed.

Lemma octave_up_negative fuel m e :
  Z.pos (digits2_pos m) = 24 -> -149 <= e <= 104 ->
  octave_up fuel (S754_finite true m e) = OutOfFuel.
Proof.
  intros Hd. revert e. induction fuel as [|fuel IH]; intros e He; rewrite octave_up_unfold;
    rewrite of_float_normal, A3_bottom_range_eq by (done || lia);
    cbn [F64.ltb SFltb SFcompare]; [done|].
  destruct (Z.le_gt_cases e 103) as [Hle|Hgt].
  - rewrite fmul_two by (done || lia). apply IH. lia.
  - assert (e = 104) as -> by lia.
    assert (fmul (S754_finite true m 104) (F32.of_Z 2) = S754_infinity true) as ->.
    { change (F32.of_Z 2) with (S754_finite false 8388608 (-22)).
      unfold fmul, SFmul. rewrite Bool.xorb_false_r.
      rewrite (binary_round_aux_shift F32.prec F32.emax true (m * 8388608) m 23);
        unfold F32.prec, F32.emax; (done || lia). }
    apply octave_up_minus_infinity.
Qed.

(** X20: the loops of lines 186-189 never end on a frequency that is zero,
    negative or infinite: doubling keeps a zero, and takes a negative
    number to minus infinity, below [A3_bottom_range], and halving keeps
    plus infinity above [A4_bottom_range]; no number of iterations is
    enough. On a value that is not a number both tests fail, as do those of
    the chain, and the handler calls [gpio_put] for no pin. *)
Theorem handle_frequency_never_returns fuel :
  (forall s, handle_frequency fuel (S754_zero s) = OutOfFuel) /\
  (forall s, handle_frequency fuel (S754_infinity s) = OutOfFuel) /\
  (forall m e, Z.pos (digits2_pos m) = 24 -> -149 <= e <= 104 ->
     handle_frequency fuel (S754_finite true m e) = OutOfFuel) /\
  handle_frequency fuel S754_nan = Ok [].
Proof.
  split; [|split; [|split]].
  - intros s. unfold handle_frequency. by rewrite octave_up_zero.
  - intros [|]; unfold handle_frequency.
    + by rewrite octave_up_minus_infinity.
    + assert (octave_up fuel (S754_infinity false) = Ok (S754_infinity false)) as ->.
      { rewrite octave_up_unfold. by rewrite A3_bottom_range_eq. }
      by rewrite octave_down_infinity.
  - intros m e Hd He. unfold handle_frequency. by rewrite octave_up_negative.
  - unfold handle_frequency.
    assert (octave_up fuel S754_nan = Ok S754_nan) as -> by (by rewrite octave_up_unfold).
    assert (octave_down fuel S754_nan = Ok S754_nan) as -> by (by rewrite octave_down_unfold).
    reflexivity.
Qed.

(** ** From the samples to the pins *)

Lemma spec_float_eq_dec (x y : spec_float) : {x = y} + {x <> y}.
Proof.
  decide equality; (apply Bool.bool_dec || apply Pos.eq_dec || apply Z.eq_dec).
Qed.


Lemma core1_interrupt_handler_one fuel frequency events :
  handle_frequency fuel frequency = Ok events ->
  core1_interrupt_handler fuel [frequency] = Ok events.
Proof. intros H. simpl. rewrite H. by rewrite app_nil_r. Qed.

Lemma smooth_u8 fuel samples_buff samples0 t :
  (1500 <= fuel)%nat ->
  Z.of_nat (length samples_buff) = NUM_SAMPLES + SMA_WIDTH ->
  Forall is_u8 samples_buff ->
  Z.of_nat (length samples0) = NUM_SAMPLES ->
  exists samples tr,
    smooth fuel samples_buff samples0 t = (Ok samples, tr ++ t) /\
    Z.of_nat (length samples) = NUM_SAMPLES /\ Forall is_u8 samples.
Proof.
  intros Hfuel Hlb Hu8 Hl0.
  destruct (smooth_spec fuel samples_buff samples0 t Hfuel Hlb Hu8 Hl0)
    as (samples & tr & Hrun & Hlen & Hval).
  exists samples, tr. split; [done|]. split; [done|].
  apply Forall_lookup. intros k v Hk.
  pose proof (lookup_lt_Some _ _ _ Hk) as Hlt.
  specialize (Hval (Z.of_nat k) ltac:(lia)). unfold get in Hval.
  destruct (Z.ltb_spec (Z.of_nat k) 0); [lia|]. rewrite Nat2Z.id, Hk in Hval.
  injection Hval as ->. apply window_mean_u8; [lia| |done].
  unfold NUM_SAMPLES, SMA_WIDTH in *. lia.
Qed.

(** X21: whatever the [NUM_SAMPLES + SMA_WIDTH] raw samples, an iteration
    of [core0_thread] makes no access out of bounds and pushes a positive
    frequency in the normal range of [float], between 2^-16 and 2^30; on
    such a frequency the loops of the handler of core 1 end, and the
    handler returns after calls of [gpio_put] that set the eight segments
    and leave one indicator lit, or after no call at all. *)
Theorem raw_samples_to_pins fuel samples_buff samples0 interference0 peaks0 t :
  (1500 <= fuel)%nat ->
  Z.of_nat (length samples_buff) = NUM_SAMPLES + SMA_WIDTH ->
  Forall is_u8 samples_buff ->
  Z.of_nat (length samples0) = NUM_SAMPLES ->
  Z.of_nat (length interference0) = NUM_SAMPLES ->
  Z.of_nat (length peaks0) = PEAK_TRACKING_LIMIT ->
  exists frequency events,
    fst (core0_iteration fuel samples_buff samples0 interference0 peaks0 t) = Ok frequency /\
    normal_pos (-39) 6 frequency /\
    core1_interrupt_handler fuel [frequency] = Ok events /\
    (events = [] \/
     display_byte events <> None /\
     (led_levels events = (Some true, Some false, Some false) \/
      led_levels events = (Some false, Some true, Some false) \/
      led_levels events = (Some false, Some false, Some true))).
Proof.
  intros Hfuel Hlb Hu8b Hl0 Hli Hlp.
  destruct (smooth_u8 fuel samples_buff samples0 t Hfuel Hlb Hu8b Hl0)
    as (signal & tr0 & Hsmooth & Hlen & Hu8).
  destruct (calculate_freq_steps fuel interference0 peaks0 signal (tr0 ++ t)
              Hfuel Hlen Hu8 Hli Hlp)
    as (itf & ps & c & tr1 & tr2 & tr3 & _ & _ & _ & _ & Hfin & _ & Hfreq).
  pose proof Hfin as [Hok _]. destruct (final_ok_peaks ps c tr2 Hfin) as [Hrange _].
  assert (normal_pos (-36) 7 (avg_wavelength_value ps c)) as Havg.
  { apply avg_wavelength_value_normal; [|rewrite (ok_len _ _ _ _ _ Hok)|done].
    - pose proof (ok_count _ _ _ _ _ Hok). unfold PEAK_TRACKING_LIMIT in *. lia.
    - pose proof (ok_count _ _ _ _ _ Hok). unfold PEAK_TRACKING_LIMIT in *. lia. }
  pose proof (frequency_normal _ Havg) as Hf.
  set (frequency := F32.div (F32.of_Z FS) (avg_wavelength_value ps c)) in *.
  assert (normal_float frequency) as Hnf.
  { eapply normal_pos_weaken; [| |exact Hf]; lia. }
  destruct Hnf as (m & e & Hfe & Hd & He).
  destruct (normalized_range m Hd) as [Hn H4].
  destruct (show_note_levels (normalized m) Hn H4) as [Hone Hnone].
  set (g := normalized m) in *.
  exists frequency, (show_note g). split.
  { unfold core0_iteration. rewrite (bind_Ok _ _ _ _ _ Hsmooth).
    by rewrite (bind_Ok _ _ _ _ _ Hfreq). }
  split; [exact Hf|]. split.
  { apply core1_interrupt_handler_one. rewrite Hfe.
    apply handle_frequency_normal; [lia|exact Hd|exact He]. }
  destruct (F64.gtb (F64.of_float g) A3_bottom_range) eqn:H3; [|left; apply Hnone; by left].
  destruct (spec_float_eq_dec (F64.of_float g) E3_bottom_range) as [Heq|Hne];
    [left; apply Hnone; by right|].
  right. destruct (Hone eq_refl Hne) as (lo & hi & note & ref & _ & _ & _ & -> & Hled).
  split; [done|exact Hled].
Qed.

Lemma raw_samples_to_pins_witness :
  exists frequency events,
    fst (core0_iteration 1500 (replicate 1520 200) (replicate 1500 0) (replicate 1500 0)
           (replicate 10 0) []) = Ok frequency /\
    normal_pos (-39) 6 frequency /\
    core1_interrupt_handler 1500 [frequency] = Ok events /\
    (events = [] \/
     display_byte events <> None /\
     (led_levels events = (Some true, Some false, Some false) \/
      led_levels events = (Some false, Some true, Some false) \/
      led_levels events = (Some false, Some false, Some true))).
Proof.
  apply (raw_samples_to_pins 1500 (replicate 1520 200) (replicate 1500 0) (replicate 1500 0)
           (replicate 10 0) []).
  - lia.
  - reflexivity.
  - apply Forall_replicate. unfold is_u8. lia.
  - reflexivity.
  - reflexivity.
  - reflexivity.
Defined.

(** ** A note that is in tune *)

(** X22: the ranges and the reference frequencies of [macros.h] agree: when
    the frequency is the reference frequency of one of the twelve notes, in
    any octave, the handler spells the pattern of that note on the
    segments and lights the in-tune indicator alone. *)
Theorem reference_frequency_is_in_tune fuel i lo hi note ref e :
  (135 <= fuel)%nat -> note_table !! i = Some (lo, hi, note, ref) -> -149 <= e <= 104 ->
  exists m e0 events,
    float_of_double ref = S754_finite false m e0 /\
    handle_frequency fuel (S754_finite false m e) = Ok events /\
    display_byte events = Some note /\
    led_levels events = (Some false, Some true, Some false).
Proof.
  intros Hfuel Hi He.
  assert (forallb (fun x =>
            match float_of_double x.2 with
            | S754_finite false m e0 =>
                (Z.pos (digits2_pos m) =? 24) &&
                match display_byte (show_note (normalized m)) with
                | Some b => b =? x.1.2
                | None => false
                end &&
                bool_decide (led_levels (show_note (normalized m))
                             = (Some false, Some true, Some false))
            | _ => false
            end) note_table = true) as Hall by (vm_compute; reflexivity).
  rewrite forallb_forall in Hall.
  specialize (Hall _ (proj1 (list_elem_of_In _ _) (list_elem_of_lookup_2 _ _ _ Hi))).
  cbn [fst snd] in Hall.
  destruct (float_of_double ref) as [| | |[|] m e0]; try done.
  apply andb_prop in Hall as [[Hd%Z.eqb_eq Hbyte]%andb_prop Hled%bool_decide_eq_true].
  exists m, e0, (show_note (normalized m)). split; [done|].
  split; [by apply handle_frequency_normal|]. split; [|done].
  destruct (display_byte (show_note (normalized m))) as [b|]; [|discriminate Hbyte].
  apply Z.eqb_eq in Hbyte. by rewrite Hbyte.
Qed.

Lemma reference_frequency_is_in_tune_witness :
  exists m e0 events,
    float_of_double A3_sharp_freq = S754_finite false m e0 /\
    handle_frequency 135 (S754_finite false m (-14)) = Ok events /\
    display_byte events = Some A_sharp_note /\
    led_levels events = (Some false, Some true, Some false).
Proof.
  apply (reference_frequency_is_in_tune 135 1
           A3_sharp_bottom_range B3_bottom_range A_sharp_note A3_sharp_freq (-14)).
  - lia.
  - reflexivity.
  - lia.
Defined.

(** ** The handler on several frequencies *)

Lemma pin_level_app events1 events2 pin :
  pin_level (events1 ++ events2) pin =
    match pin_level events2 pin with
    | Some v => Some v
    | None => pin_level events1 pin
    end.
Proof.
  unfold pin_level. rewrite foldl_app. generalize (foldl
    (fun level ev => match ev with GpioPut p v => if p =? pin then Some v else level end)
    None events1) as level.
  induction events2 as [|[p v] events2 IH]; intros level; [done|].
  cbn [foldl]. rewrite IH, (IH (if p =? pin then Some v else None)).
  destruct (foldl _ None events2); [done|]. by destruct (p =? pin).
Qed.

Lemma display_byte_ext events1 events2 :
  Forall (fun pin => pin_level events1 pin = pin_level events2 pin) segment_pins ->
  display_byte events1 = display_byte events2.
Proof.
  intros Hall. unfold display_byte.
  assert (forall pins byte,
            Forall (fun pin => pin_level events1 pin = pin_level events2 pin) pins ->
            foldl (fun byte pin =>
                     match byte, pin_level events1 pin with
                     | Some b, Some v => Some (2 * b + Z.b2z v)
                     | _, _ => None
                     end) byte pins
            = foldl (fun byte pin =>
                     match byte, pin_level events2 pin with
                     | Some b, Some v => Some (2 * b + Z.b2z v)
                     | _, _ => None
                     end) byte pins) as Hfold.
  { induction pins as [|pin pins IH]; intros byte Hpins; [done|].
    apply Forall_cons in Hpins as [Hpin Hpins]. cbn [foldl]. rewrite Hpin. by apply IH. }
  by apply Hfold.
Qed.

(** The pins after a branch of the chain do not depend on what was set
    before. *)
Lemma show_overrides events note frequency reference :
  display_byte (events ++ show note frequency reference)
    = display_byte (show note frequency reference) /\
  led_levels (events ++ show note frequency reference)
    = led_levels (show note frequency reference).
Proof.
  assert (forall pin,
            pin ∈ segment_pins ++ [LOW_PITCH_INDICATOR_PIN; IN_TUNE_INDICATOR_PIN;
                                   HI_PITCH_INDICATOR_PIN] ->
            pin_level (events ++ show note frequency reference) pin
              = pin_level (show note frequency reference) pin) as Hpin.
  { assert (Forall (fun pin => pin_level (show note frequency reference) pin <> None)
              (segment_pins ++ [LOW_PITCH_INDICATOR_PIN; IN_TUNE_INDICATOR_PIN;
                                HI_PITCH_INDICATOR_PIN])) as Hset.
    { unfold show, update_leds, segment_pins. cbn [app].
      destruct (F64.ltb _ _); [|destruct (F64.gtb _ _)];
        repeat (apply Forall_cons; split; [intros H; vm_compute in H; discriminate H|]);
        by apply Forall_nil. }
    intros pin Hin. rewrite Forall_forall in Hset. specialize (Hset pin Hin).
    rewrite pin_level_app.
    by destruct (pin_level (show note frequency reference) pin). }
  split.
  - apply display_byte_ext, Forall_forall. intros pin Hin. apply Hpin.
    apply elem_of_app. by left.
  - unfold led_levels. rewrite !Hpin; [done| | |]; apply elem_of_app; right;
      rewrite !elem_of_cons; tauto.
Qed.

Lemma core1_interrupt_handler_app fuel fifo1 fifo2 events1 events2 :
  core1_interrupt_handler fuel fifo1 = Ok events1 ->
  core1_interrupt_handler fuel fifo2 = Ok events2 ->
  core1_interrupt_handler fuel (fifo1 ++ fifo2) = Ok (events1 ++ events2).
Proof.
  revert events1. induction fifo1 as [|f fifo1 IH]; intros events1 H1 H2.
  - injection H1 as <-. done.
  - cbn [app core1_interrupt_handler] in *.
    destruct (handle_frequency fuel f) as [ev| |]; try discriminate.
    destruct (core1_interrupt_handler fuel fifo1) as [evs| |]; try discriminate.
    injection H1 as <-. rewrite (IH evs eq_refl H2). by rewrite app_assoc.
Qed.

Lemma core1_interrupt_handler_normal fuel fifo :
  (135 <= fuel)%nat -> Forall normal_float fifo ->
  exists events, core1_interrupt_handler fuel fifo = Ok events.
Proof.
  intros Hfuel. induction 1 as [|f fifo (m & e & -> & Hd & He) _ [events IH]].
  - by exists [].
  - eexists. cbn [core1_interrupt_handler].
    rewrite handle_frequency_normal, IH by (exact Hd || lia). done.
Qed.

(** X23: the handler takes every frequency out of the FIFO, the oldest
    first, and returns when all of them are positive numbers in the normal
    range. The pins are left as the last frequency that shows a note sets
    them: a later frequency that shows nothing changes neither the
    segments nor the indicators. *)
Theorem handler_keeps_last_shown_note fuel fifo frequency :
  (135 <= fuel)%nat -> Forall normal_float fifo -> normal_float frequency ->
  exists events shown,
    core1_interrupt_handler fuel fifo = Ok events /\
    handle_frequency fuel frequency = Ok shown /\
    core1_interrupt_handler fuel (fifo ++ [frequency]) = Ok (events ++ shown) /\
    (shown = [] ->
     display_byte (events ++ shown) = display_byte events /\
     led_levels (events ++ shown) = led_levels events) /\
    (shown <> [] ->
     display_byte (events ++ shown) = display_byte shown /\
     led_levels (events ++ shown) = led_levels shown /\
     display_byte shown <> None).
Proof.
  intros Hfuel Hfifo Hf.
  destruct (core1_interrupt_handler_normal fuel fifo Hfuel Hfifo) as [events Hevents].
  destruct Hf as (m & e & -> & Hd & He).
  pose proof (handle_frequency_normal fuel m e Hfuel Hd He) as Hh.
  destruct (normalized_range m Hd) as [Hn H4].
  destruct (show_note_levels (normalized m) Hn H4) as [Hone Hnone].
  exists events, (show_note (normalized m)). split; [done|]. split; [done|]. split.
  { apply core1_interrupt_handler_app; [done|]. by apply core1_interrupt_handler_one. }
  split; [intros ->; rewrite app_nil_r; split; reflexivity|].
  intros Hshown.
  destruct (F64.gtb (F64.of_float (normalized m)) A3_bottom_range) eqn:H3;
    [|exfalso; apply Hshown, Hnone; by left].
  destruct (spec_float_eq_dec (F64.of_float (normalized m)) E3_bottom_range) as [Heq|Hne];
    [exfalso; apply Hshown, Hnone; by right|].
  destruct (Hone eq_refl Hne) as (lo & hi & note & ref & _ & _ & Hshow & Hbyte & _).
  rewrite Hshow in Hbyte |- *.
  destruct (show_overrides events note (normalized m) ref) as [Hb Hl].
  split; [exact Hb|]. split; [exact Hl|]. rewrite Hbyte. discriminate.
Qed.

Lemma handler_keeps_last_shown_note_witness :
  exists events shown,
    core1_interrupt_handler 135 [F32.of_Z 440] = Ok events /\
    handle_frequency 135 (F32.div (F32.of_Z 427475) (F32.of_Z 1000)) = Ok shown /\
    core1_interrupt_handler 135 ([F32.of_Z 440] ++ [F32.div (F32.of_Z 427475) (F32.of_Z 1000)])
      = Ok (events ++ shown) /\
    (shown = [] ->
     display_byte (events ++ shown) = display_byte events /\
     led_levels (events ++ shown) = led_levels events) /\
    (shown <> [] ->
     display_byte (events ++ shown) = display_byte shown /\
     led_levels (events ++ shown) = led_levels shown /\
     display_byte shown <> None).
Proof.
  apply (handler_keeps_last_shown_note 135 [F32.of_Z 440]
           (F32.div (F32.of_Z 427475) (F32.of_Z 1000))).
  - lia.
  - apply Forall_cons. split; [|by apply Forall_nil].
    apply normal_posb_true. vm_compute. reflexivity.
  - apply normal_posb_true. vm_compute. reflexivity.
Defined.

(** ** The peaks as a function of the profile *)

Lemma lowest_min_first_min array b n :
  0 <= b -> b + Z.of_nat (S n) <= Z.of_nat (length array) ->
  first_min array b (Z.of_nat (S n)) (lowest_min array b (S n)).
Proof.
  intros Hb. induction n as [|n IH]; intros Hlen.
  - destruct (get_lt_Some array b ltac:(lia)) as [v Hv].
    cbn [lowest_min]. rewrite Z.add_0_r, Hv, Z.ltb_irrefl.
    split; [lia|]. exists v. split; [done|]. split.
    + intros j w Hj Hw. assert (j = b) as -> by lia. assert (w = v) by congruence. lia.
    + intros j w Hj. lia.
  - specialize (IH ltac:(lia)).
    set (m := lowest_min array b (S n)) in *.
    destruct IH as [Hm (v & Hv & Hle & Hlt)].
    destruct (get_lt_Some array (b + Z.of_nat (S n)) ltac:(lia)) as [a Ha].
    change (lowest_min array b (S (S n))) with
      (match get array (b + Z.of_nat (S n)), get array m with
       | Some a, Some v => if a <? v then b + Z.of_nat (S n) else m
       | _, _ => m
       end).
    rewrite Ha, Hv. destruct (Z.ltb_spec a v) as [Hav|Hva].
    + split; [lia|]. exists a. split; [done|]. split.
      * intros j w Hj Hw. destruct (Z.eq_dec j (b + Z.of_nat (S n))) as [->|Hne].
        -- assert (w = a) by congruence. lia.
        -- specialize (Hle j w ltac:(lia) Hw). lia.
      * intros j w Hj Hw. specialize (Hle j w ltac:(lia) Hw). lia.
    + split; [lia|]. exists v. split; [done|]. split.
      * intros j w Hj Hw. destruct (Z.eq_dec j (b + Z.of_nat (S n))) as [->|Hne].
        -- assert (w = a) by congruence. lia.
        -- apply (Hle j w); [lia|done].
      * done.
Qed.

Lemma window_min_first_min array j :
  0 <= j -> PEAK_SEARCH_RANGE * j + PEAK_SEARCH_RANGE <= Z.of_nat (length array) ->
  first_min array (PEAK_SEARCH_RANGE * j) PEAK_SEARCH_RANGE (window_min array j).
Proof.
  intros Hj Hlen. unfold window_min, PEAK_SEARCH_RANGE in *.
  apply (lowest_min_first_min array (15 * j) 14); lia.
Qed.

Lemma first_min_window_min array j m v :
  0 <= j -> PEAK_SEARCH_RANGE * j + PEAK_SEARCH_RANGE <= Z.of_nat (length array) ->
  first_min array (PEAK_SEARCH_RANGE * j) PEAK_SEARCH_RANGE m -> get array m = Some v ->
  m = window_min array j /\ v = window_min_value array j.
Proof.
  intros Hj Hlen Hm Hv.
  pose proof (first_min_unique _ _ _ _ _ Hm (window_min_first_min array j Hj Hlen)) as Heq.
  split; [done|]. unfold window_min_value. by rewrite <- Heq, Hv.
Qed.

Lemma dips_prefix array n k : dips array (n + k) = dips array n ++ drop (length (dips array n)) (dips array (n + k)).
Proof.
  induction k as [|k IH].
  - rewrite Nat.add_0_r, drop_all. by rewrite app_nil_r.
  - replace (n + S k)%nat with (S (n + k)) by lia. cbn [dips].
    rewrite IH at 1. rewrite <- app_assoc. f_equal.
    rewrite IH at 2. rewrite <- app_assoc, drop_app_length. done.
Qed.

Lemma dips_take array n n' :
  (n <= n')%nat -> take (length (dips array n)) (dips array n') = dips array n.
Proof.
  intros Hn. replace n' with (n + (n' - n))%nat by lia.
  rewrite (dips_prefix array n (n' - n)). by rewrite take_app_length.
Qed.

Lemma calculate_peaks_body_dips fuel array s t fl t' :
  (15 <= fuel)%nat -> SHIFT_LIMIT <= Z.of_nat (length array) ->
  window_inv array s -> scan_guard s = true ->
  0 <= peak_count s <= 9 -> length (peaks s) = 10%nat ->
  dips_inv array s ->
  calculate_peaks_body fuel array s t = (Ok fl, t') ->
  match fl with
  | Continue s' => dips_inv array (scan_incr s')
  | Break s' | Return s' => dips_final array (peaks s') (peak_count s')
  end.
Proof.
  intros Hfuel Hlen Hwin Hg Hc Hl (n & Hn & Htk & Hcn) Hbody.
  destruct (calculate_peaks_body_eq fuel array s t Hfuel Hlen Hwin Hg)
    as (next & vp & vc & vn & vq & tr1 & tr2 & _ & Hnext & Hvp & Hvc & Hvn & Hvq & _ & _ & _ &
        Heq).
  rewrite Heq in Hbody. clear Heq.
  pose proof (candidate_predecessor_not_lower array s vp vc vq Hwin Hvp Hvc Hvq) as Hq.
  destruct Hwin as [_ Hprev Hcur].
  pose proof Hg as Hg'. unfold scan_guard in Hg'. apply Z.ltb_lt in Hg'.
  rewrite Hn in Hprev, Hcur, Hnext.
  unfold SHIFT_LIMIT in Hlen, Hg'.
  replace (PEAK_SEARCH_RANGE * (Z.of_nat n + 1) - PEAK_SEARCH_RANGE)
    with (PEAK_SEARCH_RANGE * (Z.of_nat (S n) - 1)) in Hprev by (unfold PEAK_SEARCH_RANGE; lia).
  replace (PEAK_SEARCH_RANGE * (Z.of_nat n + 1) + PEAK_SEARCH_RANGE)
    with (PEAK_SEARCH_RANGE * (Z.of_nat (S n) + 1)) in Hnext by (unfold PEAK_SEARCH_RANGE; lia).
  replace (Z.of_nat n + 1) with (Z.of_nat (S n)) in Hcur by lia.
  assert (Z.of_nat (S n) <= 81) as Hn81 by (unfold PEAK_SEARCH_RANGE in *; lia).
  destruct (first_min_window_min array (Z.of_nat (S n) - 1) _ _ ltac:(lia)
              ltac:(unfold PEAK_SEARCH_RANGE; lia) Hprev Hvp) as [_ Evp].
  destruct (first_min_window_min array (Z.of_nat (S n)) _ _ ltac:(lia)
              ltac:(unfold PEAK_SEARCH_RANGE; lia) Hcur Hvc) as [Ec Evc].
  destruct (first_min_window_min array (Z.of_nat (S n) + 1) _ _ ltac:(lia)
              ltac:(unfold PEAK_SEARCH_RANGE; lia) Hnext Hvn) as [_ Evn].
  assert (is_dip_window array (Z.of_nat (S n)) = (vc <? vp) && (vc <? vn)) as Hdip.
  { unfold is_dip_window. by rewrite <- Evp, <- Evc, <- Evn. }
  assert (u16 (scan_i s + 15) = scan_i s + 15) as Hu16
    by (apply u16_small; unfold PEAK_SEARCH_RANGE in *; lia).
  destruct ((vc <? vp) && (vc <? vn)) eqn:Hd.
  - apply andb_true_iff in Hd as [Hd1 _]. apply Z.ltb_lt in Hd1.
    specialize (Hq Hd1). destruct (Z.ltb_spec vq vc) as [?|_]; [lia|].
    destruct (append_peak_cases array s next vc
                (Rd Interference (current_min_index s)
                 :: Rd Interference (current_min_index s - 1) :: tr2 ++ tr1 ++ t) Hvc)
      as [Hbad|(s' & Hi' & Hp' & Hc' & Hps' & Hn' & Happ)].
    { cbv zeta in Hbody. rewrite Hbad in Hbody. discriminate. }
    cbv zeta in Hbody. rewrite Happ in Hbody. clear Happ.
    rewrite (u8_small (peak_count s + 1)) in * by lia.
    replace (peak_count s + 1 - 1) with (peak_count s) in * by lia.
    assert (take (Z.to_nat (peak_count s')) (peaks s') = dips array (S n)) as Htake.
    { rewrite Hps', Hn', take_insert_snoc by lia. rewrite Htk.
      cbn [dips]. by rewrite Hdip, Ec. }
    assert (peak_count s' = Z.of_nat (length (dips array (S n)))) as Hcount.
    { rewrite <- Htake, Hps', Hn', take_insert_snoc by lia.
      rewrite length_app, Htk. simpl. lia. }
    destruct (Z.geb_spec (peak_count s') PEAK_TRACKING_LIMIT) as [Hfull|Hroom].
    + assert (fl = Return s') as -> by congruence.
      unfold PEAK_TRACKING_LIMIT in Hfull.
      assert (length (dips array (S n)) = 10%nat) as Hten by lia.
      assert (take 10 (dips array 81) = dips array (S n)) as E.
      { rewrite <- Hten. apply dips_take. lia. }
      split; rewrite E; [exact Htake|exact Hcount].
    + assert (fl = Continue (slide s' next)) as -> by congruence.
      exists (S n). simpl. rewrite Hi', Hn. unfold PEAK_SEARCH_RANGE in *.
      rewrite Hn in Hu16. rewrite Hu16. split; [lia|]. by split.
  - assert (fl = Continue (slide s next)) as -> by congruence.
    exists (S n). simpl. rewrite Hn. unfold PEAK_SEARCH_RANGE in *.
    rewrite Hn in Hu16. rewrite Hu16. split; [lia|].
    cbn [dips]. rewrite Hdip, app_nil_r. by split.
Qed.

Lemma calculate_peaks_loop_dips fuel0 fuel array s tr t0 s' t' :
  (15 <= fuel0)%nat -> SHIFT_LIMIT <= Z.of_nat (length array) ->
  window_inv array s ->
  peaks_ok (scan_i s) 9 (peaks s) (peak_count s) tr ->
  dips_inv array s ->
  calculate_peaks_loop fuel0 fuel array s (tr ++ t0) = (Ok s', t') ->
  dips_final array (peaks s') (peak_count s').
Proof.
  intros Hfuel0 Hlen. revert s tr.
  assert (forall s tr, window_inv array s ->
            peaks_ok (scan_i s) 9 (peaks s) (peak_count s) tr ->
            dips_inv array s -> scan_guard s = false ->
            dips_final array (peaks s) (peak_count s)) as Hend.
  { intros s tr [(k & Hk & Hi) _ _] Hok (n & Hn & Htk & Hcn) Hg.
    unfold scan_guard in Hg. apply Z.ltb_ge in Hg.
    unfold SHIFT_LIMIT, PEAK_SEARCH_RANGE in *.
    assert (n = 81%nat) as -> by lia.
    pose proof (ok_count _ _ _ _ _ Hok) as Hc.
    assert (take 10 (dips array 81) = dips array 81) as E by (apply take_ge; lia).
    split; rewrite E; [exact Htk|exact Hcn]. }
  induction fuel as [|fuel IH]; intros s tr Hwin Hok Hsp Hloop.
  - simpl in Hloop. destruct (scan_guard s) eqn:Hg; [discriminate|].
    assert (s' = s) as -> by (unfold ret in Hloop; congruence). by apply (Hend s tr).
  - rewrite calculate_peaks_loop_S in Hloop. destruct (scan_guard s) eqn:Hg.
    + destruct (calculate_peaks_body_inv fuel0 array s tr t0 Hfuel0 Hlen Hwin Hg Hok)
        as (fl & tr' & Hbody & Hfl).
      pose proof (calculate_peaks_body_dips fuel0 array s (tr ++ t0) fl
                    (tr' ++ t0) Hfuel0 Hlen Hwin Hg (ok_count _ _ _ _ _ Hok)
                    (ok_len _ _ _ _ _ Hok) Hsp Hbody) as Hfl'.
      rewrite (bind_Ok _ _ _ _ _ Hbody) in Hloop. destruct fl as [s1|s1|s1].
      * destruct Hfl as (_ & Hwin' & Hok'). by apply (IH (scan_incr s1) tr').
      * by assert (s' = s1) as -> by (unfold ret in Hloop; congruence).
      * by assert (s' = s1) as -> by (unfold ret in Hloop; congruence).
    + assert (s' = s) as -> by (unfold ret in Hloop; congruence). by apply (Hend s tr).
Qed.

(** X24: what [calculate_peaks] records is a function of the profile
    alone. The scan looks at the windows 1 to 81 of [PEAK_SEARCH_RANGE]
    shifts; it records the lowest index of the minimum of a window when
    this minimum is strictly below the minima of the window before and of
    the window after, in ascending order, and it stops after
    [PEAK_TRACKING_LIMIT] of them. *)
Theorem calculate_peaks_records_dips fuel peaks0 array t0 :
  (81 <= fuel)%nat -> SHIFT_LIMIT <= Z.of_nat (length array) ->
  Z.of_nat (length peaks0) = PEAK_TRACKING_LIMIT ->
  exists ps c tr,
    calculate_peaks fuel peaks0 0 array t0 = (Ok (ps, c), tr ++ t0) /\
    take (Z.to_nat c) ps = take (Z.to_nat PEAK_TRACKING_LIMIT) (dips array 81) /\
    c = Z.of_nat (length (take (Z.to_nat PEAK_TRACKING_LIMIT) (dips array 81))).
Proof.
  intros Hfuel Hlen Hl. unfold PEAK_TRACKING_LIMIT in Hl.
  assert (length peaks0 = 10%nat) as Hl' by lia.
  destruct (calculate_peaks_spec fuel peaks0 array t0 Hfuel Hlen Hl')
    as (ps & c & tr & Hrun & Hfin).
  exists ps, c, tr. split; [exact Hrun|].
  unfold calculate_peaks in Hrun.
  destruct (scan_init_spec fuel peaks0 0 array t0 ltac:(lia) Hlen)
    as (s0 & tr0 & Hinit & Hwin & Hi & Hps & Hc & Hrd).
  rewrite (bind_Ok _ _ _ _ _ Hinit) in Hrun. unfold bind in Hrun.
  destruct (calculate_peaks_loop fuel fuel array s0 (tr0 ++ t0)) as [[s'| |] t'] eqn:Hloop;
    try discriminate.
  assert (ps = peaks s' /\ c = peak_count s') as [-> ->].
  { unfold ret in Hrun. split; congruence. }
  apply (calculate_peaks_loop_dips fuel fuel array s0 tr0 t0 s' t'); try done; try lia.
  - rewrite Hps, Hc, Hi. split; simpl; try done.
    + by apply scan_access_ok_reads.
    + by rewrite (peak_writes_reads _ _ _ Hrd).
    + constructor.
  - exists 0%nat. rewrite Hi, Hc. unfold PEAK_SEARCH_RANGE. simpl. done.
Qed.

Lemma calculate_peaks_records_dips_witness :
  exists ps c tr,
    calculate_peaks 81 (replicate 10 0) 0 example_profile [] = (Ok (ps, c), tr ++ []) /\
    take (Z.to_nat c) ps = take (Z.to_nat PEAK_TRACKING_LIMIT) (dips example_profile 81) /\
    c = Z.of_nat (length (take (Z.to_nat PEAK_TRACKING_LIMIT) (dips example_profile 81))).
Proof.
  apply (calculate_peaks_records_dips 81 (replicate 10 0) example_profile []).
  - lia.
  - vm_compute. discriminate.
  - reflexivity.
Defined.

(** ** Candidates and recorded peaks *)

(** The result of a call with an empty list, with the bounds of the
    stores and the dips it holds. *)
Lemma calculate_peaks_dips_final fuel peaks0 array t0 :
  (81 <= fuel)%nat -> SHIFT_LIMIT <= Z.of_nat (length array) ->
  length peaks0 = 10%nat ->
  exists ps c tr,
    calculate_peaks fuel peaks0 0 array t0 = (Ok (ps, c), tr ++ t0) /\
    final_ok ps c tr /\ dips_final array ps c.
Proof.
  intros Hfuel Hlen Hl.
  destruct (calculate_peaks_spec fuel peaks0 array t0 Hfuel Hlen Hl)
    as (ps & c & tr & Hrun & Hfin).
  exists ps, c, tr. split; [exact Hrun|]. split; [exact Hfin|].
  unfold calculate_peaks in Hrun.
  destruct (scan_init_spec fuel peaks0 0 array t0 ltac:(lia) Hlen)
    as (s0 & tr0 & Hinit & Hwin & Hi & Hps & Hc & Hrd).
  rewrite (bind_Ok _ _ _ _ _ Hinit) in Hrun. unfold bind in Hrun.
  destruct (calculate_peaks_loop fuel fuel array s0 (tr0 ++ t0)) as [[s'| |] t'] eqn:Hloop;
    try discriminate.
  assert (ps = peaks s' /\ c = peak_count s') as [-> ->].
  { unfold ret in Hrun. split; congruence. }
  apply (calculate_peaks_loop_dips fuel fuel array s0 tr0 t0 s' t'); try done; try lia.
  - rewrite Hps, Hc, Hi. split; simpl; try done.
    + by apply scan_access_ok_reads.
    + by rewrite (peak_writes_reads _ _ _ Hrd).
    + constructor.
  - exists 0%nat. rewrite Hi, Hc. unfold PEAK_SEARCH_RANGE. simpl. done.
Qed.

Lemma dips_elem array n p :
  p ∈ dips array n <->
  exists j, 1 <= j <= Z.of_nat n /\ is_dip_window array j = true /\ p = window_min array j.
Proof.
  induction n as [|n IH].
  - simpl. split; [by intros ?%elem_of_nil|]. intros (j & Hj & _). lia.
  - cbn [dips]. rewrite elem_of_app, IH. split.
    + intros [(j & Hj & Hd & ->)|Hin].
      * exists j. split; [lia|done].
      * destruct (is_dip_window array (Z.of_nat (S n))) eqn:Hd; [|by apply elem_of_nil in Hin].
        apply list_elem_of_singleton in Hin as ->. exists (Z.of_nat (S n)). split; [lia|done].
    + intros (j & Hj & Hd & ->). destruct (Z.eq_dec j (Z.of_nat (S n))) as [->|Hne].
      * right. rewrite Hd. by apply list_elem_of_singleton.
      * left. exists j. split; [lia|done].
Qed.

Lemma lowest_min_range array b n :
  b <= lowest_min array b n <= b + Z.max 0 (Z.of_nat n - 1).
Proof.
  induction n as [|n IH]; [cbn [lowest_min]; lia|]. cbn [lowest_min].
  destruct (get array (b + Z.of_nat n)) as [a|], (get array (lowest_min array b n)) as [v|];
    try lia.
  destruct (a <? v); lia.
Qed.

Lemma window_min_range array j :
  PEAK_SEARCH_RANGE * j <= window_min array j < PEAK_SEARCH_RANGE * j + PEAK_SEARCH_RANGE.
Proof.
  unfold window_min, PEAK_SEARCH_RANGE.
  pose proof (lowest_min_range array (15 * j) (Z.to_nat 15)) as H.
  rewrite Z2Nat.id in H by lia. lia.
Qed.

Lemma dips_sorted array n : StronglySorted Z.lt (dips array n).
Proof.
  induction n as [|n IH]; [constructor|]. cbn [dips].
  apply StronglySorted_app_2; [|done|destruct (is_dip_window _ _); repeat constructor].
  intros p q (j & Hj & _ & ->)%dips_elem Hq.
  destruct (is_dip_window array (Z.of_nat (S n))); [|by apply elem_of_nil in Hq].
  apply list_elem_of_singleton in Hq as ->.
  pose proof (window_min_range array j). pose proof (window_min_range array (Z.of_nat (S n))).
  unfold PEAK_SEARCH_RANGE in *. lia.
Qed.

(** A candidate of a window is its minimum, and the window is a dip. *)
Lemma strict_candidate_dip array j p :
  0 <= j - 1 ->
  PEAK_SEARCH_RANGE * (j + 1) + PEAK_SEARCH_RANGE <= Z.of_nat (length array) ->
  strict_candidate array j p <-> is_dip_window array j = true /\ p = window_min array j.
Proof.
  intros Hj Hlen. unfold PEAK_SEARCH_RANGE in *.
  pose proof (window_min_first_min array (j - 1) ltac:(lia)
                ltac:(unfold PEAK_SEARCH_RANGE; lia)) as H1.
  pose proof (window_min_first_min array j ltac:(lia)
                ltac:(unfold PEAK_SEARCH_RANGE; lia)) as H2.
  pose proof (window_min_first_min array (j + 1) ltac:(lia)
                ltac:(unfold PEAK_SEARCH_RANGE; lia)) as H3.
  split.
  - intros (m' & m'' & v' & v & v'' & F1 & F2 & F3 & G1 & G2 & G3 & L1 & L2).
    destruct (first_min_window_min array (j - 1) m' v' ltac:(lia)
                ltac:(unfold PEAK_SEARCH_RANGE; lia) F1 G1) as [_ ->].
    destruct (first_min_window_min array j p v ltac:(lia)
                ltac:(unfold PEAK_SEARCH_RANGE; lia) F2 G2) as [-> ->].
    destruct (first_min_window_min array (j + 1) m'' v'' ltac:(lia)
                ltac:(unfold PEAK_SEARCH_RANGE; lia) F3 G3) as [_ ->].
    split; [|done]. unfold is_dip_window. apply andb_true_iff. by rewrite !Z.ltb_lt.
  - intros [Hd ->]. unfold is_dip_window in Hd.
    apply andb_true_iff in Hd as [L1%Z.ltb_lt L2%Z.ltb_lt].
    destruct (proj2 H1) as (v' & G1 & _). destruct (proj2 H2) as (v & G2 & _).
    destruct (proj2 H3) as (v'' & G3 & _).
    exists (window_min array (j - 1)), (window_min array (j + 1)), v', v, v''.
    unfold window_min_value in L1, L2. rewrite G1, G2 in L1. rewrite G2, G3 in L2.
    simpl in L1, L2. done.
Qed.

(** C3: a call of [calculate_peaks] with an empty list declares a
    candidate exactly at the lowest index that holds the minimum of a
    window of [PEAK_SEARCH_RANGE] shifts, and exactly when the value there
    is strictly below the minimum of the window before and the minimum of
    the window after. A declared candidate is always recorded, so the
    candidates are what the call returns: every recorded peak is such a
    strict minimum of one of the windows 1 to 81; every such strict minimum
    is recorded, unless [PEAK_TRACKING_LIMIT] lower ones were recorded
    before it; and no shift is recorded from a window whose minimum equals,
    or exceeds, the minimum of a neighbouring window. *)
Theorem candidate_iff_strict_window_minimum fuel peaks0 array t0 :
  (81 <= fuel)%nat -> Z.of_nat (length array) = NUM_SAMPLES ->
  Z.of_nat (length peaks0) = PEAK_TRACKING_LIMIT ->
  exists ps c tr,
    calculate_peaks fuel peaks0 0 array t0 = (Ok (ps, c), tr ++ t0) /\
    (forall p, p ∈ take (Z.to_nat c) ps ->
       exists j, 1 <= j <= 81 /\ strict_candidate array j p) /\
    (forall j p, 1 <= j <= 81 -> strict_candidate array j p ->
       p ∈ take (Z.to_nat c) ps \/
       (c = PEAK_TRACKING_LIMIT /\ Forall (fun q => q < p) (take (Z.to_nat c) ps))) /\
    (forall j i, 1 <= j <= 81 -> tied_window array j ->
       PEAK_SEARCH_RANGE * j <= i < PEAK_SEARCH_RANGE * j + PEAK_SEARCH_RANGE ->
       i ∉ take (Z.to_nat c) ps).
Proof.
  intros Hfuel Hlen Hl. unfold NUM_SAMPLES, PEAK_TRACKING_LIMIT in *.
  assert (SHIFT_LIMIT <= Z.of_nat (length array)) as Hlen' by (unfold SHIFT_LIMIT; lia).
  destruct (calculate_peaks_dips_final fuel peaks0 array t0 Hfuel Hlen' ltac:(lia))
    as (ps & c & tr & Hrun & _ & Htake & Hc).
  exists ps, c, tr. split; [exact Hrun|].
  assert (forall j, 1 <= j <= 81 ->
            forall p, strict_candidate array j p <->
                      is_dip_window array j = true /\ p = window_min array j) as Hcand.
  { intros j Hj p. apply strict_candidate_dip; unfold PEAK_SEARCH_RANGE; lia. }
  assert (forall p, p ∈ take (Z.to_nat c) ps ->
            exists j, 1 <= j <= 81 /\ strict_candidate array j p) as Honly.
  { intros p Hp. rewrite Htake in Hp. apply subseteq_take in Hp.
    apply dips_elem in Hp as (j & Hj & Hd & ->). exists j. split; [lia|].
    apply Hcand; [lia|done]. }
  split; [exact Honly|]. split.
  - intros j p Hj [Hd ->]%Hcand; [|done].
    assert (window_min array j ∈ dips array 81) as Hin.
    { apply dips_elem. exists j. split; [lia|done]. }
    rewrite <- (take_drop 10 (dips array 81)) in Hin.
    apply elem_of_app in Hin as [Hin|Hin]; [left; by rewrite Htake|right].
    pose proof (dips_sorted array 81) as Hs.
    rewrite <- (take_drop 10 (dips array 81)) in Hs.
    split.
    + rewrite Hc, length_take.
      assert (10 < length (dips array 81))%nat; [|lia].
      destruct (decide (10 < length (dips array 81))%nat) as [|Hle]; [done|].
      rewrite drop_ge in Hin by lia. by apply elem_of_nil in Hin.
    + rewrite Htake. apply Forall_forall. intros q Hq.
      by apply (StronglySorted_app_1_elem_of _ _ _ _ _ Hs).
  - intros j i Hj (m' & m & m'' & v' & v & v'' & F1 & F2 & F3 & G1 & G2 & G3 & Hle) Hi Hin.
    destruct (Honly i Hin) as (j' & Hj' & Hs).
    assert (j' = j) as ->.
    { destruct Hs as (_ & _ & _ & _ & _ & _ & [Hb _] & _). unfold PEAK_SEARCH_RANGE in *. lia. }
    destruct Hs as (n' & n'' & w' & w & w'' & E1 & E2 & E3 & K1 & K2 & K3 & L1 & L2).
    pose proof (first_min_unique _ _ _ _ _ F1 E1) as <-.
    pose proof (first_min_unique _ _ _ _ _ F2 E2) as <-.
    pose proof (first_min_unique _ _ _ _ _ F3 E3) as <-.
    assert (w' = v') by congruence. assert (w = v) by congruence.
    assert (w'' = v'') by congruence. lia.
Qed.

(** C7: started with an empty peak list, as [calculate_freq] does it,
    [calculate_peaks] keeps the peak count below [PEAK_TRACKING_LIMIT]
    whenever it goes round the loop and returns a count of at most
    [PEAK_TRACKING_LIMIT]; every store into [peaks] is at a position below
    [PEAK_TRACKING_LIMIT]; the stores are, in the order of the scan, the
    accepted candidates (the dips of the windows 1 to 81) up to the tenth,
    at the positions [0, 1, ...], and they are the entries of the list
    below the count returned, strictly ascending; and when the count
    reaches [PEAK_TRACKING_LIMIT] the store of the last peak is the last
    access of the call. *)
Theorem calculate_peaks_capacity fuel peaks0 array t0 :
  (81 <= fuel)%nat -> Z.of_nat (length array) = NUM_SAMPLES ->
  Z.of_nat (length peaks0) = PEAK_TRACKING_LIMIT ->
  (forall s t, scan_reaches fuel peaks0 0 array t0 (s, t) ->
     0 <= peak_count s < PEAK_TRACKING_LIMIT) /\
  exists ps c tr,
    calculate_peaks fuel peaks0 0 array t0 = (Ok (ps, c), tr ++ t0) /\
    0 <= c <= PEAK_TRACKING_LIMIT /\
    (forall b i v, Wr b i v ∈ tr -> b = Peaks /\ 0 <= i < PEAK_TRACKING_LIMIT) /\
    peak_writes tr
      = numbered (take (Z.to_nat PEAK_TRACKING_LIMIT) (dips array 81)) /\
    take (Z.to_nat c) ps = take (Z.to_nat PEAK_TRACKING_LIMIT) (dips array 81) /\
    c = Z.of_nat (length (take (Z.to_nat PEAK_TRACKING_LIMIT) (dips array 81))) /\
    StronglySorted Z.lt (take (Z.to_nat c) ps) /\
    (c = PEAK_TRACKING_LIMIT ->
     exists v tr', tr = Wr Peaks (PEAK_TRACKING_LIMIT - 1) v :: tr').
Proof.
  intros Hfuel Hlen Hl. unfold NUM_SAMPLES, PEAK_TRACKING_LIMIT in *.
  assert (SHIFT_LIMIT <= Z.of_nat (length array)) as Hlen' by (unfold SHIFT_LIMIT; lia).
  split.
  - intros s t Hreach.
    destruct (scan_reaches_peaks_ok fuel peaks0 array t0 s t ltac:(lia) Hlen' ltac:(lia) Hreach)
      as (tr & _ & [Hc _ _ _ _ _]). lia.
  - destruct (calculate_peaks_dips_final fuel peaks0 array t0 Hfuel Hlen' ltac:(lia))
      as (ps & c & tr & Heq & [[Hc _ Hacc Hwr _ Hsorted] Hfull] & Htake & Hcount).
    exists ps, c, tr. unfold PEAK_TRACKING_LIMIT in *.
    change (Z.to_nat 10) with 10%nat.
    split; [done|]. split; [lia|]. split.
    { intros b i v Hin. rewrite Forall_forall in Hacc. specialize (Hacc _ Hin).
      by destruct b. }
    split; [by rewrite <- Htake|]. done.
Qed.

Lemma candidate_iff_strict_window_minimum_witness :
  fst (calculate_peaks 81 (replicate 10 0) 0 example_profile [])
    = Ok ([100; 200; 300; 400; 500; 600; 700; 800; 900; 1000], 10) /\
  exists ps c tr,
    calculate_peaks 81 (replicate 10 0) 0 example_profile [] = (Ok (ps, c), tr ++ []) /\
    (forall p, p ∈ take (Z.to_nat c) ps ->
       exists j, 1 <= j <= 81 /\ strict_candidate example_profile j p) /\
    (forall j p, 1 <= j <= 81 -> strict_candidate example_profile j p ->
       p ∈ take (Z.to_nat c) ps \/
       (c = PEAK_TRACKING_LIMIT /\ Forall (fun q => q < p) (take (Z.to_nat c) ps))) /\
    (forall j i, 1 <= j <= 81 -> tied_window example_profile j ->
       PEAK_SEARCH_RANGE * j <= i < PEAK_SEARCH_RANGE * j + PEAK_SEARCH_RANGE ->
       i ∉ take (Z.to_nat c) ps).
Proof.
  split; [vm_compute; reflexivity|].
  apply (candidate_iff_strict_window_minimum 81 (replicate 10 0) example_profile []).
  - lia.
  - reflexivity.
  - reflexivity.
Defined.

Lemma calculate_peaks_capacity_witness :
  fst (calculate_peaks 81 (replicate 10 0) 0 example_profile [])
    = Ok ([100; 200; 300; 400; 500; 600; 700; 800; 900; 1000], 10) /\
  (forall s t, scan_reaches 81 (replicate 10 0) 0 example_profile [] (s, t) ->
     0 <= peak_count s < PEAK_TRACKING_LIMIT) /\
  exists ps c tr,
    calculate_peaks 81 (replicate 10 0) 0 example_profile [] = (Ok (ps, c), tr ++ []) /\
    0 <= c <= PEAK_TRACKING_LIMIT /\
    (forall b i v, Wr b i v ∈ tr -> b = Peaks /\ 0 <= i < PEAK_TRACKING_LIMIT) /\
    peak_writes tr
      = numbered (take (Z.to_nat PEAK_TRACKING_LIMIT) (dips example_profile 81)) /\
    take (Z.to_nat c) ps = take (Z.to_nat PEAK_TRACKING_LIMIT) (dips example_profile 81) /\
    c = Z.of_nat (length (take (Z.to_nat PEAK_TRACKING_LIMIT) (dips example_profile 81))) /\
    StronglySorted Z.lt (take (Z.to_nat c) ps) /\
    (c = PEAK_TRACKING_LIMIT ->
     exists v tr', tr = Wr Peaks (PEAK_TRACKING_LIMIT - 1) v :: tr').
Proof.
  split; [vm_compute; reflexivity|].
  apply (calculate_peaks_capacity 81 (replicate 10 0) example_profile []).
  - lia.
  - reflexivity.
  - reflexivity.
Defined.

